(** * Low-rank-regularization: bias scores, pseudo labels and contrastive losses

    A shallow embedding of the solvers of the repository
    (training/ERMSolver.py, training/OversampleSolver.py,
    training/SimCLRSolver.py, data_aug/celebA.py, models/resnet_simclr.py).

    Tensors are lists (vectors) and lists of rows (matrices) over a scalar
    type [T] that is only known through the interface [Backend]: the
    arithmetic and the kernels of the tensor library.  Nothing is assumed
    of the backend but that softmax and normalize keep the length of a
    row, so every theorem holds for IEEE floats with NaN as well as for
    exact arithmetic.  Python exceptions are values of
    [failure]; a function that can raise returns a [result]. *)

From Stdlib Require Import ZArith QArith List String Lia Permutation.
From stdpp Require Import gmap strings list pretty.

Local Open Scope string_scope.
Local Open Scope list_scope.
Local Open Scope nat_scope.

(** ** Exceptions and the error monad *)

Inductive failure : Type :=
| Raised (cls msg : string)   (* a [raise] statement of the repository *)
| AssertFailed                (* an [assert] statement of the repository *)
| LibraryError (cls : string) (* raised inside torch, numpy or the Python runtime *).

Inductive result (A : Type) : Type :=
| Ok (a : A)
| Error (e : failure).
Arguments Ok {A} a.
Arguments Error {A} e.

#[global] Instance result_ret : MRet result := fun A a => Ok a.
#[global] Instance result_bind : MBind result := fun A B k r =>
  match r with
  | Ok a => k a
  | Error e => Error e
  end.

#[global] Instance result_fmap : FMap result := fun A B f r =>
  match r with
  | Ok a => Ok (f a)
  | Error e => Error e
  end.

(** [assert b] *)
Definition py_assert (b : bool) : result unit :=
  if b then Ok tt else Error AssertFailed.

Definition raises_explicitly {A : Type} (r : result A) : Prop :=
  ∃ cls msg, r = Error (Raised cls msg).

Definition of_option {A : Type} (cls : string) (o : option A) : result A :=
  match o with
  | Some a => Ok a
  | None => Error (LibraryError cls)
  end.

(** [l[i]] for a Python sequence or a tensor and an index that is not
    negative: IndexError past the end. *)
Definition getitem {A : Type} (l : list A) (i : nat) : result A :=
  of_option "IndexError" (l !! i).

(** [for x in xs: ...] over a fallible body. *)
Fixpoint mapM {A B : Type} (f : A → result B) (xs : list A) : result (list B) :=
  match xs with
  | [] => Ok []
  | x :: xs' => y ← f x; ys ← mapM f xs'; Ok (y :: ys)
  end.

Fixpoint foldM {A S : Type} (f : S → A → result S) (s : S) (xs : list A) : result S :=
  match xs with
  | [] => Ok s
  | x :: xs' => s' ← f s x; foldM f s' xs'
  end.

(** A Python index into a sequence of length [len]: negative indices count
    from the end. *)
Definition py_index (len : nat) (z : Z) : result nat :=
  if decide (0 ≤ z < Z.of_nat len)%Z then Ok (Z.to_nat z)
  else if decide (- Z.of_nat len ≤ z < 0)%Z then Ok (Z.to_nat (Z.of_nat len + z))
  else Error (LibraryError "IndexError").

(** [l[i] = x] on a tensor *)
Definition setitem {A : Type} (l : list A) (i : nat) (x : A) : result (list A) :=
  if decide (i < length l) then Ok (<[i := x]> l)
  else Error (LibraryError "IndexError").

Arguments getitem : simpl never.
Arguments setitem : simpl never.

(** [os.path.join] *)
Definition ospj (dir name : string) : string := dir +:+ "/" +:+ name.

(** Advanced indexing [t[idx]] of a tensor by a tensor of positions. *)
Definition index_select {A : Type} (t : list A) (idx : list nat) : result (list A) :=
  mapM (getitem t) idx.

(** ** The tensor backend

    What the code asks of torch on scalars and rows.  [of_Q] is the
    scalar of a numeric literal or of a Python number ([len(...)],
    [b - 1], [0.0001]); the kernels are named after the torch functions
    they stand for. *)

Class Backend (T : Type) : Type := {
  of_Q : Q → T;
  add : T → T → T;
  sub : T → T → T;
  mul : T → T → T;
  div : T → T → T;
  gtb : T → T → bool;               (* [a > b] *)
  eqb : T → T → bool;               (* [a == b] *)
  isnan : T → bool;                 (* [np.isnan] *)
  t_sum : list T → T;               (* [torch.sum] over all entries *)
  t_sqrt : T → T;                   (* [torch.sqrt] *)
  t_pow : T → T → T;                (* [a ** b] *)
  relu : T → T;                     (* [F.relu] *)
  softmax : list T → list T;        (* softmax of one row *)
  cross_entropy : list T → nat → T; (* [F.cross_entropy] of one row, unreduced *)
  normalize : list T → list T;      (* [F.normalize] of one row *)
  argmax : list T → nat;            (* index part of [torch.max] of one row *)
  var : list T → T;                 (* [torch.var] of one column *)
  (* the row kernels keep the shape of their argument *)
  softmax_length : ∀ row, length (softmax row) = length row;
  normalize_length : ∀ row, length (normalize row) = length row
}.

Section Tensor.
Context {T : Type} `{Backend T}.

Definition zero : T := of_Q 0.
Definition one : T := of_Q 1.
Definition of_Z (z : Z) : T := of_Q (inject_Z z).
Definition of_nat (n : nat) : T := of_Z (Z.of_nat n).
(** [b.float()], [b.long()] *)
Definition of_bool (b : bool) : T := if b then one else zero.

(** [t.mean()]: the sum of all entries over their number. *)
Definition mean (l : list T) : T := div (t_sum l) (of_nat (length l)).

(** [m.T] for a matrix with [cols] columns. *)
Definition column (d : T) (m : list (list T)) (j : nat) : list T :=
    (fun row => nth j row d) <$> m.
Definition transpose (cols : nat) (m : list (list T)) : list (list T) :=
    column zero m <$> seq 0 cols.

Definition dot (u v : list T) : T := t_sum (zip_with mul u v).

(** [a @ b] where [b] is given by its columns. *)
Definition matmul_cols (a bT : list (list T)) : list (list T) :=
    (fun row => dot row <$> bT) <$> a.
End Tensor.

(** ** An exact backend

    Rationals with a NaN, to run the model on small inputs.  Arithmetic is
    exact (a division by zero gives NaN; infinities are not modelled).
    The kernels that leave the rationals are exact where their value is
    rational and simple -- softmax on a constant row, cross-entropy of a
    certain prediction, integer powers, square roots of squares -- and a
    rational surrogate elsewhere.  The instance serves to evaluate the
    definitions; the general theorems do not depend on it. *)

Module Exact.
Inductive xrat : Type :=
  | NaN
  | Rat (q : Q).

Definition lift2 (f : Q → Q → Q) (a b : xrat) : xrat :=
    match a, b with
    | Rat x, Rat y => Rat (Qred (f x y))
    | _, _ => NaN
    end.

Definition xdiv (a b : xrat) : xrat :=
    match a, b with
    | Rat x, Rat y => if Qeq_bool y 0 then NaN else Rat (Qred (x / y))
    | _, _ => NaN
    end.

Definition xgtb (a b : xrat) : bool :=
    match a, b with
    | Rat x, Rat y => negb (Qle_bool x y)
    | _, _ => false
    end.

Definition xeqb (a b : xrat) : bool :=
    match a, b with
    | Rat x, Rat y => Qeq_bool x y
    | _, _ => false
    end.

Definition xisnan (a : xrat) : bool :=
    match a with NaN => true | Rat _ => false end.

Definition xsum (l : list xrat) : xrat := fold_left (lift2 Qplus) l (Rat 0).

Definition xsqrt (a : xrat) : xrat :=
    match a with
    | Rat x => if (Qnum x <? 0)%Z then NaN
               else Rat (Qred (Z.sqrt (Qnum x) # Pos.sqrt (Qden x)))
    | NaN => NaN
    end.

Definition xpow (a b : xrat) : xrat :=
    match a, b with
    | Rat x, Rat y =>
        if (Qden y =? 1)%positive then Rat (Qred (Qpower x (Qnum y))) else Rat x
    | _, _ => NaN
    end.

Definition xrelu (a : xrat) : xrat :=
    match a with
    | Rat x => if Qle_bool x 0 then Rat 0 else Rat x
    | NaN => NaN
    end.

Definition xmin (a b : xrat) : xrat := if xgtb a b then b else a.

(** Exact on constant rows (the uniform distribution). *)
Definition xsoftmax (row : list xrat) : list xrat :=
    match row with
    | [] => []
    | x :: rest =>
        let m := fold_left xmin rest x in
        let w := (fun y => lift2 Qplus (lift2 Qminus y m) (Rat 1)) <$> row in
        (fun y => xdiv y (xsum w)) <$> w
    end.

(** Exact when the target has probability one (the loss is zero). *)
Definition xcross_entropy (row : list xrat) (target : nat) : xrat :=
    lift2 Qminus (Rat 1) (nth target (xsoftmax row) NaN).

(** Exact when the Euclidean norm of the row is rational. *)
Definition xnormalize (row : list xrat) : list xrat :=
    let norm := xsqrt (xsum ((fun y => lift2 Qmult y y) <$> row)) in
    let eps := Rat (1 # 1000000000000) in
    (fun y => xdiv y (if xgtb norm eps then norm else eps)) <$> row.

(** The first maximal entry; a NaN counts as maximal. *)
Fixpoint xargmax_from (best : nat) (bv : xrat) (i : nat) (l : list xrat) : nat :=
    match l with
    | [] => best
    | y :: l' =>
        if xgtb y bv || (xisnan y && negb (xisnan bv))
        then xargmax_from i y (S i) l'
        else xargmax_from best bv (S i) l'
    end.

Definition xargmax (row : list xrat) : nat :=
    match row with
    | [] => 0
    | x :: rest => xargmax_from 0 x 1 rest
    end.

(** The unbiased estimator, torch's default. *)
Definition xvar (col : list xrat) : xrat :=
    let n := Rat (inject_Z (Z.of_nat (length col))) in
    let m := xdiv (xsum col) n in
    xdiv (xsum ((fun y => let d := lift2 Qminus y m in lift2 Qmult d d) <$> col))
         (lift2 Qminus n (Rat 1)).

Lemma xsoftmax_length row : length (xsoftmax row) = length row.
Proof.
    destruct row as [|x rest]; [reflexivity|].
    unfold xsoftmax. rewrite !length_fmap. reflexivity.
Qed.

Lemma xnormalize_length row : length (xnormalize row) = length row.
Proof. unfold xnormalize. rewrite length_fmap. reflexivity. Qed.

#[export] Instance backend : Backend xrat := {|
    of_Q q := Rat (Qred q);
    add := lift2 Qplus;
    sub := lift2 Qminus;
    mul := lift2 Qmult;
    div := xdiv;
    gtb := xgtb;
    eqb := xeqb;
    isnan := xisnan;
    t_sum := xsum;
    t_sqrt := xsqrt;
    t_pow := xpow;
    relu := xrelu;
    softmax := xsoftmax;
    cross_entropy := xcross_entropy;
    normalize := xnormalize;
    argmax := xargmax;
    var := xvar;
    softmax_length := xsoftmax_length;
    normalize_length := xnormalize_length
  |}.
End Exact.

(** ** models/resnet_simclr.py *)

Module ResNet.
Section SimCLRResNet.
Context {Input Feat : Type}.

(** The layers of the network: the backbone up to the flattened
        average pool, and the projection heads. *)
Record SimCLRResNet : Type := {
      penultimate_features : Input → Feat;     (* [self.penultimate] *)
      detach : Feat → Feat;
      simclr_layer : Feat → Feat;
      simsiam_prj_layer : Feat → Feat;
      simsiam_pred_layer : Feat → Feat;
      vicReg_layer : Feat → Feat
    }.

Definition forward (self : SimCLRResNet) (inputs : Input)
        (penultimate simclr simsiam vicReg freeze : bool) : result (gmap string Feat) :=
      let aux : gmap string Feat := ∅ in
      _ ← py_assert (penultimate || simclr);
      let features := penultimate_features self inputs in
      let features := if freeze then detach self features else features in
      let aux := if penultimate then <["penultimate" := features]> aux else aux in
      let aux := if simclr then <["simclr" := simclr_layer self features]> aux else aux in
      let aux :=
        if simsiam then
          let prj := simsiam_prj_layer self features in
          let pred := simsiam_pred_layer self prj in
          <["simsiam_pred" := pred]> (<["simsiam_prj" := prj]> aux)
        else aux in
      let aux := if vicReg then <["vicReg" := vicReg_layer self features]> aux else aux in
      Ok aux.

(** The keys a caller asks for. *)
Definition requested_keys (penultimate simclr simsiam vicReg : bool) : gset string :=
      (if penultimate then {["penultimate"]} else ∅) ∪
      (if simclr then {["simclr"]} else ∅) ∪
      (if simsiam then {["simsiam_prj"; "simsiam_pred"]} else ∅) ∪
      (if vicReg then {["vicReg"]} else ∅).
End SimCLRResNet.
Arguments SimCLRResNet : clear implicits.
End ResNet.

(** ** data_aug/celebA.py *)

Module CelebA.
(** What the constructor reads from outside: the attribute table of the
      torchvision dataset per split (one row of 0/1 attributes per image),
      whether the library can open the dataset, the directories and the
      pickled files, and the two random draws.  [celeba_error root split]
      is the class of the error with which [CelebA(root, split, ...)]
      fails inside torchvision, if it does: no data under [root], a split
      that the library does not know.  [mkdir_error p] is the class of
      the error with which the directory [p] cannot be made, if any. *)
Record World : Type := {
    celeba_attr : string → list (list Z);
    celeba_error : string → string → option string;
    dirs : gset string;
    mkdir_error : string → option string;
    pickles : gmap string (list nat);
    shuffle : list nat → list nat;      (* [np.random.shuffle] *)
    randperm : nat → list nat           (* [torch.randperm] *)
  }.

Record BiasedCelebASplit : Type := {
    target_idx : nat;
    bias_idx : nat;
    indices : list nat;
    attr : list (list Z);
    targets : list Z;
    biases : list Z;
    confusion_matrix_org : list (list nat)
  }.

Definition set_pickles (w : World) (p : gmap string (list nat)) : World :=
    {| celeba_attr := celeba_attr w; celeba_error := celeba_error w;
       dirs := dirs w; mkdir_error := mkdir_error w; pickles := p;
       shuffle := shuffle w; randperm := randperm w |}.

Definition set_dirs (w : World) (d : gset string) : World :=
    {| celeba_attr := celeba_attr w; celeba_error := celeba_error w;
       dirs := d; mkdir_error := mkdir_error w; pickles := pickles w;
       shuffle := shuffle w; randperm := randperm w |}.

(** [CelebA(root=root, split=split, target_type="attr", ...)] *)
Definition CelebA (w : World) (root split : string) : result (list (list Z)) :=
    match celeba_error w root split with
    | Some cls => Error (LibraryError cls)
    | None => Ok (celeba_attr w split)
    end.

(** [Path.is_dir]: a directory of the world, or a path that a directory
      or a pickle of the world lies under. *)
Definition is_dir (w : World) (p : string) : bool :=
    bool_decide (p ∈ dirs w)
    || existsb (String.prefix (p +:+ "/")) (elements (dirs w))
    || existsb (String.prefix (p +:+ "/")) (map_to_list (pickles w)).*1.

(** [Path.exists] *)
Definition exists_path (w : World) (p : string) : bool :=
    bool_decide (is_Some (pickles w !! p)) || is_dir w p.

(** [Path.mkdir(parents=True, exist_ok=True)] *)
Definition mkdir (w : World) (p : string) : result World :=
    match mkdir_error w p with
    | Some cls => Error (LibraryError cls)
    | None => Ok (set_dirs w ({[ p ]} ∪ dirs w))
    end.

(** [pickle.load(open(p, 'rb'))] *)
Definition load (w : World) (p : string) : result (list nat) :=
    match pickles w !! p with
    | Some l => Ok l
    | None => Error (LibraryError (if is_dir w p then "IsADirectoryError"
                                   else "FileNotFoundError"))
    end.

(** [pickle.dump(l, open(p, 'wb'))] for a path [p] in the directory
      [dir]: the directory has to be there. *)
Definition dump (w : World) (dir p : string) (l : list nat) : result World :=
    if is_dir w p then Error (LibraryError "IsADirectoryError")
    else if is_dir w dir then Ok (set_pickles w (<[p := l]> (pickles w)))
    else Error (LibraryError "FileNotFoundError").

(** [int(0.8 * n)].  The double nearest to 0.8 exceeds it by 0.4 * 2^-53,
      so for the sizes of a dataset the rounded product truncates to the
      integer part of 4n/5. *)
Definition int_0_8 (n : nat) : nat := 4 * n / 5.
Arguments int_0_8 : simpl never.

(** [attr[:, j]] *)
Definition attr_column (rows : list (list Z)) (j : nat) : result (list Z) :=
    mapM (fun row => getitem row j) rows.

Definition both_zero (rows : list (list Z)) (b t i : nat) : bool :=
    match rows !! i with
    | Some row => bool_decide (row !! b = Some 0%Z ∧ row !! t = Some 0%Z)
    | None => false
    end.

Definition build_blonde (w : World) (rows : list (list Z)) (b t : nat) : result (list nat) :=
    _ ← attr_column rows b;
    _ ← attr_column rows t;
    let all := seq 0 (length rows) in
    let selects := filter (fun i => both_zero rows b t i = true) all in
    let non_selects := filter (fun i => both_zero rows b t i ≠ true) all in
    Ok (take 2000 (shuffle w selects) ++ non_selects).

(** [c += 1] on an entry of a float32 tensor that holds a count: the
      sum is exact up to 2^24 = 16777216, and from there on it rounds back
      to 2^24. *)
Definition add_one_float32 (c : nat) : nat :=
    if (N.of_nat c <? 16777216)%N then S c else c.

(** [confusion_matrix_org] of [get_confusion_matrix]: a count per
      (bias, target) pair, in float32.  The two row-normalised copies are
      quotients of this table and are left out. *)
Definition get_confusion_matrix (num_classes : nat) (targets biases : list Z)
      : result (list (list nat)) :=
    foldM (fun m tp =>
             p ← py_index num_classes tp.2;
             t ← py_index num_classes tp.1;
             Ok (alter (alter add_one_float32 t) p m))
          (replicate num_classes (replicate num_classes 0))
          (zip targets biases).

Definition rand_path (target_attr : string) : string :=
    "clusters/celeba_rand_indices_" +:+ target_attr +:+ ".pkl".
Definition blonde_dir (root : string) : string :=
    ospj (ospj root "pickles") "blonde".
Definition blonde_path (root : string) : string :=
    ospj (ospj (ospj root "pickles") "blonde") "indices.pkl".

Definition train_or_valid (split : string) : bool :=
    bool_decide (split = "train") || bool_decide (split = "valid").

(** [BiasedCelebASplit.__init__]; the result is the object and the world
      with the directory and the pickles the constructor wrote. *)
Definition init (w : World) (root split target_attr : string)
      : result (BiasedCelebASplit * World) :=
    celeba ← CelebA w root (if bool_decide (split = "valid") then "train" else split);
    let bias_idx := 20 in
    '(target_idx, indices, attr, w) ←
      (if bool_decide (target_attr = "blonde") then
         let target_idx := 9 in
         if train_or_valid split then
           let save_path := blonde_dir root in
           '(indices, w) ←
             (if is_dir w save_path then
                saved ← load w (blonde_path root);
                Ok (saved, w)
              else
                built ← build_blonde w celeba bias_idx target_idx;
                w ← mkdir w save_path;
                w ← dump w save_path (blonde_path root) built;
                Ok (built, w));
           attr ← index_select celeba indices;
           Ok (target_idx, indices, attr, w)
         else Ok (target_idx, seq 0 (length celeba), celeba, w)
       else if bool_decide (target_attr = "makeup") then
         Ok (18, seq 0 (length celeba), celeba, w)
       else Error (Raised "AttributeError" ""));
    '(indices, attr, w) ←
      (if train_or_valid split then
         let save_path := rand_path target_attr in
         '(rand_indices, w) ←
           (if negb (exists_path w save_path) then
              let rand_indices := randperm w (length indices) in
              w ← dump w "clusters" save_path rand_indices;
              Ok (rand_indices, w)
            else
              rand_indices ← load w save_path;
              Ok (rand_indices, w));
         let num_total := length rand_indices in
         let num_train := int_0_8 num_total in
         let chosen :=
           if bool_decide (split = "train") then take num_train rand_indices
           else drop num_train rand_indices in
         indices' ← index_select indices chosen;
         attr' ← index_select attr chosen;
         Ok (indices', attr', w)
       else Ok (indices, attr, w));
    targets ← attr_column attr target_idx;
    biases ← attr_column attr bias_idx;
    cm ← get_confusion_matrix 2 targets biases;
    Ok ({| target_idx := target_idx; bias_idx := bias_idx; indices := indices;
           attr := attr; targets := targets; biases := biases;
           confusion_matrix_org := cm |}, w).

(** [__len__] *)
Definition __len__ (self : BiasedCelebASplit) : nat := length (targets self).

(** [__getitem__].  [celeba] is the attribute table of the torchvision
      dataset the object was built on, one row per image; the image of the
      answer is given by its position in that dataset, and fetching it
      fails past the end. *)
Definition __getitem__ (celeba : list (list Z)) (self : BiasedCelebASplit) (index : Z)
      : result (nat * Z * Z * Z) :=
    i ← py_index (length (indices self)) index;
    position ← getitem (indices self) i;
    _ ← getitem celeba position;
    i ← py_index (length (targets self)) index;
    target ← getitem (targets self) i;
    i ← py_index (length (biases self)) index;
    bias ← getitem (biases self) i;
    Ok (position, target, bias, index).
End CelebA.

(** ** What a training run does, as a trace

    The loops of the solvers are modelled by their control flow: the
    forward and backward pass of a batch, a validation pass and a call of
    the checkpoint writer are events.  The numeric work inside an event is
    not part of the trace, and an event stands for a call that completes:
    the trace describes the order of the calls of a run in which they do,
    not whether each of them does. *)

Inductive event : Type :=
| TrainStep (epoch n_iter : nat)
| Logged (n_iter : nat)
| SchedulerStep (epoch : nat)
| Validation (epoch step : nat)
| ValidateImagenet (epoch : nat) (key : string)
| SaveScoreIdx (epoch : nat)
| SaveCheckpoint (step : nat) (token : string).

(** The local variables of a training loop that later statements read. *)
Record loop_state : Type := {
  n_iter : nat;
  loss_bound : bool;            (* [loss] has been assigned *)
  top1_bound : bool;            (* [top1] has been assigned *)
  epoch_counter : option nat;   (* the loop variable, unbound before the first epoch *)
  trace : list event
}.

Definition emit (e : list event) (st : loop_state) : loop_state :=
  {| n_iter := n_iter st; loss_bound := loss_bound st; top1_bound := top1_bound st;
     epoch_counter := epoch_counter st; trace := trace st ++ e |}.

Definition unbound {A : Type} : result A := Error (LibraryError "UnboundLocalError").

(** One pass of [for batch in loader] up to [n_iter += 1]. *)
Definition batch_step (log_every_n_steps epoch : nat) (st : loop_state) (_ : nat)
    : result loop_state :=
  let st := emit [TrainStep epoch (n_iter st)] st in
  if decide (log_every_n_steps = 0) then Error (LibraryError "ZeroDivisionError")
  else
    let logged := bool_decide (n_iter st `mod` log_every_n_steps = 0) in
    Ok {| n_iter := S (n_iter st); loss_bound := true;
          top1_bound := top1_bound st || logged;
          epoch_counter := epoch_counter st;
          trace := trace st ++ (if logged then [Logged (n_iter st)] else []) |}.

Definition bind_epoch (epoch : nat) (st : loop_state) : loop_state :=
  {| n_iter := n_iter st; loss_bound := loss_bound st; top1_bound := top1_bound st;
     epoch_counter := Some epoch; trace := trace st |}.

Definition initial_state : loop_state :=
  {| n_iter := 0; loss_bound := false; top1_bound := false;
     epoch_counter := None; trace := [] |}.

(** ** Files and sampling weights

    The files that the solvers exchange: tensors written by [torch.save]
    and index arrays written by [np.save]. *)

Record Files (T : Type) : Type := {
  tensors : gmap string (list T);
  arrays : gmap string (list nat)
}.
Arguments tensors {T} f.
Arguments arrays {T} f.

Definition torch_load {T : Type} (files : Files T) (path : string) : result (list T) :=
  of_option "FileNotFoundError" (tensors files !! path).
Definition np_load {T : Type} (files : Files T) (path : string) : result (list nat) :=
  of_option "FileNotFoundError" (arrays files !! path).
Definition torch_save {T : Type} (files : Files T) (path : string) (t : list T) : Files T :=
  {| tensors := <[path := t]> (tensors files); arrays := arrays files |}.
(** [os.path.exists] *)
Definition path_exists {T : Type} (files : Files T) (path : string) : bool :=
  bool_decide (is_Some (tensors files !! path))
  || bool_decide (is_Some (arrays files !! path)).

Section Upweight.
Context {T : Type} `{Backend T}.

(** The lines shared by [OversampleSolver.train_with_oversampling] and
      [ERMSolver.__init__]:
      [upweight = torch.ones_like(wrong_label)];
      with [finetune], [upweight[ind] = 0] for every [ind] outside the
      subset; then [upweight[wrong_label == 1] = lambda_upweight]. *)
Definition upweight_of (files : Files T) (finetune : bool) (subset_path : string)
      (lambda_upweight : T) (wrong_label : list T) : result (list T) :=
    let upweight := replicate (length wrong_label) one in
    upweight ←
      (if finetune then
         indices ← np_load files subset_path;
         Ok (imap (fun ind u => if decide (ind ∈ indices) then u else zero) upweight)
       else Ok upweight);
    Ok (zip_with (fun w u => if eqb w one then lambda_upweight else u)
                 wrong_label upweight).

Definition subset_path (checkpoint_dir finetune_ratio : string) : string :=
    ospj checkpoint_dir ("subset_indices_" +:+ finetune_ratio +:+ ".npy").
End Upweight.

(** ** Reshaping and masking

    Views, boolean masks and concatenation of tensors as the solvers use
    them. *)

(** [count] rows of [width] entries, in row-major order. *)
Fixpoint chunks {A : Type} (width count : nat) (flat : list A) : list (list A) :=
  match count with
  | 0 => []
  | S c => take width flat :: chunks width c (drop width flat)
  end.

(** [t.view(n, -1)]: the missing dimension is inferred; it cannot be when
    [n] is zero, and the size must be a multiple of [n]. *)
Definition view_infer {A : Type} (n : nat) (flat : list A) : result (list (list A)) :=
  if decide (n = 0) then Error (LibraryError "RuntimeError")
  else if decide (length flat `mod` n = 0) then Ok (chunks (length flat / n) n flat)
  else Error (LibraryError "RuntimeError").

(** [t.view(r, c)] *)
Definition view {A : Type} (r c : nat) (flat : list A) : result (list (list A)) :=
  if decide (length flat = r * c) then Ok (chunks c r flat)
  else Error (LibraryError "RuntimeError").

Fixpoint select_row {A : Type} (row : list A) (mrow : list bool) : list A :=
  match row, mrow with
  | x :: row', b :: mrow' =>
      if b then x :: select_row row' mrow' else select_row row' mrow'
  | _, _ => []
  end.

(** [m[mask]] for a boolean mask of the shape of [m]: the selected
    entries in row-major order. *)
Definition masked_select {A : Type} (m : list (list A)) (mask : list (list bool))
    : result (list A) :=
  if decide (length <$> m = length <$> mask)
  then Ok (concat (zip_with select_row m mask))
  else Error (LibraryError "IndexError").

(** [torch.eye(n, dtype=torch.bool)] *)
Definition eye (n : nat) : list (list bool) :=
  (fun i => (fun j => bool_decide (i = j)) <$> seq 0 n) <$> seq 0 n.

Definition mask_not (mask : list (list bool)) : list (list bool) :=
  (fun row : list bool => negb <$> row) <$> mask.

(** [torch.cat([a, b], dim=1)] *)
Definition cat_dim1 {A : Type} (a b : list (list A)) : result (list (list A)) :=
  if decide (length a = length b) then Ok (zip_with app a b)
  else Error (LibraryError "RuntimeError").

(** The number of columns of a matrix; callers pass square matrices, so a
    matrix without rows has no columns. *)
Definition ncols {A : Type} (x : list (list A)) : nat :=
  match x with
  | [] => 0
  | row :: _ => length row
  end.

(** [int(0.4 * n)] and [int(0.2 * n)]; see [CelebA.int_0_8]. *)
Definition int_0_4 (n : nat) : nat := 2 * n / 5.
Definition int_0_2 (n : nat) : nat := n / 5.
Arguments int_0_4 : simpl never.
Arguments int_0_2 : simpl never.

(** ** training/ERMSolver.py *)

Module ERMSolver.
Section Solver.
Context {T : Type} `{Backend T}.
Context {Image Feat : Type}.

Record Args : Type := {
      finetune : bool;
      data : string;
      bias_ratio : string;          (* as the f-string prints it *)
      checkpoint_dir : string;
      ERM_epochs : nat;
      log_every_n_steps : nat;
      oversample_pth : option string;
      lambda_upweight : T;
      finetune_ratio : string       (* as the f-string prints it *)
    }.

(** The branch of [__init__] that replaces the training loader by a
        weighted one: the sampling weights, if any. *)
Definition init_upweight (args : Args) (files : Files T) : result (option (list T)) :=
      match oversample_pth args with
      | Some pth =>
          if negb (eqb (lambda_upweight args) one) then
            wrong_label ← torch_load files pth;
            upweight ← upweight_of files (finetune args)
                          (subset_path (checkpoint_dir args) (finetune_ratio args))
                          (lambda_upweight args) wrong_label;
            Ok (Some upweight)
          else Ok None
      | None => Ok None
      end.

Record Nets : Type := {
      encoder : ResNet.SimCLRResNet (list Image) Feat;
      classifier : Feat → list (list T)
    }.

(** One item of the dataset as the loader collates it into a batch. *)
Record sample : Type := {
      image : Image;
      label : nat;
      bias_label : nat;
      idx : nat
    }.

Record scores : Type := {
      score_idx : list T;
      wrong_idx : list T;
      debias_idx : list T
    }.

(** [p[torch.arange(p.size(0)), labels]]; a network returns one row
        per image, and index tensors of other lengths are rejected. *)
Definition select_labels (p : list (list T)) (labels : list nat) : result (list T) :=
      if decide (length p = length labels) then
        mapM (fun rl => getitem rl.1 rl.2) (zip p labels)
      else Error (LibraryError "IndexError").

Definition ne_labels (a b : list nat) : result (list bool) :=
      if decide (length a = length b) then
        Ok (zip_with (fun x y => negb (bool_decide (x = y))) a b)
      else Error (LibraryError "RuntimeError").

(** The body of [for i, v in enumerate(idx)]. *)
Definition record_one (bias_score : list T) (debiased wrong : list bool)
        (st : scores) (iv : nat * nat) : result scores :=
      let '(i, v) := iv in
      s ← getitem bias_score i;
      score_idx' ← setitem (score_idx st) v s;
      d ← getitem debiased i;
      debias_idx' ← setitem (debias_idx st) v (of_bool d);
      w ← getitem wrong i;
      wrong_idx' ← setitem (wrong_idx st) v (of_bool w);
      Ok {| score_idx := score_idx'; wrong_idx := wrong_idx'; debias_idx := debias_idx' |}.

(** The logits of a batch, under [torch.no_grad()]. *)
Definition batch_logits (nets : Nets) (batch : list sample) : result (list (list T)) :=
      aux ← ResNet.forward (encoder nets) (image <$> batch) true false false false true;
      features_penul ← of_option "KeyError" (aux !! "penultimate");
      Ok (classifier nets features_penul).

(** The body of [for _, (images, labels, bias_labels, idx) in iterator]. *)
Definition score_batch (nets : Nets) (acc : scores * nat) (batch : list sample)
        : result (scores * nat) :=
      let '(st, total_num) := acc in
      let labels := label <$> batch in
      logits ← batch_logits nets batch;
      bias_prob ← select_labels (softmax <$> logits) labels;
      let bias_score := sub one <$> bias_prob in
      let pred := argmax <$> logits in
      wrong ← ne_labels pred labels;
      debiased ← ne_labels labels (bias_label <$> batch);
      st' ← foldM (record_one bias_score debiased wrong) st
                  (zip (seq 0 (length batch)) (idx <$> batch));
      Ok (st', total_num + length labels).

Definition tensor_path (args : Args) (name : string) (epoch : option nat)
        : result string :=
      if bool_decide (data args = "stl10mnist") then
        Ok (ospj (checkpoint_dir args) (name +:+ "_" +:+ bias_ratio args +:+ ".pth"))
      else match epoch with
           | Some e => Ok (ospj (checkpoint_dir args) (name +:+ pretty e +:+ ".pth"))
           | None => Error (LibraryError "AttributeError")  (* [torch.save] to a lambda *)
           end.

(** [save_score_idx]: the three tensors and the files written.
        [num_data] is the length of the dataset.  The closing call of
        [pseudo_label_precision_recall] prints and logs two ratios and is
        left out. *)
Definition save_score_idx (args : Args) (nets : Nets) (num_data : nat)
        (files : gmap string (list T)) (loader : list (list sample)) (epoch : option nat)
        : result (scores * gmap string (list T)) :=
      let init := {| score_idx := replicate num_data zero;
                     wrong_idx := replicate num_data zero;
                     debias_idx := replicate num_data zero |} in
      '(st, total_num) ← foldM (score_batch nets) (init, 0) loader;
      _ ← (if negb (finetune args)
           then py_assert (bool_decide (total_num = length (score_idx st)))
           else Ok tt);
      score_idx_path ← tensor_path args "score_idx" epoch;
      wrong_idx_path ← tensor_path args "wrong_idx" epoch;
      debias_idx_path ← tensor_path args "debias_idx" epoch;
      Ok (st, <[debias_idx_path := debias_idx st]>
                (<[wrong_idx_path := wrong_idx st]>
                   (<[score_idx_path := score_idx st]> files))).

(** [gather(p, 1, targets.unsqueeze(1))] *)
Definition gather (p : list (list T)) (targets : list nat) : result (list T) :=
      if decide (length targets ≤ length p) then
        mapM (fun rt => of_option "RuntimeError" (rt.1 !! rt.2)) (zip p targets)
      else Error (LibraryError "RuntimeError").

(** [F.cross_entropy(logits, targets, reduction='none')] *)
Definition cross_entropy_none (logits : list (list T)) (targets : list nat)
        : result (list T) :=
      if decide (length logits = length targets) then
        mapM (fun rt => if decide (rt.2 < length rt.1) then Ok (cross_entropy rt.1 rt.2)
                        else Error (LibraryError "IndexError"))
             (zip logits targets)
      else Error (LibraryError "ValueError").

(** [GeneralizedCELoss.forward] with [self.q = q]. *)
Definition GeneralizedCELoss_forward (q : T) (logits : list (list T))
        (targets : list nat) : result (list T) :=
      let p := softmax <$> logits in
      if isnan (mean (concat p)) then Error (Raised "NameError" "GCE_p")
      else
        Yg ← gather p targets;
        let loss_weight := (fun y => mul (t_pow y q) q) <$> Yg in
        if isnan (mean Yg) then Error (Raised "NameError" "GCE_Yg")
        else
          ce ← cross_entropy_none logits targets;
          Ok (zip_with mul ce loss_weight).

(** The statements of an epoch of [train] after the batches. *)
Definition after_epoch (args : Args) (epoch : nat) (st : loop_state)
        : result loop_state :=
      _ ← (if loss_bound st && top1_bound st then Ok tt else unbound);
      let st :=
        if bool_decide (data args ≠ "imagenet") then
          emit [Validation epoch (n_iter st + 1)] st
        else
          emit (ValidateImagenet epoch <$> ["biased"; "unbiased"; "ImageNetA"]) st in
      Ok (match oversample_pth args with
          | None => emit [SaveScoreIdx epoch] st
          | Some _ => st
          end).

(** [train]; [n_batches] is the length of the loader. *)
Definition train (args : Args) (n_batches : nat) : result loop_state :=
      st ← foldM (fun st epoch =>
                    let st := bind_epoch epoch st in
                    st ← foldM (batch_step (log_every_n_steps args) epoch) st
                               (seq 0 n_batches);
                    after_epoch args epoch st)
                 initial_state (seq 0 (ERM_epochs args));
      epoch_counter ← (match epoch_counter st with
                       | Some e => Ok e
                       | None => unbound
                       end);
      Ok (emit [SaveCheckpoint (epoch_counter + 1) "biased_ERM"] st).

(** [off_diagonal]: the flattened view of the off-diagonal entries. *)
Definition off_diagonal (x : list (list T)) : result (list T) :=
      let n := length x in
      let m := ncols x in
      _ ← py_assert (bool_decide (n = m));
      rows ← view (n - 1) (n + 1) (removelast (concat x));
      Ok (concat (drop 1 <$> rows)).

(** [report_validation]: the calls of [self.writer.add_scalar], in
        order, as (key, value, step).  [attr_dim] is [self.attr_dims[0]];
        of the 0/1 identity matrix, [eye_tsr == 1] is the boolean identity
        and [eye_tsr == 0] its negation. *)
Definition report_validation (attr_dim : nat) (valid_attrwise_acc : list (list T))
        (valid_acc : T) (step : nat) : result (list (string * T * nat)) :=
      let eye_tsr := eye attr_dim in
      aligned ← masked_select valid_attrwise_acc eye_tsr;
      let valid_acc_align := mean aligned in
      conflicting ← masked_select valid_attrwise_acc (mask_not eye_tsr);
      let valid_acc_conflict := mean conflicting in
      Ok ((fun ak : T * string => (ak.2, ak.1, step))
            <$> zip [valid_acc; valid_acc_align; valid_acc_conflict]
                    ["Acc/total"; "Acc/align"; "Acc/conflict"]).

(** The index part of [torch.max(pred.data, 1)]: a largest entry of
        every row; a row without entries has none. *)
Definition max_dim1 (pred : list (list T)) : result (list nat) :=
      mapM (fun row => match row with
                       | [] => Error (LibraryError "IndexError")
                       | _ => Ok (argmax row)
                       end) pred.

(** [a == b] on index tensors; a tensor with one entry is broadcast. *)
Definition eq_labels (a b : list nat) : result (list bool) :=
      if decide (length a = length b) then
        Ok (zip_with (fun x y => bool_decide (x = y)) a b)
      else match a, b with
           | [x], _ => Ok ((fun y => bool_decide (x = y)) <$> b)
           | _, [y] => Ok ((fun x => bool_decide (x = y)) <$> a)
           | _, _ => Error (LibraryError "RuntimeError")
           end.

(** [n_correct] *)
Definition n_correct (pred : list (list T)) (labels : list nat) : result nat :=
      predicted ← max_dim1 pred;
      hits ← eq_labels predicted labels;
      Ok (sum_list ((fun b : bool => if b then 1 else 0) <$> hits)).

(** One batch of the imagenet loaders: [bias_labels] holds one tensor
        of cluster labels per clustering. *)
Record imagenet_batch : Type := {
      images : list Image;
      labels : list nat;
      bias_labels : list (list nat)
    }.

(** The index part of [output.topk(1, 0)] for one row of logits: a
        largest entry, as for [torch.max]. *)
Definition top1 (output : list T) : result nat :=
      match output with
      | [] => Error (LibraryError "RuntimeError")
      | _ => Ok (argmax output)
      end.

(** [table[label][cluster_label] += x] on an array of counts. *)
Definition bump (table : list (list nat)) (label cluster_label x : nat)
        : result (list (list nat)) :=
      row ← getitem table label;
      v ← getitem row cluster_label;
      Ok (<[label := <[cluster_label := v + x]> row]> table).

(** [imagenet_unbiased_accuracy]; the arrays of [num_correct] and
        [num_instance] hold whole numbers and are kept as counts. *)
Definition imagenet_unbiased_accuracy (outputs : list (list T)) (labels : list nat)
        (cluster_labels : list (list nat))
        (num_correct num_instance : list (list (list nat))) (num_cluster_repeat : nat)
        : result (list (list (list nat)) * list (list (list nat))) :=
      foldM (fun acc j =>
               foldM (fun acc i =>
                        let '(num_correct, num_instance) := acc in
                        output ← getitem outputs i;
                        label ← getitem labels i;
                        clusters ← getitem cluster_labels j;
                        cluster_label ← getitem clusters i;
                        pred ← top1 output;
                        let correct := if bool_decide (pred = label) then 1 else 0 in
                        table ← getitem num_correct j;
                        table ← bump table label cluster_label correct;
                        let num_correct := <[j := table]> num_correct in
                        table ← getitem num_instance j;
                        table ← bump table label cluster_label 1;
                        Ok (num_correct, <[j := table]> num_instance))
                     acc (seq 0 (length outputs)))
            (num_correct, num_instance) (seq 0 num_cluster_repeat).

(** [validate_imagenet]: the accuracy and, for the key 'unbiased', the
        two arrays saved to 'unbiased_acc_array.npy'. *)
Definition validate_imagenet (nets : Nets) (val_loader : list imagenet_batch)
        (num_classes num_clusters num_cluster_repeat : nat) (key : option string)
        : result (T * option (list (list (list nat)) * list (list (list nat)))) :=
      let unbiased := bool_decide (key = Some "unbiased") in
      let zeros :=
        replicate num_cluster_repeat (replicate num_classes (replicate num_clusters 0)) in
      '(total, f_correct, num_correct, num_instance) ←
        foldM (fun (acc : nat * nat * list (list (list nat)) * list (list (list nat)))
                   (batch : imagenet_batch) =>
                 let '(total, f_correct, num_correct, num_instance) := acc in
                 aux ← ResNet.forward (encoder nets) (images batch)
                         true false false false false;
                 features_penul ← of_option "KeyError" (aux !! "penultimate");
                 let output := classifier nets features_penul in
                 let batch_size := length (labels batch) in
                 let total := total + batch_size in
                 if unbiased then
                   '(num_correct, num_instance) ←
                     imagenet_unbiased_accuracy output (labels batch) (bias_labels batch)
                       num_correct num_instance num_cluster_repeat;
                   Ok (total, f_correct, num_correct, num_instance)
                 else
                   n ← n_correct output (labels batch);
                   Ok (total, f_correct + n, num_correct, num_instance))
              (0, 0, zeros, zeros) val_loader;
      if unbiased then
        f_correct ←
          foldM (fun (f_correct : T) (k : nat) =>
                   table ← getitem num_correct k;
                   let _num_correct : list nat := concat table in
                   table ← getitem num_instance k;
                   let _num_instance : list nat := concat table in
                   let cells :=
                     filter (fun ci => 10 ≤ ci.2) (zip _num_correct _num_instance) in
                   let x := snd <$> cells in
                   let y := (fun ci => div (of_nat ci.1) (of_nat ci.2)) <$> cells in
                   if decide (length x = 0)
                   then Error (LibraryError "ZeroDivisionError")
                   else Ok (add f_correct
                                (div (fold_left add y zero) (of_nat (length x)))))
                (of_nat f_correct) (seq 0 num_cluster_repeat);
        if decide (num_cluster_repeat = 0) then Error (LibraryError "ZeroDivisionError")
        else Ok (div f_correct (of_nat num_cluster_repeat),
                 Some (num_correct, num_instance))
      else
        if decide (total = 0) then Error (LibraryError "ZeroDivisionError")
        else Ok (div (of_nat f_correct) (of_nat total), None).
End Solver.
Arguments Args : clear implicits.
Arguments Nets : clear implicits.
Arguments sample : clear implicits.
Arguments scores : clear implicits.
Arguments imagenet_batch : clear implicits.
End ERMSolver.

(** ** training/SimCLRSolver.py *)

Module SimCLRSolver.
Section Solver.
Context {T : Type} `{Backend T}.

Record Args : Type := {
      batch_size : nat;
      n_views : nat;
      temperature : T;
      lambda_vicReg_pos : T;
      lambda_vicReg_std : T;
      lambda_vicReg_cov : T;
      simclr_epochs : nat;
      save_every : nat;
      log_every_n_steps : nat;
      data : string;
      mode_CL : string
    }.

Definition info_nce_loss (args : Args) (features : list (list T))
        : result (list (list T) * list nat) :=
      _ ← (if decide (n_views args = 0)
           then Error (A := unit) (LibraryError "RuntimeError")
           else Ok tt);                                   (* [torch.cat] of nothing *)
      let labels : list nat :=
        concat (replicate (n_views args) (seq 0 (batch_size args))) in
      let labels : list (list bool) :=
        (fun li : nat => (fun lj : nat => bool_decide (lj = li)) <$> labels) <$> labels in
      let features : list (list T) := normalize <$> features in
      let similarity_matrix : list (list T) := matmul_cols features features in
      let mask := eye (length labels) in
      flat ← masked_select labels (mask_not mask);
      labels ← view_infer (length labels) flat;
      flat ← masked_select similarity_matrix (mask_not mask);
      similarity_matrix ← view_infer (length similarity_matrix) flat;
      flat ← masked_select similarity_matrix labels;
      positives ← view_infer (length labels) flat;
      flat ← masked_select similarity_matrix (mask_not labels);
      negatives ← view_infer (length similarity_matrix) flat;
      logits ← cat_dim1 positives negatives;
      let labels := replicate (length logits) 0 in
      let logits := (fun row : list T => (fun x => div x (temperature args)) <$> row) <$> logits in
      Ok (logits, labels).

(** [off_diagonal]: the flattened view of the off-diagonal entries. *)
Definition off_diagonal (x : list (list T)) : result (list T) :=
      let n := length x in
      let m := ncols x in
      _ ← py_assert (bool_decide (n = m));
      rows ← view (n - 1) (n + 1) (removelast (concat x));
      Ok (concat (drop 1 <$> rows)).

(** [nn.MSELoss()(a, b)]; a single row is broadcast against the other
        argument. *)
Definition mse_loss (a b : list (list T)) : result T :=
      '(a, b) ←
        (if decide (length a = length b) then Ok (a, b)
         else match a, b with
              | [row], _ => Ok (replicate (length b) row, b)
              | _, [row] => Ok (a, replicate (length a) row)
              | _, _ => Error (LibraryError "RuntimeError")
              end);
      Ok (mean (concat (zip_with (zip_with (fun x y => let d := sub x y in mul d d)) a b))).

(** [z - z.mean(dim=0)] for [z] of shape [(len z, dim)]. *)
Definition center (dim : nat) (z : list (list T)) : list (list T) :=
      let means := (fun j => mean (column zero z j)) <$> seq 0 dim in
      (fun row => zip_with sub row means) <$> z.

(** [torch.sqrt(z.var(dim=0) + 0.0001)] *)
Definition std (dim : nat) (z : list (list T)) : list T :=
      (fun j => t_sqrt (add (var (column zero z j)) (of_Q (1 # 10000)))) <$> seq 0 dim.

(** [(z.T @ z) / k] *)
Definition cov (dim : nat) (z : list (list T)) (k : Z) : list (list T) :=
      (fun row : list T => (fun x => div x (of_Z k)) <$> row)
        <$> matmul_cols (transpose dim z) (transpose dim z).

Definition sum_of_squares (l : list T) : T :=
      t_sum ((fun x => t_pow x (of_Q 2)) <$> l).

(** [vicReg_loss] on features of shape [(len features, dim)]. *)
Definition vicReg_loss (args : Args) (dim : nat) (features : list (list T))
        : result T :=
      let b := length features / 2 in
      let z_1 := take b features in
      let z_2 := drop b features in
      loss_pos ← mse_loss z_1 z_2;
      let z_1 := center dim z_1 in
      let z_2 := center dim z_2 in
      let std_1 := std dim z_1 in
      let std_2 := std dim z_2 in
      let loss_std :=
        add (div (mean ((fun s => relu (sub one s)) <$> std_1)) (of_Q 2))
            (div (mean ((fun s => relu (sub one s)) <$> std_2)) (of_Q 2)) in
      let cov_1 := cov dim z_1 (Z.of_nat b - 1) in
      let cov_2 := cov dim z_2 (Z.of_nat b - 1) in
      off_1 ← off_diagonal cov_1;
      off_2 ← off_diagonal cov_2;
      let loss_cov :=
        add (div (sum_of_squares off_1) (of_nat dim))
            (div (sum_of_squares off_2) (of_nat dim)) in
      Ok (add (add (mul loss_pos (lambda_vicReg_pos args))
                   (mul loss_std (lambda_vicReg_std args)))
              (mul loss_cov (lambda_vicReg_cov args))).

Definition known_mode (mode : string) : bool :=
      bool_decide (mode = "SimCLR") || bool_decide (mode = "SimSiam")
      || bool_decide (mode = "vicReg").

(** One pass of the batch loop of [contrastive_train]; with a mode
        that is none of the three, [aux] is read before it is bound. *)
Definition contrastive_step (args : Args) (epoch : nat) (st : loop_state) (i : nat)
        : result loop_state :=
      if known_mode (mode_CL args) then batch_step (log_every_n_steps args) epoch st i
      else unbound.

(** The statements of an epoch of [contrastive_train] after the batches. *)
Definition after_epoch (args : Args) (epoch : nat) (st : loop_state)
        : result loop_state :=
      let warmup :=
        if bool_decide (data args ≠ "imagenet") then int_0_4 (simclr_epochs args)
        else int_0_2 (simclr_epochs args) in
      let st := if decide (warmup ≤ epoch) then emit [SchedulerStep epoch] st else st in
      _ ← (if loss_bound st && top1_bound st then Ok tt else unbound);
      if decide (save_every args = 0) then Error (LibraryError "ZeroDivisionError")
      else if decide ((epoch + 1) `mod` save_every args = 0)
           then Ok (emit [SaveCheckpoint (epoch + 1) "biased_simclr"] st)
           else Ok st.

(** [contrastive_train]; [n_batches] is the length of the loader. *)
Definition contrastive_train (args : Args) (n_batches : nat) : result loop_state :=
      st ← foldM (fun st epoch =>
                    let st := bind_epoch epoch st in
                    st ← foldM (contrastive_step args epoch) st (seq 0 n_batches);
                    after_epoch args epoch st)
                 initial_state (seq 0 (simclr_epochs args));
      epoch_counter ← (match epoch_counter st with
                       | Some e => Ok e
                       | None => unbound
                       end);
      Ok (emit [SaveCheckpoint (epoch_counter + 1) "biased_simclr"] st).
End Solver.
Arguments Args : clear implicits.
End SimCLRSolver.

(** ** training/OversampleSolver.py *)

Module OversampleSolver.
Section Solver.
Context {T : Type} `{Backend T}.

Record Args : Type := {
      score_file_template : T → string;
      lambda_list : list T;
      cutoff : T;
      checkpoint_dir : string;
      data : string;
      oversample_pth : option string;
      simclr_epochs : nat;
      finetune : bool;
      finetune_ratio : string;      (* as the f-string prints it *)
      lambda_upweight : T
    }.

(** [score += new_score]; a tensor with one entry is broadcast. *)
Definition iadd (score new_score : list T) : result (list T) :=
      if decide (length score = length new_score) then Ok (zip_with add score new_score)
      else match new_score with
           | [y] => Ok ((fun x => add x y) <$> score)
           | _ => Error (LibraryError "RuntimeError")
           end.

Definition score_file_name (args : Args) (ld : T) : string :=
      ospj (score_file_template args ld) "score_idx.pth".

Definition wrong_index_final (args : Args) : string :=
      ospj (checkpoint_dir args) "wrong_index_final.pth".

(** [make_pseudo_label]: the files after the call. *)
Definition make_pseudo_label (args : Args) (files : Files T) : result (Files T) :=
      score ← torch_load files (score_file_name args zero);
      score ← foldM (fun score ld =>
                       if eqb ld zero then Ok score
                       else new_score ← torch_load files (score_file_name args ld);
                            iadd score new_score)
                    score (lambda_list args);
      let score := (fun x => div x (of_nat (length (lambda_list args)))) <$> score in
      let pseudo_label := (fun x => of_bool (gtb x (cutoff args))) <$> score in
      let files := torch_save files (wrong_index_final args) pseudo_label in
      if bool_decide (data args ≠ "imagenet") then
        _ ← torch_load files (ospj (checkpoint_dir args) "debias_idx.pth");
        Ok files                          (* [pseudo_label_precision_recall] prints *)
      else Ok files.

(** [train_with_oversampling] up to the call of [linear_evaluation]:
        the sampling weights, the token and the finetune flag of that
        call.  [checkpoint_loads] tells whether [_load_checkpoint]
        returns. *)
Definition train_with_oversampling (args : Args) (checkpoint_loads : nat → string → bool)
        (files : Files T) : result (list T * string * bool) :=
      '(pth, files) ←
        match oversample_pth args with
        | Some pth =>
            if negb (path_exists files pth)
            then Error (Raised "ValueError" (pth +:+ " does not exists"))
            else Ok (pth, files)
        | None =>
            files ← (if path_exists files (wrong_index_final args) then Ok files
                     else make_pseudo_label args files);
            Ok (wrong_index_final args, files)
        end;
      _ ← (if checkpoint_loads (simclr_epochs args) "biased_simclr" && path_exists files pth
           then Ok tt
           else Error (Raised "ValueError"
                         "Either pretrained SimCLR or pseudo bias label does not exist"));
      wrong_label ← torch_load files pth;
      upweight ← upweight_of files (finetune args)
                    (subset_path (checkpoint_dir args) (finetune_ratio args))
                    (lambda_upweight args) wrong_label;
      if negb (finetune args) then Ok (upweight, "debiased_linear", false)
      else Ok (upweight, "debiased_finetune", true).
End Solver.
Arguments Args : clear implicits.
End OversampleSolver.

(** * Properties *)

(** ** The error monad *)

Lemma bind_Ok_inv {A B : Type} (r : result A) (k : A → result B) (b : B) :
  r ≫= k = Ok b → ∃ a, r = Ok a ∧ k a = Ok b.
Proof. destruct r as [a|e]; simpl; [eauto | discriminate]. Qed.

Lemma mapM_Ok_total {A B : Type} (f : A → result B) (g : A → B) (xs : list A) :
  Forall (fun x => f x = Ok (g x)) xs → mapM f xs = Ok (g <$> xs).
Proof.
  induction 1 as [|x xs Hx _ IH]; simpl; [reflexivity|].
  rewrite Hx. simpl. rewrite IH. reflexivity.
Qed.

Lemma mapM_raises_explicitly {A B : Type} (f : A → result B) (xs : list A) :
  (∀ x, ¬ raises_explicitly (f x)) → ¬ raises_explicitly (mapM f xs).
Proof.
  intros Hf. induction xs as [|x xs IH]; simpl.
  - intros (c & m & H). discriminate.
  - destruct (f x) as [y|e] eqn:E; simpl.
    + destruct (mapM f xs) as [ys|e']; simpl.
      * intros (c & m & H). discriminate.
      * exact IH.
    + intros (c & m & Hc). apply (Hf x). exists c, m. rewrite E. congruence.
Qed.

Lemma getitem_Some {A : Type} (l : list A) (i : nat) (x : A) :
  l !! i = Some x → getitem l i = Ok x.
Proof. intros E. unfold getitem. rewrite E. reflexivity. Qed.

Lemma setitem_lt {A : Type} (l : list A) (i : nat) (x : A) :
  i < length l → setitem l i x = Ok (<[i := x]> l).
Proof. intros Hi. unfold setitem. rewrite decide_True by exact Hi. reflexivity. Qed.

Lemma getitem_no_raise {A : Type} (l : list A) (i : nat) :
  ¬ raises_explicitly (getitem l i).
Proof.
  unfold getitem. destruct (l !! i); intros (c & m & H); discriminate.
Qed.

Lemma index_select_total {A : Type} (d : A) (t : list A) (idx : list nat) :
  Forall (fun i => i < length t) idx →
  index_select t idx = Ok ((fun i => nth i t d) <$> idx).
Proof.
  intros H. apply mapM_Ok_total. eapply Forall_impl; [exact H|].
  intros i Hi. simpl in Hi. unfold getitem.
  destruct (lookup_lt_is_Some_2 t i Hi) as [x Hx]. rewrite Hx. simpl.
  f_equal. symmetry. apply nth_lookup_Some with (d := d) in Hx. exact Hx.
Qed.

(** ** The exact backend computes *)

Module ExactExamples.
Import Exact.

Example softmax_uniform :
    softmax [Rat 3; Rat 3] = [Rat (1 # 2); Rat (1 # 2)].
Proof. reflexivity. Qed.

Example mean_of_nothing_is_nan : mean (T := xrat) [] = NaN.
Proof. reflexivity. Qed.

Example argmax_first_of_ties : argmax [Rat 1; Rat 5; Rat 5] = 1.
Proof. reflexivity. Qed.
End ExactExamples.

(** ** models/resnet_simclr.py: the heads returned by [forward] *)

Section ForwardKeys.
Import ResNet.
Context {Input Feat : Type}.
Implicit Types (self : SimCLRResNet Input Feat) (inputs : Input).

Lemma forward_asserts self inputs penultimate simclr simsiam vicReg freeze :
    penultimate || simclr = false →
    forward self inputs penultimate simclr simsiam vicReg freeze = Error AssertFailed.
Proof. intros Hb. unfold forward. rewrite Hb. reflexivity. Qed.

Lemma forward_dom self inputs penultimate simclr simsiam vicReg freeze aux :
    forward self inputs penultimate simclr simsiam vicReg freeze = Ok aux →
    dom aux = requested_keys penultimate simclr simsiam vicReg.
Proof.
    unfold forward, requested_keys.
    destruct (penultimate || simclr) eqn:Hb; simpl; [|discriminate].
    intros [= <-].
    destruct penultimate, simclr, simsiam, vicReg;
      rewrite ?dom_insert_L, ?dom_empty_L; set_solver.
Qed.

(** C9.  With [penultimate=False] and [simclr=False] the assertion of
      [SimCLRResNet.forward] fails whatever the other flags are; with one
      of the two set, the call returns a dictionary whose keys are the
      requested heads and nothing else: 'penultimate', 'simclr', the pair
      'simsiam_prj' and 'simsiam_pred', 'vicReg'. *)
Theorem forward_returns_requested_heads
      self inputs penultimate simclr simsiam vicReg freeze :
    forward self inputs false false simsiam vicReg freeze = Error AssertFailed ∧
    (penultimate || simclr = true →
     ∃ aux, forward self inputs penultimate simclr simsiam vicReg freeze = Ok aux ∧
       ∀ k, k ∈ dom aux ↔
            (k = "penultimate" ∧ penultimate = true) ∨
            (k = "simclr" ∧ simclr = true) ∨
            ((k = "simsiam_prj" ∨ k = "simsiam_pred") ∧ simsiam = true) ∨
            (k = "vicReg" ∧ vicReg = true)).
Proof.
    split; [apply forward_asserts; reflexivity|].
    intros Hb.
    destruct (forward self inputs penultimate simclr simsiam vicReg freeze)
      as [aux|e] eqn:E.
    - exists aux. split; [reflexivity|]. intros k.
      rewrite (forward_dom _ _ _ _ _ _ _ _ E). unfold requested_keys.
      destruct penultimate, simclr, simsiam, vicReg;
        rewrite ?elem_of_union, ?elem_of_singleton, ?elem_of_empty;
        intuition (discriminate || congruence).
    - unfold forward in E. rewrite Hb in E. simpl in E. discriminate.
Qed.
End ForwardKeys.

Definition toy_net : ResNet.SimCLRResNet nat nat :=
  {| ResNet.penultimate_features := fun x => x;
     ResNet.detach := fun x => x;
     ResNet.simclr_layer := fun x => x + 1;
     ResNet.simsiam_prj_layer := fun x => x + 2;
     ResNet.simsiam_pred_layer := fun x => x + 3;
     ResNet.vicReg_layer := fun x => x + 4 |}.

Example forward_simsiam_call :
  ResNet.forward toy_net 10 true false true false false
  = Ok (<["simsiam_pred" := 15]> (<["simsiam_prj" := 12]> (<["penultimate" := 10]> ∅))).
Proof. reflexivity. Qed.

Lemma forward_returns_requested_heads_witness :
  ∃ aux, ResNet.forward toy_net 10 true false true false false = Ok aux ∧
    ∀ k, k ∈ dom aux ↔
         (k = "penultimate" ∧ true = true) ∨
         (k = "simclr" ∧ false = true) ∨
         ((k = "simsiam_prj" ∨ k = "simsiam_pred") ∧ true = true) ∨
         (k = "vicReg" ∧ false = true).
Proof.
  apply (forward_returns_requested_heads toy_net 10 true false true false false).
  reflexivity.
Defined.

(** ** Strings *)

Lemma string_app_assoc (a b c : string) : (a +:+ b) +:+ c = a +:+ (b +:+ c).
Proof.
  induction a as [|x a IH]; [reflexivity|].
  change (String x ((a +:+ b) +:+ c) = String x (a +:+ (b +:+ c))).
  rewrite IH. reflexivity.
Qed.

Lemma string_length_app (a b : string) :
  String.length (a +:+ b) = String.length a + String.length b.
Proof.
  induction a as [|x a IH]; [reflexivity|].
  change (S (String.length (a +:+ b)) = S (String.length a + String.length b)).
  rewrite IH. reflexivity.
Qed.

(** ** data_aug/celebA.py: the train and valid splits *)

Section CelebASplit.
Import CelebA.

(** A row of the attribute table that the constructor can read: the
      target and the bias attribute are present and index a 2 x 2 table. *)
Definition row_ok (target_idx : nat) (row : list Z) : Prop :=
    ∃ vt vb, row !! target_idx = Some vt ∧ row !! 20 = Some vb ∧
             (-2 ≤ vt < 2)%Z ∧ (-2 ≤ vb < 2)%Z.

Lemma attr_column_total rows j :
    Forall (fun row => is_Some (row !! j)) rows →
    ∃ col, attr_column rows j = Ok col ∧
           Forall2 (fun row v => row !! j = Some v) rows col.
Proof.
    induction 1 as [|row rows [v Hv] _ (col & Hc & Hall)].
    - exists []. split; [reflexivity | constructor].
    - exists (v :: col). unfold attr_column in *. cbn [mapM].
      rewrite (getitem_Some _ _ _ Hv). cbn. rewrite Hc. cbn.
      split; [reflexivity | constructor; assumption].
Qed.

Lemma py_index_total len z :
    (- Z.of_nat len ≤ z < Z.of_nat len)%Z → ∃ i, py_index len z = Ok i.
Proof.
    intros Hz. unfold py_index.
    destruct (decide (0 ≤ z < Z.of_nat len)%Z); [eauto|].
    destruct (decide (- Z.of_nat len ≤ z < 0)%Z); [eauto|]. lia.
Qed.

Lemma get_confusion_matrix_total n targets biases :
    Forall (fun v => - Z.of_nat n ≤ v < Z.of_nat n)%Z targets →
    Forall (fun v => - Z.of_nat n ≤ v < Z.of_nat n)%Z biases →
    ∃ cm, get_confusion_matrix n targets biases = Ok cm.
Proof.
    unfold get_confusion_matrix.
    generalize (replicate n (replicate n 0)).
    intros m Ht. revert m biases.
    induction Ht as [|t ts Htv _ IH]; intros m biases Hb.
    - exists m. reflexivity.
    - destruct Hb as [|b bs Hbv Hbs]; [exists m; reflexivity|].
      simpl.
      destruct (py_index_total n b Hbv) as [p ->].
      destruct (py_index_total n t Htv) as [q ->]. simpl.
      apply IH. exact Hbs.
Qed.

Lemma Forall_index_select {A : Type} (P : A → Prop) (t : list A) idx sel :
    Forall P t → index_select t idx = Ok sel → Forall P sel.
Proof.
    intros Ht. revert sel. unfold index_select.
    induction idx as [|i idx IH]; simpl; intros sel.
    - intros [= <-]. constructor.
    - intros Hsel. apply bind_Ok_inv in Hsel as (x & Hx & Hsel).
      apply bind_Ok_inv in Hsel as (xs & Hxs & [= <-]).
      constructor; [|apply IH; exact Hxs].
      unfold getitem in Hx. destruct (t !! i) as [y|] eqn:E; simpl in Hx; [|discriminate].
      injection Hx as <-. eapply Forall_lookup_1; eassumption.
Qed.

(** The part of the constructor after the attribute table and the
      dataset indices are fixed. *)
Lemma finish_total target_idx (attr : list (list Z)) :
    Forall (row_ok target_idx) attr →
    ∃ targets biases cm,
      attr_column attr target_idx = Ok targets ∧
      attr_column attr 20 = Ok biases ∧
      get_confusion_matrix 2 targets biases = Ok cm.
Proof.
    intros Hrows.
    destruct (attr_column_total attr target_idx) as (ts & Hts & Hts2).
    { eapply Forall_impl; [exact Hrows|]. intros row (vt & vb & Ht & _). eauto. }
    destruct (attr_column_total attr 20) as (bs & Hbs & Hbs2).
    { eapply Forall_impl; [exact Hrows|]. intros row (vt & vb & _ & Hb & _). eauto. }
    assert (Forall (fun v => (-2 ≤ v < 2)%Z) ts) as Hts3.
    { clear Hts Hbs Hbs2. induction Hts2 as [|row v rows col Hv _ IH]; [constructor|].
      inversion Hrows as [|? ? (vt & vb & Ht & _ & Hr & _) Hrest]; subst.
      constructor; [congruence | apply IH; exact Hrest]. }
    assert (Forall (fun v => (-2 ≤ v < 2)%Z) bs) as Hbs3.
    { clear Hts Hbs Hts2 Hts3. induction Hbs2 as [|row v rows col Hv _ IH]; [constructor|].
      inversion Hrows as [|? ? (vt & vb & _ & Hb & _ & Hr) Hrest]; subst.
      constructor; [congruence | apply IH; exact Hrest]. }
    destruct (get_confusion_matrix_total 2 ts bs Hts3 Hbs3) as [cm Hcm].
    exists ts, bs, cm. auto.
Qed.

Lemma fmap_nth_seq {A : Type} (d : A) (l : list A) :
    (fun i => nth i l d) <$> seq 0 (length l) = l.
Proof.
    apply list_eq. intros i. rewrite list_lookup_fmap.
    destruct (decide (i < length l)) as [Hi|Hi].
    - rewrite lookup_seq_lt by exact Hi. simpl.
      destruct (lookup_lt_is_Some_2 l i Hi) as [x Hx]. rewrite Hx.
      f_equal. apply nth_lookup_Some with (d := d) in Hx. exact Hx.
    - rewrite lookup_seq_ge by lia. rewrite lookup_ge_None_2 by lia. reflexivity.
Qed.

Lemma length_index_select {A : Type} (t : list A) idx sel :
    index_select t idx = Ok sel → length sel = length idx.
Proof.
    unfold index_select. revert sel. induction idx as [|i idx IH]; simpl; intros sel.
    - intros [= <-]. reflexivity.
    - intros Hsel. apply bind_Ok_inv in Hsel as (x & Hx & Hsel).
      apply bind_Ok_inv in Hsel as (xs & Hxs & [= <-]).
      simpl. f_equal. apply IH. exact Hxs.
Qed.

(** *** Directories and pickles *)

Lemma prefix_app (d s : string) : String.prefix d (d +:+ s) = true.
Proof.
    induction d as [|a d IH]; [destruct s; reflexivity|].
    change (String a d +:+ s) with (String a (d +:+ s)). cbn [String.prefix].
    destruct (Ascii.ascii_dec a a) as [_|Hne]; [exact IH | contradiction].
Qed.

Lemma is_dir_listed w d : d ∈ dirs w → is_dir w d = true.
Proof.
    intros Hd. unfold is_dir. rewrite bool_decide_eq_true_2 by exact Hd. reflexivity.
Qed.

Lemma is_dir_of_pickle w (d name : string) :
    is_Some (pickles w !! ospj d name) → is_dir w d = true.
Proof.
    intros [l Hl]. unfold is_dir.
    assert (existsb (String.prefix (d +:+ "/")) (map_to_list (pickles w)).*1 = true) as ->;
      [|apply orb_true_r].
    apply existsb_exists. exists (ospj d name). split.
    - apply list_elem_of_In, list_elem_of_fmap. exists (ospj d name, l).
      split; [reflexivity|]. apply elem_of_map_to_list. exact Hl.
    - unfold ospj. rewrite <- string_app_assoc. apply (prefix_app (d +:+ "/") name).
Qed.

Lemma load_Some w p l : pickles w !! p = Some l → load w p = Ok l.
Proof. intros Hl. unfold load. rewrite Hl. reflexivity. Qed.

Lemma exists_path_of_pickle w p :
    is_Some (pickles w !! p) → exists_path w p = true.
Proof.
    intros Hp. unfold exists_path. rewrite bool_decide_eq_true_2 by exact Hp. reflexivity.
Qed.

Section Splits.
Variables (w : World) (root target_attr : string).
(** The precomputed dataset indices and the saved permutation. *)
Variables (base rand : list nat).

Let celeba : list (list Z) := celeba_attr w "train".
Let tidx : nat := if bool_decide (target_attr = "blonde") then 9 else 18.
Let sel : nat → nat := fun r => nth r base 0.

Hypothesis dataset : celeba_error w root "train" = None.
Hypothesis precomputed :
      (target_attr = "makeup" ∧ base = seq 0 (length celeba)) ∨
      (target_attr = "blonde" ∧ pickles w !! blonde_path root = Some base ∧
       Forall (fun i => i < length celeba) base).
Hypothesis saved : pickles w !! rand_path target_attr = Some rand.
Hypothesis permutation : rand ≡ₚ seq 0 (length base).
Hypothesis table : Forall (row_ok tidx) celeba.

Lemma rand_in_range : Forall (fun r => r < length base) rand.
Proof.
      apply Forall_forall. intros r Hr. rewrite permutation in Hr.
      apply elem_of_seq in Hr. lia.
Qed.

Lemma init_split split chosen :
      train_or_valid split = true →
      chosen = (if bool_decide (split = "train")
                then take (int_0_8 (length rand)) rand
                else drop (int_0_8 (length rand)) rand) →
      ∃ obj, init w root split target_attr = Ok (obj, w) ∧
             indices obj = sel <$> chosen.
Proof.
      intros Hsplit Hchosen.
      assert (Forall (fun r => r < length base) chosen) as Hrange.
      { apply Forall_forall. intros r Hr.
        assert (r ∈ rand) as Hin.
        { subst chosen. destruct (bool_decide (split = "train")).
          - exact (subseteq_take _ _ _ Hr).
          - exact (subseteq_drop _ _ _ Hr). }
        pose proof rand_in_range as HF. rewrite Forall_forall in HF. auto. }
      assert (CelebA w root (if bool_decide (split = "valid") then "train" else split)
              = Ok celeba) as Hc.
      { unfold train_or_valid in Hsplit. subst celeba. unfold CelebA.
        destruct (bool_decide (split = "valid")) eqn:Ev; [rewrite dataset; reflexivity|].
        rewrite orb_false_r in Hsplit. apply bool_decide_eq_true in Hsplit.
        rewrite Hsplit, dataset. reflexivity. }
      assert (∃ attr0, (if bool_decide (target_attr = "blonde")
                 then if train_or_valid split
                      then '(indices, w0) ←
                             (if is_dir w (blonde_dir root) then
                                saved0 ← load w (blonde_path root);
                                Ok (saved0, w)
                              else
                                built ← build_blonde w celeba 20 9;
                                w0 ← mkdir w (blonde_dir root);
                                w0 ← dump w0 (blonde_dir root) (blonde_path root) built;
                                Ok (built, w0));
                           attr ← index_select celeba indices;
                           Ok (9, indices, attr, w0)
                      else Ok (9, seq 0 (length celeba), celeba, w)
                 else if bool_decide (target_attr = "makeup")
                      then Ok (18, seq 0 (length celeba), celeba, w)
                      else Error (Raised "AttributeError" ""))
                = Ok (tidx, base, attr0, w) ∧
                length attr0 = length base ∧ Forall (row_ok tidx) attr0)
        as (attr0 & Hfirst & Hlen & Hrows).
      { destruct precomputed as [[-> ->] | (-> & Hb & Hbr)].
        - exists celeba. subst tidx. simpl. rewrite length_seq. auto.
        - subst tidx. simpl. rewrite Hsplit.
          rewrite (is_dir_of_pickle w (blonde_dir root) "indices.pkl") by (unfold blonde_dir; fold (blonde_path root); eauto).
          rewrite (load_Some _ _ _ Hb). cbn.
          rewrite (index_select_total [] celeba base Hbr). cbn.
          eexists. split; [reflexivity|]. split.
          + rewrite length_fmap. reflexivity.
          + eapply Forall_index_select; [exact table|].
            apply (index_select_total [] celeba base Hbr). }
      unfold init. rewrite Hc. cbn [mbind result_bind]. rewrite Hfirst. cbn.
      rewrite Hsplit, (exists_path_of_pickle w _ ltac:(eauto)), (load_Some _ _ _ saved). cbn.
      rewrite <- Hchosen.
      rewrite (index_select_total 0 base chosen Hrange). cbn.
      assert (Forall (fun r => r < length attr0) chosen) as Hrange'.
      { rewrite Hlen. exact Hrange. }
      rewrite (index_select_total [] attr0 chosen Hrange'). cbn.
      destruct (finish_total tidx ((fun i => nth i attr0 []) <$> chosen))
        as (ts & bs & cm & -> & -> & Hcm).
      { eapply Forall_index_select; [exact Hrows|].
        apply (index_select_total [] attr0 chosen Hrange'). }
      cbn. rewrite Hcm. cbn. eexists. split; reflexivity.
Qed.
End Splits.

End CelebASplit.

(** A table of five images with forty attributes each, and a saved
    permutation for the 'makeup' target. *)
Definition five_images : CelebA.World :=
  {| CelebA.celeba_attr := fun _ =>
       [replicate 40 0%Z; replicate 40 1%Z; replicate 40 0%Z;
        replicate 40 1%Z; replicate 40 0%Z];
     CelebA.celeba_error := fun _ _ => None;
     CelebA.dirs := {[ "clusters" ]};
     CelebA.mkdir_error := fun _ => None;
     CelebA.pickles := {[ CelebA.rand_path "makeup" := [3; 0; 4; 1; 2] ]};
     CelebA.shuffle := fun l => l;
     CelebA.randperm := fun n => seq 0 n |}.

Example five_images_train :
  CelebA.indices <$> (fst <$> CelebA.init five_images "data" "train" "makeup")
  = Ok [3; 0; 4; 1].
Proof. vm_compute. reflexivity. Qed.

Example five_images_valid :
  CelebA.indices <$> (fst <$> CelebA.init five_images "data" "valid" "makeup")
  = Ok [2].
Proof. vm_compute. reflexivity. Qed.


(** Three images of the group (bias 0, target 0) and two others; nothing
    is saved yet.  The shuffle writes its first entry over the third, as
    [np.random.shuffle] can on a torch tensor, whose entries it swaps
    through views; the permutation puts the positions 0 and 2 into
    different splits. *)
Definition shuffled_twice : CelebA.World :=
  {| CelebA.celeba_attr := fun _ =>
       [replicate 40 0%Z; replicate 40 1%Z; replicate 40 0%Z;
        replicate 40 1%Z; replicate 40 0%Z];
     CelebA.celeba_error := fun _ _ => None;
     CelebA.dirs := {[ "clusters" ]};
     CelebA.mkdir_error := fun _ => None;
     CelebA.pickles := ∅;
     CelebA.shuffle := fun l => match l with
                                | [a; b; _] => [a; b; a]
                                | _ => l
                                end;
     CelebA.randperm := fun _ => [0; 1; 3; 4; 2] |}.


(** ** training/ERMSolver.py: the generalized cross-entropy loss *)

Lemma mapM_zip_total {A B C : Type} (f : A * B → result C) (g : A → B → C)
    (l : list A) (k : list B) :
  Forall2 (fun a b => f (a, b) = Ok (g a b)) l k →
  mapM f (zip l k) = Ok (zip_with g l k).
Proof.
  induction 1 as [|a b l k Hab _ IH]; [reflexivity|].
  cbn. rewrite Hab. cbn. fold (zip l k). rewrite IH. reflexivity.
Qed.

Section GeneralizedCE.
Import ERMSolver.
Context {T : Type} `{Backend T}.

(** The probability that the softmax gives to the target of each row. *)
Definition target_probability (logits : list (list T)) (targets : list nat) : list T :=
    zip_with (fun row t => nth t (softmax row) zero) logits targets.

Lemma gather_total logits targets :
    Forall2 (fun (row : list T) t => t < length row) logits targets →
    gather (softmax <$> logits) targets = Ok (target_probability logits targets).
Proof.
    intros Hwf. unfold gather, target_probability.
    rewrite length_fmap, (Forall2_length _ _ _ Hwf).
    destruct (decide (length targets ≤ length targets)) as [_|]; [|lia].
    transitivity (Ok (zip_with (fun row t => nth t row zero) (softmax <$> logits) targets));
      [|f_equal; apply zip_with_fmap_l].
    apply (mapM_zip_total _ (fun row t => nth t row zero)).
    apply Forall2_fmap_l. eapply Forall2_impl; [exact Hwf|].
    intros row t Ht. cbn.
    destruct (lookup_lt_is_Some_2 (softmax row) t) as [y Hy].
    { rewrite softmax_length. exact Ht. }
    rewrite Hy. cbn. f_equal. symmetry. apply nth_lookup_Some with (d := zero) in Hy.
    exact Hy.
Qed.

Lemma cross_entropy_none_total logits targets :
    Forall2 (fun (row : list T) t => t < length row) logits targets →
    cross_entropy_none logits targets = Ok (zip_with cross_entropy logits targets).
Proof.
    intros Hwf. unfold cross_entropy_none.
    destruct (decide (length logits = length targets)) as [_|Hne].
    - apply mapM_zip_total. eapply Forall2_impl; [exact Hwf|].
      intros row t Ht. cbn [fst snd]. rewrite decide_True by exact Ht. reflexivity.
    - destruct Hne. eapply Forall2_length, Hwf.
Qed.

End GeneralizedCE.

Module GCEExamples.
Import Exact ERMSolver.

(** An empty batch has no mean. *)
Example empty_batch_raises :
    GeneralizedCELoss_forward (Rat (7 # 10)) [] [] = Error (Raised "NameError" "GCE_p").
Proof. reflexivity. Qed.

Example nan_logit_raises :
    GeneralizedCELoss_forward (Rat (7 # 10)) [[Rat 0; NaN]] [0]
    = Error (Raised "NameError" "GCE_p").
Proof. reflexivity. Qed.

(** Two classes with equal logits: probability 1/2 each, weight
      [(1/2) ** 1 * 1]. *)
Example uniform_batch :
    GeneralizedCELoss_forward (Rat 1) [[Rat 0; Rat 0]; [Rat 4; Rat 4]] [0; 1]
    = Ok [mul (cross_entropy [Rat 0; Rat 0] 0) (Rat (1 # 2));
          mul (cross_entropy [Rat 4; Rat 4] 1) (Rat (1 # 2))].
Proof. reflexivity. Qed.


End GCEExamples.


(** ** training/ERMSolver.py: the bias scores *)

(** Writes [t[v] = x] applied in order. *)
Definition apply_writes {A : Type} (ws : list (nat * A)) (l : list A) : list A :=
  fold_left (fun l w => <[w.1 := w.2]> l) ws l.

Lemma length_apply_writes {A : Type} (ws : list (nat * A)) (l : list A) :
  length (apply_writes ws l) = length l.
Proof.
  revert l. induction ws as [|w ws IH]; intros l; [reflexivity|].
  change (length (apply_writes ws (<[w.1 := w.2]> l)) = length l).
  rewrite IH. apply length_insert.
Qed.

Lemma apply_writes_app {A : Type} (ws1 ws2 : list (nat * A)) (l : list A) :
  apply_writes (ws1 ++ ws2) l = apply_writes ws2 (apply_writes ws1 l).
Proof. apply fold_left_app. Qed.

Lemma apply_writes_untouched {A : Type} (ws : list (nat * A)) (l : list A) (v : nat) :
  Forall (fun w => w.1 ≠ v) ws → apply_writes ws l !! v = l !! v.
Proof.
  revert l. induction ws as [|w ws IH]; intros l Hws; [reflexivity|].
  inversion Hws as [|? ? Hw Hrest]; subst.
  change (apply_writes ws (<[w.1 := w.2]> l) !! v = l !! v).
  rewrite IH by exact Hrest.
  apply list_lookup_insert_ne. exact Hw.
Qed.

(** The last write to a position is what the tensor holds. *)
Lemma apply_writes_last {A : Type} (ws1 ws2 : list (nat * A)) (l : list A) v x :
  v < length l → Forall (fun w => w.1 ≠ v) ws2 →
  apply_writes (ws1 ++ (v, x) :: ws2) l !! v = Some x.
Proof.
  intros Hv Hws. rewrite apply_writes_app. cbn.
  change (apply_writes ws2 (<[v := x]> (apply_writes ws1 l)) !! v = Some x).
  rewrite apply_writes_untouched by exact Hws.
  apply list_lookup_insert_eq. rewrite length_apply_writes. exact Hv.
Qed.

Lemma fmap_zip_seq {A B : Type} (g : nat → B) (k : nat) (vs : list A) :
  (fun iv : nat * A => (iv.2, g iv.1)) <$> zip (seq k (length vs)) vs
  = zip vs (g <$> seq k (length vs)).
Proof.
  revert k. induction vs as [|v vs IH]; intros k; [reflexivity|].
  cbn. f_equal. apply IH.
Qed.

Lemma writes_from_loop {A B C D : Type} (key : B → nat) (val : A → B → C) (h : C → D)
    (d : C) (L : list A) (b : list B) (vals : list C) :
  length L = length b → vals = zip_with val L b →
  (fun iv : nat * nat => (iv.2, h (nth iv.1 vals d))) <$> zip (seq 0 (length b)) (key <$> b)
  = zip_with (fun a x => (key x, h (val a x))) L b.
Proof.
  intros Hlen ->.
  rewrite <- (length_fmap key b).
  rewrite (fmap_zip_seq (fun i => h (nth i (zip_with val L b) d)) 0 (key <$> b)).
  rewrite length_fmap.
  assert (length b = length (zip_with val L b)) as ->.
  { rewrite length_zip_with_l_eq; congruence. }
  rewrite (list_fmap_compose (fun i => nth i (zip_with val L b) d) h), fmap_nth_seq.
  clear. revert b. induction L as [|a L IH]; intros [|x b]; cbn; try reflexivity.
  f_equal. apply IH.
Qed.

Section BiasScores.
Import ERMSolver.
Context {T : Type} `{Backend T}.
Context {Image Feat : Type}.
Implicit Types (nets : Nets T Image Feat) (batch : list (sample Image)).
Implicit Types (st : scores T) (s : sample Image) (row : list T).

(** What the classifier answers on a batch in evaluation mode. *)
Definition logits_of nets batch : list (list T) :=
    classifier nets
      (ResNet.detach (encoder nets)
         (ResNet.penultimate_features (encoder nets) (image <$> batch))).

Definition bias_score_of row s : T := sub one (nth (label s) (softmax row) zero).
Definition wrong_of row s : T := of_bool (negb (bool_decide (argmax row = label s))).
Definition debiased_of s : T := of_bool (negb (bool_decide (label s = bias_label s))).

(** A batch the loop can process: one row of logits per sample, labels
      that are classes, indices inside the dataset. *)
Definition batch_ok (num_data : nat) nets batch : Prop :=
    Forall2 (fun row s => label s < length row) (logits_of nets batch) batch ∧
    Forall (fun s => idx s < num_data) batch.

Definition writes_of (val : list T → sample Image → T) nets batch : list (nat * T) :=
    zip_with (fun row s => (idx s, val row s)) (logits_of nets batch) batch.

Lemma batch_logits_eq nets batch : batch_logits nets batch = Ok (logits_of nets batch).
Proof. reflexivity. Qed.

Lemma select_labels_total (logits : list (list T)) (labels : list nat) :
    Forall2 (fun row l => l < length row) logits labels →
    select_labels (softmax <$> logits) labels
    = Ok (zip_with (fun row l => nth l (softmax row) zero) logits labels).
Proof.
    intros Hwf. unfold select_labels.
    rewrite length_fmap, (Forall2_length _ _ _ Hwf), decide_True by reflexivity.
    transitivity (Ok (zip_with (fun row l => nth l row zero) (softmax <$> logits) labels));
      [|f_equal; apply zip_with_fmap_l].
    apply (mapM_zip_total _ (fun row l => nth l row zero)).
    apply Forall2_fmap_l. eapply Forall2_impl; [exact Hwf|].
    intros row l Hl. unfold compose. cbn [fst snd].
    destruct (lookup_lt_is_Some_2 (softmax row) l) as [y Hy].
    { rewrite softmax_length. exact Hl. }
    rewrite (getitem_Some _ _ _ Hy). f_equal. symmetry.
    apply nth_lookup_Some with (d := zero) in Hy. exact Hy.
Qed.

Lemma record_one_total (bias_score : list T) (debiased wrong : list bool) st i v :
    i < length bias_score → i < length debiased → i < length wrong →
    v < length (score_idx st) → v < length (wrong_idx st) →
    v < length (debias_idx st) →
    record_one bias_score debiased wrong st (i, v)
    = Ok {| score_idx := <[v := nth i bias_score zero]> (score_idx st);
            wrong_idx := <[v := of_bool (nth i wrong false)]> (wrong_idx st);
            debias_idx := <[v := of_bool (nth i debiased false)]> (debias_idx st) |}.
Proof.
    intros Hi Hd Hw H1 H2 H3. unfold record_one.
    destruct (lookup_lt_is_Some_2 bias_score i Hi) as [x Hx].
    destruct (lookup_lt_is_Some_2 debiased i Hd) as [d Hdi].
    destruct (lookup_lt_is_Some_2 wrong i Hw) as [b Hb].
    rewrite (getitem_Some _ _ _ Hx). cbn. rewrite setitem_lt by assumption. cbn.
    rewrite (getitem_Some _ _ _ Hdi). cbn. rewrite setitem_lt by assumption. cbn.
    rewrite (getitem_Some _ _ _ Hb). cbn. rewrite setitem_lt by assumption. cbn.
    apply nth_lookup_Some with (d := zero) in Hx.
    apply nth_lookup_Some with (d := false) in Hdi.
    apply nth_lookup_Some with (d := false) in Hb.
    rewrite Hx, Hdi, Hb. reflexivity.
Qed.

(** The inner loop is a sequence of writes. *)
Lemma record_fold (bias_score : list T) (debiased wrong : list bool)
      (len : nat) (ivs : list (nat * nat)) st :
    length (debiased) = length bias_score → length wrong = length bias_score →
    Forall (fun iv => iv.1 < length bias_score ∧ iv.2 < len) ivs →
    length (score_idx st) = len → length (wrong_idx st) = len →
    length (debias_idx st) = len →
    foldM (record_one bias_score debiased wrong) st ivs
    = Ok {| score_idx :=
              apply_writes ((fun iv => (iv.2, nth iv.1 bias_score zero)) <$> ivs)
                           (score_idx st);
            wrong_idx :=
              apply_writes ((fun iv => (iv.2, of_bool (nth iv.1 wrong false))) <$> ivs)
                           (wrong_idx st);
            debias_idx :=
              apply_writes ((fun iv => (iv.2, of_bool (nth iv.1 debiased false))) <$> ivs)
                           (debias_idx st) |}.
Proof.
    intros Hd Hw Hivs. revert st.
    induction Hivs as [|[i v] ivs [Hi Hv] _ IH]; intros st Hs1 Hs2 Hs3.
    - destruct st. reflexivity.
    - cbn [fst snd] in Hi, Hv. cbn [foldM].
      rewrite record_one_total by lia. cbn.
      rewrite IH by (cbn; rewrite length_insert; assumption).
      reflexivity.
Qed.

Lemma score_batch_total num_data nets st total batch :
    batch_ok num_data nets batch →
    length (score_idx st) = num_data → length (wrong_idx st) = num_data →
    length (debias_idx st) = num_data →
    score_batch nets (st, total) batch
    = Ok ({| score_idx := apply_writes (writes_of bias_score_of nets batch) (score_idx st);
             wrong_idx := apply_writes (writes_of wrong_of nets batch) (wrong_idx st);
             debias_idx :=
               apply_writes (writes_of (fun _ s => debiased_of s) nets batch)
                            (debias_idx st) |},
          total + length batch).
Proof.
    intros [Hwf Hidx] Hs1 Hs2 Hs3. unfold score_batch.
    rewrite batch_logits_eq. cbn [mbind result_bind].
    set (L := logits_of nets batch) in *.
    pose proof (Forall2_length _ _ _ Hwf) as Hlen.
    rewrite select_labels_total by (apply Forall2_fmap_r; exact Hwf).
    cbn [mbind result_bind].
    unfold ne_labels. rewrite !length_fmap, !decide_True by congruence.
    cbn [mbind result_bind].
    rewrite (record_fold _ _ _ num_data); try assumption.
    - cbn [mbind result_bind]. do 3 f_equal; unfold writes_of; fold L; clearbody L; f_equal.
      + apply (writes_from_loop idx bias_score_of (fun x => x) zero L batch); [exact Hlen|].
        clear -Hlen. revert batch Hlen.
        induction L as [|row L IH]; intros [|s b] Hlen; cbn; try reflexivity.
        f_equal. apply IH. cbn in Hlen. lia.
      + apply (writes_from_loop idx
                 (fun row s => negb (bool_decide (argmax row = label s)))
                 of_bool false L batch); [exact Hlen|].
        clear -Hlen. revert batch Hlen.
        induction L as [|row L IH]; intros [|s b] Hlen; cbn; try reflexivity.
        f_equal. apply IH. cbn in Hlen. lia.
      + apply (writes_from_loop idx
                 (fun (_ : list T) s => negb (bool_decide (label s = bias_label s)))
                 of_bool false L batch); [exact Hlen|].
        clear -Hlen. revert batch Hlen.
        induction L as [|row L IH]; intros [|s b] Hlen; cbn in *; try reflexivity;
          try discriminate.
        f_equal. apply IH. lia.
    - repeat (rewrite length_fmap
              || rewrite length_zip_with_l_eq by (rewrite ?length_fmap; congruence));
        congruence.
    - repeat (rewrite length_fmap
              || rewrite length_zip_with_l_eq by (rewrite ?length_fmap; congruence));
        congruence.
    - repeat (rewrite length_fmap
              || rewrite length_zip_with_l_eq by (rewrite ?length_fmap; congruence)).
      apply Forall_forall. intros [i v] Hin. cbn [fst snd].
      apply elem_of_zip_l in Hin as Hi. apply elem_of_zip_r in Hin as Hv.
      apply elem_of_seq in Hi. apply list_elem_of_fmap in Hv as (s & -> & Hs).
      rewrite Forall_forall in Hidx. split; [lia | auto].
Qed.

Definition all_writes (val : list T → sample Image → T) nets
      (loader : list (list (sample Image))) : list (nat * T) :=
    concat (writes_of val nets <$> loader).

Lemma loader_fold num_data nets loader st total :
    Forall (batch_ok num_data nets) loader →
    length (score_idx st) = num_data → length (wrong_idx st) = num_data →
    length (debias_idx st) = num_data →
    foldM (score_batch nets) (st, total) loader
    = Ok ({| score_idx := apply_writes (all_writes bias_score_of nets loader) (score_idx st);
             wrong_idx := apply_writes (all_writes wrong_of nets loader) (wrong_idx st);
             debias_idx :=
               apply_writes (all_writes (fun _ s => debiased_of s) nets loader)
                            (debias_idx st) |},
          total + length (concat loader)).
Proof.
    intros Hok. revert st total.
    induction Hok as [|batch loader Hb _ IH]; intros st total Hs1 Hs2 Hs3.
    - cbn. destruct st. rewrite Nat.add_0_r. reflexivity.
    - cbn [foldM].
      rewrite (score_batch_total num_data) by assumption. cbn [mbind result_bind].
      rewrite IH by (cbn; rewrite length_apply_writes; assumption).
      cbn [score_idx wrong_idx debias_idx]. unfold all_writes.
      rewrite !fmap_cons. cbn [concat]. rewrite !apply_writes_app, length_app.
      rewrite Nat.add_assoc. reflexivity.
Qed.

Lemma writes_of_split (val : list T → sample Image → T) nets bpre s bpost :
    length (logits_of nets (bpre ++ s :: bpost)) = length (bpre ++ s :: bpost) →
    ∃ row w1 w2,
      logits_of nets (bpre ++ s :: bpost) !! length bpre = Some row ∧
      writes_of val nets (bpre ++ s :: bpost) = w1 ++ (idx s, val row s) :: w2 ∧
      Forall (fun w => w.1 ∈ idx <$> bpost) w2.
Proof.
    intros Hlen. unfold writes_of.
    set (L := logits_of nets (bpre ++ s :: bpost)) in *. clearbody L.
    rewrite <- (take_drop (length bpre) L) in *.
    rewrite length_app in Hlen. rewrite length_app in Hlen.
    assert (length (take (length bpre) L) = length bpre) as Ht.
    { rewrite length_take. rewrite length_take, length_drop in Hlen. cbn in Hlen. lia. }
    destruct (drop (length bpre) L) as [|row Lpost] eqn:Ed.
    { cbn in Hlen. lia. }
    exists row, (zip_with (fun row s => (idx s, val row s)) (take (length bpre) L) bpre),
      (zip_with (fun row s => (idx s, val row s)) Lpost bpost).
    split; [|split].
    - rewrite lookup_app_r by lia. rewrite Ht, Nat.sub_diag. reflexivity.
    - rewrite zip_with_app by exact Ht. reflexivity.
    - clear. revert bpost. induction Lpost as [|r Lpost IH]; intros [|x bpost]; cbn;
        try constructor.
      + cbn. apply list_elem_of_here.
      + eapply Forall_impl; [apply IH|]. intros w Hw. cbn in Hw.
        apply list_elem_of_further. exact Hw.
Qed.

Lemma all_writes_keys (val : list T → sample Image → T) nets loader :
    Forall (fun w => w.1 ∈ idx <$> concat loader) (all_writes val nets loader).
Proof.
    unfold all_writes. induction loader as [|batch loader IH]; [constructor|].
    rewrite fmap_cons. cbn [concat]. rewrite fmap_app. apply Forall_app. split.
    - unfold writes_of. generalize (logits_of nets batch). intros L.
      apply Forall_forall. intros w Hw.
      apply elem_of_lookup_zip_with in Hw as (i & row & s & -> & _ & Hs).
      cbn. apply elem_of_app. left. apply list_elem_of_fmap. exists s.
      split; [reflexivity|]. eapply list_elem_of_lookup_2, Hs.
    - eapply Forall_impl; [exact IH|]. intros w Hw. cbn in Hw.
      apply elem_of_app. right. exact Hw.
Qed.

End BiasScores.

Module BiasScoreExamples.
Import Exact ERMSolver.

Definition args : Args xrat :=
    {| finetune := false; data := "celebA"; bias_ratio := ""; checkpoint_dir := "ckpt";
       ERM_epochs := 1; log_every_n_steps := 1; oversample_pth := None;
       lambda_upweight := Rat 1; finetune_ratio := "0.1" |}.

(** A network whose logits are [(pixel, 0)] for a one-pixel image. *)
Definition nets : Nets xrat Z (list (list xrat)) :=
    {| encoder :=
         {| ResNet.penultimate_features := fun imgs => (fun z => [Rat (inject_Z z); Rat 0]) <$> imgs;
            ResNet.detach := fun x => x;
            ResNet.simclr_layer := fun x => x;
            ResNet.simsiam_prj_layer := fun x => x;
            ResNet.simsiam_pred_layer := fun x => x;
            ResNet.vicReg_layer := fun x => x |};
       classifier := fun x => x |}.

Definition item_of (pixel : Z) (label bias_label idx : nat) : sample Z :=
    {| image := pixel; label := label; bias_label := bias_label; idx := idx |}.
Definition item : nat → nat → nat → sample Z := item_of 0.

(** Three items in two batches; every logit row is [(0, 0)], so each
      class has probability 1/2 and the prediction is class 0. *)
Definition loader : list (list (sample Z)) :=
    [[item 0 0 2; item 1 0 0]; [item 1 1 1]].

Example scores_of_loader :
    fst <$> save_score_idx args nets 3 ∅ loader (Some 0)
    = Ok {| score_idx := [Rat (1 # 2); Rat (1 # 2); Rat (1 # 2)];
            wrong_idx := [Rat 1; Rat 1; Rat 0];
            debias_idx := [Rat 1; Rat 0; Rat 0] |}.
Proof. vm_compute. reflexivity. Qed.

(** A loader that yields index 0 twice, with two augmentations of the
      image: the first is classified as 1 (wrong), the second as 0.  The
      tensor keeps the flag of the later one. *)
Example later_sample_wins :
    wrong_idx <$> (fst <$> save_score_idx args nets 2 ∅
                             [[item_of (-1) 0 0 0; item_of 1 0 0 0]] (Some 0))
    = Ok [Rat 0; Rat 0].
Proof. vm_compute. reflexivity. Qed.

(** Without finetune the number of processed samples is asserted to be
      the size of the dataset. *)
Example size_assertion :
    save_score_idx args nets 3 ∅ [[item 0 0 0; item 0 0 1]] (Some 0) = Error AssertFailed.
Proof. vm_compute. reflexivity. Qed.

End BiasScoreExamples.


(** ** The training loops: checkpoints and validation *)

(** The events of [n] batches that start at iteration [n0]. *)
Definition batch_events (k epoch n0 n : nat) : list event :=
  flat_map (fun j => TrainStep epoch j ::
                     (if bool_decide (j `mod` k = 0) then [Logged j] else []))
           (seq n0 n).

(** The checkpoints that a trace writes, in order. *)
Definition checkpoints (tr : list event) : list (nat * string) :=
  omap (fun e => match e with
                 | SaveCheckpoint step token => Some (step, token)
                 | _ => None
                 end) tr.

Lemma checkpoints_app tr1 tr2 :
  checkpoints (tr1 ++ tr2) = checkpoints tr1 ++ checkpoints tr2.
Proof. apply omap_app. Qed.

Lemma checkpoints_batch_events k epoch n0 n : checkpoints (batch_events k epoch n0 n) = [].
Proof.
  unfold batch_events. revert n0. induction n as [|n IH]; intros n0; [reflexivity|].
  cbn [seq flat_map]. rewrite checkpoints_app, IH.
  destruct (bool_decide (n0 `mod` k = 0)); reflexivity.
Qed.

Lemma foldM_ext {A S : Type} (f g : S → A → result S) (s : S) (xs : list A) :
  (∀ s x, f s x = g s x) → foldM f s xs = foldM g s xs.
Proof.
  intros Hfg. revert s. induction xs as [|x xs IH]; intros s; [reflexivity|].
  cbn [foldM]. rewrite Hfg. destruct (g s x) as [s'|e]; [apply IH | reflexivity].
Qed.

Lemma batch_step_eq k epoch st i :
  k ≠ 0 →
  batch_step k epoch st i
  = Ok {| n_iter := S (n_iter st); loss_bound := true;
          top1_bound := top1_bound st || bool_decide (n_iter st `mod` k = 0);
          epoch_counter := epoch_counter st;
          trace := (trace st ++ [TrainStep epoch (n_iter st)])
                   ++ (if bool_decide (n_iter st `mod` k = 0)
                       then [Logged (n_iter st)] else []) |}.
Proof. intros Hk. unfold batch_step. rewrite decide_False by exact Hk. reflexivity. Qed.

Lemma batches_run k epoch n a st :
  k ≠ 0 →
  foldM (batch_step k epoch) st (seq a n)
  = Ok {| n_iter := n_iter st + n;
          loss_bound := loss_bound st || bool_decide (0 < n);
          top1_bound := top1_bound st
                        || existsb (fun j => bool_decide (j `mod` k = 0)) (seq (n_iter st) n);
          epoch_counter := epoch_counter st;
          trace := trace st ++ batch_events k epoch (n_iter st) n |}.
Proof.
  intros Hk. revert a st. induction n as [|n IH]; intros a st.
  - cbn. destruct st as [ni lb tb ec tr]. cbn.
    rewrite Nat.add_0_r, !orb_false_r, app_nil_r. reflexivity.
  - cbn [seq foldM]. rewrite batch_step_eq by exact Hk. cbn [mbind result_bind].
    rewrite IH. cbn [n_iter loss_bound top1_bound epoch_counter trace emit].
    f_equal. f_equal.
    + lia.
    + rewrite (bool_decide_eq_true_2 (0 < S n)) by lia. rewrite orb_true_r. reflexivity.
    + cbn [existsb]. rewrite orb_assoc. reflexivity.
    + unfold batch_events. cbn [seq flat_map]. rewrite <- !app_assoc. reflexivity.
Qed.

Section EpochLoop.
(** An epoch: [n] batches, then the statements [after] that need [loss]
      and [top1] and emit [tail]. *)
Variables (k n : nat).
Variable step : nat → loop_state → nat → result loop_state.
Variable after : nat → loop_state → result loop_state.
Variable tail : nat → nat → list event.

Hypothesis step_is_batch : ∀ epoch st i, step epoch st i = batch_step k epoch st i.
Hypothesis after_emits : ∀ epoch st,
    loss_bound st = true → top1_bound st = true →
    after epoch st = Ok (emit (tail epoch (n_iter st)) st).
Hypothesis log_every_positive : k ≠ 0.
Hypothesis loader_not_empty : 0 < n.

Definition epoch_events (epoch : nat) : list event :=
    batch_events k epoch (epoch * n) n ++ tail epoch ((epoch + 1) * n).

Definition epoch_body (st : loop_state) (epoch : nat) : result loop_state :=
    let st := bind_epoch epoch st in
    st ← foldM (step epoch) st (seq 0 n);
    after epoch st.

Lemma epoch_run epoch st :
    n_iter st = epoch * n → top1_bound st = true ∨ epoch = 0 →
    epoch_body st epoch
    = Ok {| n_iter := (epoch + 1) * n; loss_bound := true; top1_bound := true;
            epoch_counter := Some epoch;
            trace := trace st ++ epoch_events epoch |}.
Proof.
    intros Hn Htop. unfold epoch_body.
    rewrite (foldM_ext _ (batch_step k epoch)) by (intros; apply step_is_batch).
    rewrite batches_run by exact log_every_positive.
    cbn [mbind result_bind bind_epoch n_iter loss_bound top1_bound epoch_counter trace].
    assert (top1_bound st
            || existsb (fun j => bool_decide (j `mod` k = 0)) (seq (n_iter st) n) = true)
      as Htop'.
    { destruct Htop as [-> | ->]; [reflexivity|].
      rewrite Hn. destruct n as [|n']; [lia|]. cbn [Nat.mul seq existsb].
      rewrite bool_decide_eq_true_2 by (apply Nat.Div0.mod_0_l).
      apply orb_true_r. }
    rewrite after_emits; cbn [loss_bound top1_bound];
      [| rewrite bool_decide_eq_true_2 by exact loader_not_empty; apply orb_true_r
       | exact Htop'].
    cbn [emit n_iter loss_bound top1_bound epoch_counter trace].
    rewrite Htop', bool_decide_eq_true_2, orb_true_r by exact loader_not_empty.
    unfold emit, epoch_events.
    cbn [n_iter loss_bound top1_bound epoch_counter trace].
    rewrite Hn, <- app_assoc.
    replace (epoch * n + n) with ((epoch + 1) * n) by lia. reflexivity.
Qed.

Lemma epochs_run m a st :
    n_iter st = a * n → top1_bound st = true ∨ a = 0 → 0 < m →
    foldM epoch_body st (seq a m)
    = Ok {| n_iter := (a + m) * n; loss_bound := true; top1_bound := true;
            epoch_counter := Some (a + m - 1);
            trace := trace st ++ concat (epoch_events <$> seq a m) |}.
Proof.
    revert a st. induction m as [|m IH]; intros a st Hn Htop Hm; [lia|].
    cbn [seq foldM]. rewrite epoch_run by assumption. cbn [mbind result_bind].
    destruct m as [|m'].
    - cbn. rewrite app_nil_r. do 2 f_equal; f_equal; lia.
    - rewrite IH; cbn [n_iter top1_bound trace]; [|lia | left; reflexivity | lia].
      rewrite fmap_cons. cbn [concat]. rewrite <- app_assoc.
      do 2 f_equal; f_equal; lia.
Qed.
End EpochLoop.

Lemma emit_app e1 e2 st : emit e2 (emit e1 st) = emit (e1 ++ e2) st.
Proof. unfold emit. cbn. rewrite app_assoc. reflexivity. Qed.

Lemma emit_nil st : emit [] st = st.
Proof. destruct st. unfold emit. cbn. rewrite app_nil_r. reflexivity. Qed.

(** What an epoch of [ERMSolver.train] does after its batches: it
    validates, and saves the bias scores unless a pseudo label is given. *)
Definition erm_tail {T : Type} (args : ERMSolver.Args T) (epoch n_iter : nat) : list event :=
  (if bool_decide (ERMSolver.data args ≠ "imagenet")
   then [Validation epoch (n_iter + 1)]
   else [ValidateImagenet epoch "biased"; ValidateImagenet epoch "unbiased";
         ValidateImagenet epoch "ImageNetA"])
  ++ (match ERMSolver.oversample_pth args with
      | None => [SaveScoreIdx epoch]
      | Some _ => []
      end).

Lemma erm_after_epoch {T : Type} (args : ERMSolver.Args T) epoch st :
  loss_bound st = true → top1_bound st = true →
  ERMSolver.after_epoch args epoch st = Ok (emit (erm_tail args epoch (n_iter st)) st).
Proof.
  intros Hl Ht. unfold ERMSolver.after_epoch, erm_tail. rewrite Hl, Ht.
  cbn [andb mbind result_bind].
  destruct (bool_decide (ERMSolver.data args ≠ "imagenet"));
    destruct (ERMSolver.oversample_pth args);
    rewrite ?emit_app, ?app_nil_r; reflexivity.
Qed.

Section SimCLRLoop.
Import SimCLRSolver.
Context {T : Type} `{Backend T}.

(** What an epoch of [contrastive_train] does after its batches: the
      scheduler steps after the warm-up, and a checkpoint is saved when
      the 1-based index of the epoch is a multiple of [save_every]. *)
Definition simclr_tail (args : Args T) (epoch n_iter : nat) : list event :=
    (if decide ((if bool_decide (data args ≠ "imagenet")
                 then int_0_4 (simclr_epochs args)
                 else int_0_2 (simclr_epochs args)) ≤ epoch)
     then [SchedulerStep epoch] else [])
    ++ (if decide ((epoch + 1) `mod` save_every args = 0)
        then [SaveCheckpoint (epoch + 1) "biased_simclr"] else []).

Lemma simclr_after_epoch (args : Args T) epoch st :
    save_every args ≠ 0 →
    loss_bound st = true → top1_bound st = true →
    after_epoch args epoch st = Ok (emit (simclr_tail args epoch (n_iter st)) st).
Proof.
    intros Hs Hl Ht. unfold after_epoch, simclr_tail.
    destruct (decide (_ ≤ epoch)) as [Hw|Hw].
    - cbn [loss_bound top1_bound emit]. rewrite Hl, Ht. cbn [andb mbind result_bind].
      rewrite decide_False by exact Hs.
      destruct (decide ((epoch + 1) `mod` save_every args = 0)).
      + fold (emit [SchedulerStep epoch] st). rewrite emit_app. reflexivity.
      + rewrite app_nil_r. reflexivity.
    - rewrite Hl, Ht. cbn [andb mbind result_bind].
      rewrite decide_False by exact Hs.
      destruct (decide ((epoch + 1) `mod` save_every args = 0)); [reflexivity|].
      rewrite emit_nil. reflexivity.
Qed.

Lemma simclr_checkpoints (args : Args T) k n a m :
    checkpoints (concat (epoch_events k n (simclr_tail args) <$> seq a m))
    = (fun e => (e, "biased_simclr"))
        <$> filter (fun e => e `mod` save_every args = 0) (seq (S a) m).
Proof.
    revert a. induction m as [|m IH]; intros a; [reflexivity|].
    cbn [seq]. rewrite fmap_cons. cbn [concat]. rewrite checkpoints_app, IH.
    unfold epoch_events at 1. rewrite checkpoints_app, checkpoints_batch_events.
    unfold simclr_tail. rewrite checkpoints_app.
    rewrite filter_cons. replace (a + 1) with (S a) by lia.
    destruct (decide (_ ≤ a)); destruct (decide (S a `mod` save_every args = 0));
      reflexivity.
Qed.
End SimCLRLoop.

Lemma erm_checkpoints {T : Type} (args : ERMSolver.Args T) k n a m :
  checkpoints (concat (epoch_events k n (erm_tail args) <$> seq a m)) = [].
Proof.
  revert a. induction m as [|m IH]; intros a; [reflexivity|].
  cbn [seq]. rewrite fmap_cons. cbn [concat]. rewrite checkpoints_app, IH.
  unfold epoch_events. rewrite checkpoints_app, checkpoints_batch_events.
  unfold erm_tail. destruct (bool_decide _); destruct (ERMSolver.oversample_pth args);
    reflexivity.
Qed.

(** C7.  [SimCLRSolver.contrastive_train] saves a checkpoint with token
    'biased_simclr' after every epoch whose 1-based index is a multiple of
    [save_every], and once more after the final epoch.
    [ERMSolver.train] validates after the batches of every epoch and
    saves the checkpoint with token 'biased_ERM' exactly once, after the
    final epoch.  Both for a run of at least one epoch over a loader that
    is not empty, with positive logging and saving periods. *)
Theorem training_loops_checkpoint_and_validate :
  (∀ (T : Type) (B : Backend T) (args : SimCLRSolver.Args T) (n_batches : nat),
     0 < SimCLRSolver.simclr_epochs args → 0 < n_batches →
     0 < SimCLRSolver.log_every_n_steps args → 0 < SimCLRSolver.save_every args →
     SimCLRSolver.known_mode (SimCLRSolver.mode_CL args) = true →
     ∃ st,
       SimCLRSolver.contrastive_train args n_batches = Ok st ∧
       trace st
       = concat (epoch_events (SimCLRSolver.log_every_n_steps args) n_batches
                              (simclr_tail args)
                   <$> seq 0 (SimCLRSolver.simclr_epochs args))
         ++ [SaveCheckpoint (SimCLRSolver.simclr_epochs args) "biased_simclr"] ∧
       checkpoints (trace st)
       = ((fun e => (e, "biased_simclr"))
            <$> filter (fun e => e `mod` SimCLRSolver.save_every args = 0)
                       (seq 1 (SimCLRSolver.simclr_epochs args)))
         ++ [(SimCLRSolver.simclr_epochs args, "biased_simclr")]) ∧
  (∀ (T : Type) (args : ERMSolver.Args T) (n_batches : nat),
     0 < ERMSolver.ERM_epochs args → 0 < n_batches →
     0 < ERMSolver.log_every_n_steps args →
     ∃ st,
       ERMSolver.train args n_batches = Ok st ∧
       trace st
       = concat (epoch_events (ERMSolver.log_every_n_steps args) n_batches
                              (erm_tail args)
                   <$> seq 0 (ERMSolver.ERM_epochs args))
         ++ [SaveCheckpoint (ERMSolver.ERM_epochs args) "biased_ERM"] ∧
       (∀ epoch n_iter, ∃ v rest, erm_tail args epoch n_iter = v :: rest ∧
          (v = Validation epoch (n_iter + 1) ∨ v = ValidateImagenet epoch "biased")) ∧
       checkpoints (trace st) = [(ERMSolver.ERM_epochs args, "biased_ERM")]).
Proof.
  split.
  - intros T B args n HE Hn Hk Hs Hmode.
    assert (∀ epoch st i, SimCLRSolver.contrastive_step args epoch st i
                          = batch_step (SimCLRSolver.log_every_n_steps args) epoch st i)
      as Hstep.
    { intros epoch st i. unfold SimCLRSolver.contrastive_step. rewrite Hmode. reflexivity. }
    assert (∀ epoch st, loss_bound st = true → top1_bound st = true →
              SimCLRSolver.after_epoch args epoch st
              = Ok (emit (simclr_tail args epoch (n_iter st)) st)) as Hafter.
    { intros epoch st. apply simclr_after_epoch. lia. }
    unfold SimCLRSolver.contrastive_train.
    change (foldM _ initial_state (seq 0 (SimCLRSolver.simclr_epochs args)))
      with (foldM (epoch_body n (SimCLRSolver.contrastive_step args)
                              (SimCLRSolver.after_epoch args))
                  initial_state (seq 0 (SimCLRSolver.simclr_epochs args))).
    rewrite (epochs_run (SimCLRSolver.log_every_n_steps args) n _ _ (simclr_tail args)
               Hstep Hafter ltac:(lia) Hn _ 0 initial_state eq_refl
               (or_intror eq_refl) HE).
    cbn [mbind result_bind epoch_counter]. eexists. split; [reflexivity|].
    unfold emit, initial_state. cbn [trace app].
    replace (0 + SimCLRSolver.simclr_epochs args - 1 + 1)
      with (SimCLRSolver.simclr_epochs args) by lia.
    split; [reflexivity|].
    rewrite checkpoints_app, simclr_checkpoints. reflexivity.
  - intros T args n HE Hn Hk.
    unfold ERMSolver.train.
    change (foldM _ initial_state (seq 0 (ERMSolver.ERM_epochs args)))
      with (foldM (epoch_body n (batch_step (ERMSolver.log_every_n_steps args))
                              (ERMSolver.after_epoch args))
                  initial_state (seq 0 (ERMSolver.ERM_epochs args))).
    rewrite (epochs_run (ERMSolver.log_every_n_steps args) n _ _ (erm_tail args)
               (fun _ _ _ => eq_refl) (erm_after_epoch args) ltac:(lia) Hn _ 0
               initial_state eq_refl (or_intror eq_refl) HE).
    cbn [mbind result_bind epoch_counter]. eexists. split; [reflexivity|].
    unfold emit, initial_state. cbn [trace app].
    replace (0 + ERMSolver.ERM_epochs args - 1 + 1)
      with (ERMSolver.ERM_epochs args) by lia.
    split; [reflexivity|]. split.
    + intros epoch ni. unfold erm_tail.
      destruct (bool_decide (ERMSolver.data args ≠ "imagenet")); cbn; eauto.
    + rewrite checkpoints_app, erm_checkpoints. reflexivity.
Qed.

Module TrainingExamples.
Import Exact.

Definition simclr_args (epochs every : nat) : SimCLRSolver.Args xrat :=
    {| SimCLRSolver.batch_size := 2; SimCLRSolver.n_views := 2;
       SimCLRSolver.temperature := Rat (7 # 100);
       SimCLRSolver.lambda_vicReg_pos := Rat 25; SimCLRSolver.lambda_vicReg_std := Rat 25;
       SimCLRSolver.lambda_vicReg_cov := Rat 1;
       SimCLRSolver.simclr_epochs := epochs; SimCLRSolver.save_every := every;
       SimCLRSolver.log_every_n_steps := 3; SimCLRSolver.data := "celebA";
       SimCLRSolver.mode_CL := "SimCLR" |}.

Definition erm_args (epochs : nat) : ERMSolver.Args xrat :=
    {| ERMSolver.finetune := false; ERMSolver.data := "celebA";
       ERMSolver.bias_ratio := ""; ERMSolver.checkpoint_dir := "ckpt";
       ERMSolver.ERM_epochs := epochs; ERMSolver.log_every_n_steps := 3;
       ERMSolver.oversample_pth := None; ERMSolver.lambda_upweight := Rat 1;
       ERMSolver.finetune_ratio := "0.1" |}.

(** Four epochs, a checkpoint every second one: the last epoch is saved
      twice, by the loop and after it. *)
Example simclr_four_epochs :
    checkpoints <$> (trace <$> SimCLRSolver.contrastive_train (simclr_args 4 2) 2)
    = Ok [(2, "biased_simclr"); (4, "biased_simclr"); (4, "biased_simclr")].
Proof. vm_compute. reflexivity. Qed.

Example erm_two_epochs :
    trace <$> ERMSolver.train (erm_args 2) 2
    = Ok [TrainStep 0 0; Logged 0; TrainStep 0 1; Validation 0 3; SaveScoreIdx 0;
          TrainStep 1 2; TrainStep 1 3; Logged 3; Validation 1 5; SaveScoreIdx 1;
          SaveCheckpoint 2 "biased_ERM"].
Proof. vm_compute. reflexivity. Qed.

(** Without an epoch the loop variable that names the checkpoint is
      not bound. *)
Example no_epoch_no_checkpoint :
    ERMSolver.train (erm_args 0) 2 = Error (LibraryError "UnboundLocalError") ∧
    SimCLRSolver.contrastive_train (simclr_args 0 2) 2
    = Error (LibraryError "UnboundLocalError").
Proof. split; reflexivity. Qed.

Lemma training_loops_checkpoint_and_validate_witness :
    (∃ st,
       SimCLRSolver.contrastive_train (simclr_args 4 2) 2 = Ok st ∧
       trace st
       = concat (epoch_events 3 2 (simclr_tail (simclr_args 4 2)) <$> seq 0 4)
         ++ [SaveCheckpoint 4 "biased_simclr"] ∧
       checkpoints (trace st)
       = ((fun e => (e, "biased_simclr")) <$> filter (fun e => e `mod` 2 = 0) (seq 1 4))
         ++ [(4, "biased_simclr")]) ∧
    (∃ st,
       ERMSolver.train (erm_args 2) 2 = Ok st ∧
       trace st
       = concat (epoch_events 3 2 (erm_tail (erm_args 2)) <$> seq 0 2)
         ++ [SaveCheckpoint 2 "biased_ERM"] ∧
       (∀ epoch n_iter, ∃ v rest, erm_tail (erm_args 2) epoch n_iter = v :: rest ∧
          (v = Validation epoch (n_iter + 1) ∨ v = ValidateImagenet epoch "biased")) ∧
       checkpoints (trace st) = [(2, "biased_ERM")]).
Proof.
    split.
    - apply (proj1 training_loops_checkpoint_and_validate xrat backend (simclr_args 4 2) 2);
        cbn; solve [lia | reflexivity].
    - apply (proj2 training_loops_checkpoint_and_validate xrat (erm_args 2) 2); cbn; lia.
Defined.
End TrainingExamples.

(** ** training/SimCLRSolver.py: masks and views *)

Lemma chunks_concat {A : Type} (w : nat) (rows : list (list A)) :
  Forall (fun row => length row = w) rows →
  chunks w (length rows) (concat rows) = rows.
Proof.
  induction 1 as [|row rows Hrow _ IH]; [reflexivity|].
  cbn [length chunks concat].
  rewrite take_app_length' by (symmetry; exact Hrow).
  rewrite drop_app_length' by (symmetry; exact Hrow).
  rewrite IH. reflexivity.
Qed.

Lemma length_concat_uniform {A : Type} (w : nat) (rows : list (list A)) :
  Forall (fun row => length row = w) rows → length (concat rows) = length rows * w.
Proof.
  induction 1 as [|row rows Hrow _ IH]; [reflexivity|].
  cbn [concat length]. rewrite length_app, IH, Hrow. lia.
Qed.

(** A matrix whose rows have one length is what [view(n, -1)] makes of
    its flattening. *)
Lemma view_infer_concat {A : Type} (w : nat) (rows : list (list A)) :
  rows ≠ [] → Forall (fun row => length row = w) rows →
  view_infer (length rows) (concat rows) = Ok rows.
Proof.
  intros Hne Hw. unfold view_infer.
  assert (length rows ≠ 0) as Hn by (destruct rows; [congruence | cbn; lia]).
  rewrite decide_False by exact Hn.
  rewrite (length_concat_uniform w) by exact Hw.
  rewrite decide_True by (rewrite Nat.mul_comm; apply Nat.Div0.mod_mul).
  replace (length rows * w / length rows) with w
    by (rewrite Nat.mul_comm, Nat.div_mul by exact Hn; reflexivity).
  rewrite chunks_concat by exact Hw. reflexivity.
Qed.

Lemma select_row_fmap {A B : Type} (g : B → A) (p : B → bool) (l : list B) :
  select_row (g <$> l) (p <$> l) = g <$> filter (fun j => p j = true) l.
Proof.
  induction l as [|x l IH]; [reflexivity|].
  cbn [fmap list_fmap select_row]. rewrite filter_cons.
  destruct (p x) eqn:E.
  - rewrite decide_True by reflexivity. cbn. f_equal. exact IH.
  - rewrite decide_False by discriminate. exact IH.
Qed.

Lemma zip_with_fmap_same {A B C D : Type} (f : A → B → C) (a : D → A) (b : D → B)
    (l : list D) :
  zip_with f (a <$> l) (b <$> l) = (fun x => f (a x) (b x)) <$> l.
Proof. induction l as [|x l IH]; [reflexivity|]. cbn. f_equal. exact IH. Qed.

(** Masking a matrix given row by row over index lists [I i], and viewing
    the selection as [n] rows again. *)
Lemma masked_select_view {A : Type} (n w : nat) (g : nat → nat → A)
    (p : nat → nat → bool) (I : nat → list nat) :
  n ≠ 0 →
  (∀ i, i < n → length (filter (fun j => p i j = true) (I i)) = w) →
  masked_select ((fun i => g i <$> I i) <$> seq 0 n) ((fun i => p i <$> I i) <$> seq 0 n)
    ≫= view_infer n
  = Ok ((fun i => g i <$> filter (fun j => p i j = true) (I i)) <$> seq 0 n).
Proof.
  intros Hn Hw. unfold masked_select.
  rewrite decide_True.
  2:{ rewrite <- !list_fmap_compose. apply list_fmap_ext. intros i x _. cbn.
      rewrite !length_fmap. reflexivity. }
  cbn [mbind result_bind].
  rewrite zip_with_fmap_same.
  rewrite (list_fmap_ext _ (fun i => g i <$> filter (fun j => p i j = true) (I i)) (seq 0 n))
    by (intros; apply select_row_fmap).
  set (rows := (fun i => g i <$> filter (fun j => p i j = true) (I i)) <$> seq 0 n).
  replace n with (length rows) at 1 by (subst rows; rewrite length_fmap, length_seq; reflexivity).
  apply (view_infer_concat w).
  - subst rows. destruct n; [congruence | discriminate].
  - subst rows. apply Forall_fmap, Forall_forall. intros i Hi. cbn.
    rewrite length_fmap. apply Hw. apply elem_of_seq in Hi. lia.
Qed.

Lemma filter_ext_in {A : Type} (P Q : A → Prop) `{∀ x, Decision (P x)}
    `{∀ x, Decision (Q x)} (l : list A) :
  (∀ x, x ∈ l → (P x ↔ Q x)) → filter P l = filter Q l.
Proof.
  induction l as [|x l IH]; intros Hext; [reflexivity|].
  rewrite !filter_cons.
  assert (P x ↔ Q x) as Hx by (apply Hext, list_elem_of_here).
  rewrite IH by (intros y Hy; apply Hext, list_elem_of_further, Hy).
  destruct (decide (P x)), (decide (Q x)); tauto.
Qed.

Lemma filter_fmap {A B : Type} (f : A → B) (P : B → Prop) `{∀ y, Decision (P y)}
    (l : list A) :
  filter P (f <$> l) = f <$> filter (fun x => P (f x)) l.
Proof.
  induction l as [|x l IH]; [reflexivity|].
  rewrite fmap_cons, !filter_cons, IH. destruct (decide (P (f x))); reflexivity.
Qed.

Lemma length_filter_split {A : Type} (p : A → bool) (l : list A) :
  length (filter (fun x => p x = true) l) + length (filter (fun x => negb (p x) = true) l)
  = length l.
Proof.
  induction l as [|x l IH]; [reflexivity|].
  rewrite !filter_cons. destruct (p x) eqn:E; cbn [negb].
  - rewrite decide_True, decide_False by congruence. cbn. lia.
  - rewrite decide_False, decide_True by congruence. cbn. lia.
Qed.

Lemma count_eq_seq (r a n : nat) :
  length (filter (fun j => j = r) (seq a n)) = if decide (a ≤ r < a + n) then 1 else 0.
Proof.
  revert a. induction n as [|n IH]; intros a.
  - cbn. destruct (decide (a ≤ r < a + 0)); [lia | reflexivity].
  - cbn [seq]. rewrite filter_cons.
    destruct (decide (a = r)); cbn [length]; rewrite IH;
      destruct (decide (S a ≤ r < S a + n)), (decide (a ≤ r < a + S n)); lia.
Qed.

(** [torch.cat([torch.arange(bs) for i in range(v)])] holds [k mod bs] at
    position [k]. *)
Lemma arange_cat (v bs : nat) :
  concat (replicate v (seq 0 bs)) = (fun k => k `mod` bs) <$> seq 0 (v * bs).
Proof.
  induction v as [|v IH]; [reflexivity|].
  cbn [replicate concat]. rewrite IH.
  replace (S v * bs) with (bs + v * bs) by lia.
  rewrite seq_app, fmap_app. f_equal.
  - symmetry. rewrite <- (list_fmap_id (seq 0 bs)) at 2.
    apply Forall_fmap_ext, Forall_forall. intros k Hk. apply elem_of_seq in Hk.
    cbn. apply Nat.mod_small. lia.
  - cbn [Nat.add].
    replace (seq bs (v * bs)) with ((fun x => bs + x) <$> seq 0 (v * bs))
      by (rewrite fmap_add_seq; f_equal; lia).
    rewrite <- list_fmap_compose.
    apply list_fmap_ext. intros _ k _. cbn.
    replace (bs + k) with (k + 1 * bs) by lia. symmetry. apply Nat.Div0.mod_add.
Qed.

(** Every residue occurs once in each of the [v] views. *)
Lemma count_mod (v bs r : nat) :
  r < bs → length (filter (fun j => j `mod` bs = r) (seq 0 (v * bs))) = v.
Proof.
  intros Hr. induction v as [|v IH]; [reflexivity|].
  replace (S v * bs) with (v * bs + bs) by lia.
  rewrite seq_app, filter_app, length_app, IH. cbn [Nat.add].
  replace (seq (v * bs) bs) with ((fun x => v * bs + x) <$> seq 0 bs)
    by (rewrite fmap_add_seq; f_equal; lia).
  rewrite filter_fmap, length_fmap.
  rewrite (filter_ext_in _ (fun j => j = r)).
  - rewrite count_eq_seq. rewrite decide_True by lia. lia.
  - intros j Hj. apply elem_of_seq in Hj. cbn.
    rewrite Nat.add_comm, Nat.Div0.mod_add, Nat.mod_small by lia. reflexivity.
Qed.

(** ** training/SimCLRSolver.py: the InfoNCE logits *)

Lemma bind_assoc {A B C : Type} (m : result A) (f : A → result B) (k : B → result C) :
  m ≫= (fun x => f x ≫= k) = (m ≫= f) ≫= k.
Proof. destruct m; reflexivity. Qed.

Section RowCounts.
Variables (v bs i : nat).
Hypothesis views : 0 < v.
Hypothesis in_batch : i < v * bs.

Let not_diag (j : nat) : bool := negb (bool_decide (i = j)).
Let same (j : nat) : bool := bool_decide (j `mod` bs = i `mod` bs).

Lemma count_diag : length (filter (fun j => bool_decide (i = j) = true) (seq 0 (v * bs))) = 1.
Proof.
    rewrite (filter_ext_in _ (fun j => j = i)).
    - rewrite count_eq_seq, decide_True by lia. reflexivity.
    - intros j _. rewrite bool_decide_eq_true. split; congruence.
Qed.

Lemma count_not_diag :
    length (filter (fun j => not_diag j = true) (seq 0 (v * bs))) = v * bs - 1.
Proof.
    pose proof (length_filter_split (fun j => bool_decide (i = j)) (seq 0 (v * bs))) as Hs.
    cbn beta in Hs. rewrite count_diag, length_seq in Hs. subst not_diag. cbn beta. lia.
Qed.

Lemma count_same : length (filter (fun j => same j = true) (seq 0 (v * bs))) = v.
Proof.
    assert (0 < bs) as Hbs by (destruct bs; [lia | lia]).
    rewrite (filter_ext_in _ (fun j => j `mod` bs = i `mod` bs)).
    - apply count_mod. apply Nat.mod_upper_bound. lia.
    - intros j _. subst same. cbn beta. apply bool_decide_eq_true.
Qed.

Lemma count_positives :
    length (filter (fun j => same j = true)
                   (filter (fun j => not_diag j = true) (seq 0 (v * bs)))) = v - 1.
Proof.
    pose proof (length_filter_split (fun j => bool_decide (i = j))
                  (filter (fun j => same j = true) (seq 0 (v * bs)))) as Hs.
    cbn beta in Hs. rewrite count_same in Hs.
    rewrite !list_filter_filter in Hs. rewrite list_filter_filter.
    rewrite (filter_ext_in (fun j => bool_decide (i = j) = true ∧ same j = true)
               (fun j => bool_decide (i = j) = true)) in Hs.
    - rewrite count_diag in Hs.
      rewrite (filter_ext_in (fun j => same j = true ∧ not_diag j = true)
                 (fun j => negb (bool_decide (i = j)) = true ∧ same j = true));
        [lia | intros j _; subst not_diag; cbn beta; tauto].
    - intros j _. split; [tauto|]. intros Hj. split; [exact Hj|].
      apply bool_decide_eq_true in Hj. subst j same. cbn beta.
      apply bool_decide_eq_true. reflexivity.
Qed.

Lemma count_negatives :
    length (filter (fun j => negb (same j) = true)
                   (filter (fun j => not_diag j = true) (seq 0 (v * bs)))) = v * bs - v.
Proof.
    pose proof (length_filter_split same
                  (filter (fun j => not_diag j = true) (seq 0 (v * bs)))) as Hs.
    cbn beta in Hs. rewrite count_positives, count_not_diag in Hs.
    assert (v ≤ v * bs) by (destruct bs; [lia | nia]). lia.
Qed.
End RowCounts.

Lemma fmap_seq_nth {A B : Type} (h : A → B) (d : A) (l : list A) :
  (fun i => h (nth i l d)) <$> seq 0 (length l) = h <$> l.
Proof.
  transitivity (h <$> ((fun i => nth i l d) <$> seq 0 (length l))).
  - rewrite <- list_fmap_compose. reflexivity.
  - rewrite fmap_nth_seq. reflexivity.
Qed.

Lemma label_matrix_rows (v bs : nat) :
  (fun li : nat => (fun lj : nat => bool_decide (lj = li))
                     <$> concat (replicate v (seq 0 bs)))
    <$> concat (replicate v (seq 0 bs))
  = (fun i => (fun j => bool_decide (j `mod` bs = i `mod` bs)) <$> seq 0 (v * bs))
      <$> seq 0 (v * bs).
Proof.
  rewrite arange_cat, <- list_fmap_compose. apply list_fmap_ext. intros _ i _. cbn.
  rewrite <- list_fmap_compose. reflexivity.
Qed.

Lemma mask_not_rows {A : Type} (p : A → nat → bool) (I : A → list nat) (l : list A) :
  mask_not ((fun i => p i <$> I i) <$> l)
  = (fun i => (fun j => negb (p i j)) <$> I i) <$> l.
Proof.
  unfold mask_not. rewrite <- list_fmap_compose. apply list_fmap_ext. intros _ i _. cbn.
  rewrite <- list_fmap_compose. reflexivity.
Qed.

Section InfoNCE.
Import SimCLRSolver.
Context {T : Type} `{Backend T}.

(** The similarity of samples [i] and [j]: the dot product of their
      normalized features. *)
Definition cosine_similarity (features : list (list T)) (i j : nat) : T :=
    dot (normalize (nth i features [])) (normalize (nth j features [])).

(** The other views of the image of sample [i], and the samples of the
      other images, in the order of the batch. *)
Definition positives_of (bs n i : nat) : list nat :=
    filter (fun j => j ≠ i ∧ j `mod` bs = i `mod` bs) (seq 0 n).
Definition negatives_of (bs n i : nat) : list nat :=
    filter (fun j => j `mod` bs ≠ i `mod` bs) (seq 0 n).

Definition info_nce_logits (args : Args T) (features : list (list T))
      : list (list T) :=
    let n := length features in
    (fun i => (fun x => div x (temperature args))
                <$> (cosine_similarity features i
                       <$> (positives_of (batch_size args) n i
                            ++ negatives_of (batch_size args) n i)))
      <$> seq 0 n.

Lemma similarity_matrix_rows (features : list (list T)) :
    matmul_cols (normalize <$> features) (normalize <$> features)
    = (fun i => cosine_similarity features i <$> seq 0 (length features))
        <$> seq 0 (length features).
Proof.
    unfold matmul_cols, cosine_similarity. symmetry.
    transitivity ((fun i => dot (normalize (nth i features []))
                              <$> (normalize <$> features))
                    <$> seq 0 (length features)).
    - apply list_fmap_ext. intros _ i _.
      rewrite (fmap_seq_nth (fun x => dot (normalize (nth i features [])) (normalize x))).
      rewrite <- list_fmap_compose. reflexivity.
    - rewrite (fmap_seq_nth (fun x => dot (normalize x) <$> (normalize <$> features))).
      rewrite <- list_fmap_compose. reflexivity.
Qed.

Lemma positives_filter bs n i :
    filter (fun j => bool_decide (j `mod` bs = i `mod` bs) = true)
           (filter (fun j => negb (bool_decide (i = j)) = true) (seq 0 n))
    = positives_of bs n i.
Proof.
    unfold positives_of. rewrite list_filter_filter. apply filter_ext_in.
    intros j _. rewrite bool_decide_eq_true, negb_true_iff, bool_decide_eq_false.
    split; intros [? ?]; split; congruence.
Qed.

Lemma negatives_filter bs n i :
    filter (fun j => negb (bool_decide (j `mod` bs = i `mod` bs)) = true)
           (filter (fun j => negb (bool_decide (i = j)) = true) (seq 0 n))
    = negatives_of bs n i.
Proof.
    unfold negatives_of. rewrite list_filter_filter. apply filter_ext_in.
    intros j _. rewrite !negb_true_iff, !bool_decide_eq_false.
    split; [tauto|]. intros Hj. split; [exact Hj | congruence].
Qed.

(** C5.  On a feature matrix with [n_views * batch_size] rows (at
      least one view and one image), [info_nce_loss] returns the label
      vector of zeros and, for each sample, the row of its cosine
      similarities to its [n_views - 1] positive views followed by its
      similarities to all negatives, without the self-similarity, every
      entry divided by the temperature. *)
Theorem info_nce_loss_spec (args : Args T) (features : list (list T)) :
    0 < n_views args → 0 < batch_size args →
    length features = n_views args * batch_size args →
    info_nce_loss args features
    = Ok (info_nce_logits args features, replicate (length features) 0) ∧
    (∀ i, i < length features →
          length (positives_of (batch_size args) (length features) i) = n_views args - 1 ∧
          (i ∉ positives_of (batch_size args) (length features) i) ∧
          (i ∉ negatives_of (batch_size args) (length features) i)).
Proof.
    intros Hv Hbs Hlen.
    assert (length features ≠ 0) as Hn by (rewrite Hlen; nia).
    assert (∀ i, i < length features → i < n_views args * batch_size args) as Hin
      by (intros i; rewrite Hlen; trivial).
    split.
    2:{ intros i Hi. split; [|split].
        - rewrite <- positives_filter. rewrite Hlen.
          apply count_positives; auto.
        - unfold positives_of. rewrite list_elem_of_filter. tauto.
        - unfold negatives_of. rewrite list_elem_of_filter. tauto. }
    unfold info_nce_loss.
    rewrite decide_False by lia. cbn [mbind result_bind].
    rewrite label_matrix_rows, <- Hlen.
    rewrite similarity_matrix_rows.
    rewrite !length_fmap, !length_seq.
    unfold eye.
    rewrite (mask_not_rows (fun i j => bool_decide (i = j))
               (fun _ => seq 0 (length features))).
    (* the label matrix without its diagonal *)
    rewrite bind_assoc.
    rewrite (masked_select_view (length features) (length features - 1)
               (fun i j => bool_decide (j `mod` batch_size args = i `mod` batch_size args))
               (fun i j => negb (bool_decide (i = j)))
               (fun _ => seq 0 (length features)) Hn).
    2:{ intros i Hi. rewrite Hlen. apply count_not_diag; auto. }
    cbn [mbind result_bind].
    (* the similarity matrix without its diagonal *)
    rewrite bind_assoc.
    rewrite (masked_select_view (length features) (length features - 1)
               (cosine_similarity features)
               (fun i j => negb (bool_decide (i = j)))
               (fun _ => seq 0 (length features)) Hn).
    2:{ intros i Hi. rewrite Hlen. apply count_not_diag; auto. }
    cbn [mbind result_bind]. rewrite !length_fmap, !length_seq.
    (* the positives *)
    rewrite bind_assoc.
    rewrite (masked_select_view (length features) (n_views args - 1)
               (cosine_similarity features)
               (fun i j => bool_decide (j `mod` batch_size args = i `mod` batch_size args))
               (fun i => filter (fun j => negb (bool_decide (i = j)) = true)
                                (seq 0 (length features))) Hn).
    2:{ intros i Hi. rewrite Hlen. apply count_positives; auto. }
    cbn [mbind result_bind].
    (* the negatives *)
    rewrite (mask_not_rows
               (fun i j => bool_decide (j `mod` batch_size args = i `mod` batch_size args))
               (fun i => filter (fun j => negb (bool_decide (i = j)) = true)
                                (seq 0 (length features)))).
    rewrite bind_assoc.
    rewrite (masked_select_view (length features) (length features - n_views args)
               (cosine_similarity features)
               (fun i j => negb (bool_decide (j `mod` batch_size args
                                              = i `mod` batch_size args)))
               (fun i => filter (fun j => negb (bool_decide (i = j)) = true)
                                (seq 0 (length features))) Hn).
    2:{ intros i Hi. rewrite Hlen. apply count_negatives; auto. }
    cbn [mbind result_bind].
    unfold cat_dim1. rewrite !length_fmap, !length_seq, decide_True by reflexivity.
    cbn [mbind result_bind].
    rewrite zip_with_fmap_same, length_fmap, length_seq, <- list_fmap_compose.
    do 2 f_equal. unfold info_nce_logits.
    apply list_fmap_ext. intros _ i _. cbn.
    rewrite positives_filter, negatives_filter, !fmap_app. reflexivity.
Qed.
End InfoNCE.

Module InfoNCEExamples.
Import Exact SimCLRSolver.

Definition args : Args xrat :=
    {| batch_size := 2; n_views := 2; temperature := Rat (1 # 2);
       lambda_vicReg_pos := Rat 25; lambda_vicReg_std := Rat 25;
       lambda_vicReg_cov := Rat 1; simclr_epochs := 1; save_every := 1;
       log_every_n_steps := 1; data := "celebA"; mode_CL := "SimCLR" |}.

(** Two views of two images; the rows have norm 5. *)
Definition features : list (list xrat) :=
    [[Rat 3; Rat 4]; [Rat 0; Rat 5]; [Rat 4; Rat 3]; [Rat 5; Rat 0]].

Example logits_of_two_views :
    info_nce_loss args features
    = Ok ([[Rat (48 # 25); Rat (8 # 5); Rat (6 # 5)];
           [Rat 0; Rat (8 # 5); Rat (6 # 5)];
           [Rat (48 # 25); Rat (6 # 5); Rat (8 # 5)];
           [Rat 0; Rat (6 # 5); Rat (8 # 5)]],
          [0; 0; 0; 0]).
Proof. vm_compute. reflexivity. Qed.

(** Without a sample there is nothing to view as rows. *)
Example empty_batch :
    info_nce_loss
      {| batch_size := 0; n_views := 2; temperature := Rat (1 # 2);
         lambda_vicReg_pos := Rat 25; lambda_vicReg_std := Rat 25;
         lambda_vicReg_cov := Rat 1; simclr_epochs := 1; save_every := 1;
         log_every_n_steps := 1; data := "celebA"; mode_CL := "SimCLR" |} []
    = Error (LibraryError "RuntimeError").
Proof. vm_compute. reflexivity. Qed.

(** A matrix with another number of rows does not fit the masks. *)
Example wrong_number_of_rows :
    info_nce_loss args (take 3 features) = Error (LibraryError "IndexError").
Proof. vm_compute. reflexivity. Qed.

Lemma info_nce_loss_spec_witness :
    info_nce_loss args features
    = Ok (info_nce_logits args features, replicate (length features) 0) ∧
    (∀ i, i < length features →
          length (positives_of (batch_size args) (length features) i) = n_views args - 1 ∧
          (i ∉ positives_of (batch_size args) (length features) i) ∧
          (i ∉ negatives_of (batch_size args) (length features) i)).
Proof.
    apply (info_nce_loss_spec args features); [cbn; lia | cbn; lia | reflexivity].
Defined.
End InfoNCEExamples.

(** ** training/SimCLRSolver.py: the off-diagonal entries *)

Lemma chunks_take {A : Type} (w c : nat) (l : list A) :
  chunks w c (take (c * w) l) = chunks w c l.
Proof.
  revert l. induction c as [|c IH]; intros l; [reflexivity|].
  cbn [chunks]. replace (S c * w) with (w + c * w) by lia. f_equal.
  - rewrite take_take. f_equal. lia.
  - rewrite <- IH. rewrite <- (IH (drop w l)). f_equal.
    rewrite <- take_drop_commute. rewrite take_take. f_equal. lia.
Qed.

Lemma chunks_removelast {A : Type} (w c : nat) (l : list A) :
  c * w < length l → chunks w c (removelast l) = chunks w c l.
Proof.
  intros Hlen. rewrite removelast_firstn_len.
  rewrite <- (chunks_take w c (firstn _ l)), <- (chunks_take w c l).
  f_equal. change (firstn (Init.Nat.pred (length l)) l) with (take (Init.Nat.pred (length l)) l).
  rewrite take_take. f_equal. lia.
Qed.

Section OffDiagonal.
Context {A : Type}.
Variable n : nat.

(** The flattened matrix from the diagonal entry of row [k] on, cut
      into rows of [n + 1] entries without their head: what lies between
      two consecutive diagonal entries. *)
Lemma between_diagonals (k : nat) (r : list A) (rest : list (list A)) :
    length r = n → Forall (fun row => length row = n) rest →
    k + 1 + length rest = n →
    concat (drop 1 <$> chunks (n + 1) (length rest) (drop k r ++ concat rest))
    = drop (S k) r ++ concat (imap (fun i row => delete (S k + i) row) rest).
Proof.
    intros Hr Hrest. revert k r Hr.
    induction Hrest as [|r' rest Hr' _ IH]; intros k r Hr Hk.
    - cbn. rewrite drop_ge by (cbn in Hk; lia). reflexivity.
    - cbn [length chunks fmap list_fmap concat imap].
      cbn [length] in Hk.
      assert (length (drop k r) = n - k) as Hd by (rewrite length_drop; lia).
      rewrite (take_app_ge (drop k r) _ (n + 1)) by lia.
      rewrite (drop_app_ge (drop k r) _ (n + 1)) by lia.
      replace (n + 1 - length (drop k r)) with (S k) by lia.
      rewrite (take_app_le r' _ (S k)) by lia.
      rewrite (drop_app_le r' _ (S k)) by lia.
      rewrite (drop_app_le (drop k r) _ 1) by lia. rewrite drop_drop.
      rewrite (IH (S k) r' Hr') by lia.
      replace (k + 1) with (S k) by lia. rewrite Nat.add_0_r.
      rewrite (delete_take_drop r' (S k)).
      rewrite <- !app_assoc. do 3 f_equal. f_equal.
      apply imap_ext. intros i row _. cbn. f_equal. lia.
Qed.
End OffDiagonal.

Lemma filter_all {A : Type} (P : A → Prop) `{∀ x, Decision (P x)} (l : list A) :
  Forall P l → filter P l = l.
Proof.
  induction 1 as [|x l Hx _ IH]; [reflexivity|].
  rewrite filter_cons, decide_True by exact Hx. f_equal. exact IH.
Qed.

Lemma delete_fmap_seq {A : Type} (g : nat → A) (a n i : nat) :
  i < n → delete i (g <$> seq a n) = g <$> filter (fun j => j ≠ a + i) (seq a n).
Proof.
  revert a i. induction n as [|n IH]; intros a i Hi; [lia|].
  cbn [seq]. rewrite fmap_cons, filter_cons. destruct i as [|i].
  - rewrite decide_False by lia. cbn [delete list_delete].
    rewrite filter_all; [reflexivity|].
    apply Forall_forall. intros j Hj. apply elem_of_seq in Hj. lia.
  - rewrite decide_True by lia. cbn [delete list_delete]. rewrite fmap_cons. f_equal.
    change (list_delete i (g <$> seq (S a) n)) with (delete i (g <$> seq (S a) n)).
    rewrite IH by lia. f_equal. apply filter_ext_in. intros j _. lia.
Qed.

Lemma imap_fmap_seq {A B : Type} (f : nat → A → B) (g : nat → A) (a n : nat) :
  imap (fun i => f (a + i)) (g <$> seq a n) = (fun i => f i (g i)) <$> seq a n.
Proof.
  revert a. induction n as [|n IH]; intros a; [reflexivity|].
  cbn [seq]. rewrite !fmap_cons. cbn [imap]. rewrite Nat.add_0_r. f_equal.
  rewrite <- IH. apply imap_ext. intros i x _. cbn. f_equal. lia.
Qed.

Section VicReg.
Import SimCLRSolver.
Context {T : Type} `{Backend T}.

(** [off_diagonal] of a square matrix: every row without its diagonal
      entry, in the order of the rows. *)
Lemma off_diagonal_square (x : list (list T)) :
    Forall (fun row => length row = length x) x →
    off_diagonal x = Ok (concat (imap (fun i row => delete i row) x)).
Proof.
    intros Hsq. destruct x as [|r rest]; [reflexivity|].
    pose proof (length_concat_uniform _ _ Hsq) as Hflat.
    inversion Hsq as [|? ? Hr Hrest]; subst.
    set (n := length (r :: rest)) in *.
    assert (n = S (length rest)) as Hn by reflexivity.
    unfold off_diagonal. fold n. cbn [ncols]. rewrite Hr.
    rewrite bool_decide_eq_true_2 by reflexivity. cbn [py_assert mbind result_bind].
    unfold view. rewrite decide_True.
    2:{ rewrite removelast_firstn_len.
        change (firstn (Init.Nat.pred (length (concat (r :: rest)))) (concat (r :: rest)))
          with (take (Init.Nat.pred (length (concat (r :: rest)))) (concat (r :: rest))).
        rewrite length_take, Hflat. nia. }
    cbn [mbind result_bind].
    rewrite chunks_removelast by (rewrite Hflat; nia).
    replace (n - 1) with (length rest) by lia.
    cbn [concat imap].
    rewrite <- (drop_0 r) at 1.
    rewrite (between_diagonals n 0 r rest Hr Hrest) by lia.
    rewrite (delete_take_drop r 0). reflexivity.
Qed.

(** An entry of [(z.T @ z) / k]. *)
Definition cov_entry (z : list (list T)) (k : Z) (i j : nat) : T :=
    div (dot (column zero z i) (column zero z j)) (of_Z k).

(** The entries [entry i j] with [i ≠ j] of a [dim x dim] matrix. *)
Definition off_diagonal_entries (dim : nat) (entry : nat → nat → T) : list T :=
    concat ((fun i => entry i <$> filter (fun j => j ≠ i) (seq 0 dim)) <$> seq 0 dim).

Lemma cov_rows dim z k :
    cov dim z k = (fun i => cov_entry z k i <$> seq 0 dim) <$> seq 0 dim.
Proof.
    unfold cov, matmul_cols, transpose. rewrite <- !list_fmap_compose.
    apply list_fmap_ext. intros _ i _. cbn. rewrite <- !list_fmap_compose. reflexivity.
Qed.

Lemma off_diagonal_cov dim z k :
    off_diagonal (cov dim z k) = Ok (off_diagonal_entries dim (cov_entry z k)).
Proof.
    rewrite cov_rows, off_diagonal_square.
    - f_equal. unfold off_diagonal_entries. f_equal.
      rewrite (imap_fmap_seq (fun i row => delete i row)
                 (fun i => cov_entry z k i <$> seq 0 dim) 0 dim).
      apply Forall_fmap_ext, Forall_forall. intros i Hi. apply elem_of_seq in Hi.
      rewrite delete_fmap_seq by lia. reflexivity.
    - rewrite length_fmap, length_seq. apply Forall_fmap, Forall_forall. intros i _. cbn.
      rewrite length_fmap, length_seq. reflexivity.
Qed.

(** The mean of the squared differences of all entries. *)
Definition mean_squared_error (a b : list (list T)) : T :=
    mean (concat (zip_with (zip_with (fun x y => let d := sub x y in mul d d)) a b)).

(** [mean(relu(1 - sqrt(variance + 0.0001)))] over the columns. *)
Definition std_loss (dim : nat) (z : list (list T)) : T :=
    mean ((fun j => relu (sub one (t_sqrt (add (var (column zero z j))
                                               (of_Q (1 # 10000))))))
            <$> seq 0 dim).

(** The sum of the squared off-diagonal entries of [z.T @ z / k], over
      the feature dimension. *)
Definition cov_loss (dim : nat) (z : list (list T)) (k : Z) : T :=
    div (t_sum ((fun x => t_pow x (of_Q 2)) <$> off_diagonal_entries dim (cov_entry z k)))
        (of_nat dim).

(** A mean-centered half, in the words of the claim: every entry minus
      the mean of its column. *)
Definition mean_centered (dim : nat) (z : list (list T)) : list (list T) :=
    (fun row => (fun j => sub (nth j row zero) (mean ((fun r => nth j r zero) <$> z)))
                  <$> seq 0 dim) <$> z.

Lemma center_mean_centered dim (z : list (list T)) :
    Forall (fun row => length row = dim) z → center dim z = mean_centered dim z.
Proof.
    intros Hrows. unfold center, mean_centered.
    apply Forall_fmap_ext. eapply Forall_impl; [exact Hrows|]. intros row Hrow.
    cbn beta in Hrow |- *.
    apply list_eq. intros i. rewrite lookup_zip_with, !list_lookup_fmap.
    destruct (decide (i < dim)) as [Hi|Hi].
    - rewrite lookup_seq_lt by exact Hi. cbn.
      destruct (lookup_lt_is_Some_2 row i ltac:(lia)) as [x Hx]. rewrite Hx. cbn.
      rewrite (nth_lookup_Some _ _ zero _ Hx). reflexivity.
    - rewrite lookup_seq_ge by lia. cbn.
      destruct (row !! i); reflexivity.
Qed.

Definition vicReg_value (args : Args T) (dim : nat) (features : list (list T)) : T :=
    let b := length features / 2 in
    let z_1 := mean_centered dim (take b features) in
    let z_2 := mean_centered dim (drop b features) in
    add (add (mul (mean_squared_error (take b features) (drop b features))
                  (lambda_vicReg_pos args))
             (mul (add (div (std_loss dim z_1) (of_Q 2)) (div (std_loss dim z_2) (of_Q 2)))
                  (lambda_vicReg_std args)))
        (mul (add (cov_loss dim z_1 (Z.of_nat b - 1)) (cov_loss dim z_2 (Z.of_nat b - 1)))
             (lambda_vicReg_cov args)).

(** C6.  A feature batch with an even number of rows, each of the
      [dim = features.shape[1]] entries that the rows of the tensor have,
      is split into two halves of equal length, and [vicReg_loss] returns
      the mean squared error between the halves times [lambda_vicReg_pos],
      plus the sum over both mean-centered halves of
      [mean(relu(1 - sqrt(columnwise variance + 0.0001))) / 2] times
      [lambda_vicReg_std], plus the sum over both mean-centered halves of
      the squared off-diagonal entries of [z.T @ z / (b - 1)] over the
      feature dimension, times [lambda_vicReg_cov]. *)
Theorem vicReg_loss_spec (args : Args T) (dim : nat) (features : list (list T)) :
    Nat.Even (length features) →
    Forall (fun row => length row = dim) features →
    let b := length features / 2 in
    length (take b features) = b ∧ length (drop b features) = b ∧
    vicReg_loss args dim features = Ok (vicReg_value args dim features).
Proof.
    intros [h Hh] Hrows b.
    assert (b = h) as Hb by (subst b; rewrite Hh, Nat.mul_comm; apply Nat.div_mul; lia).
    assert (length (take b features) = b) as H1 by (rewrite length_take; lia).
    assert (length (drop b features) = b) as H2 by (rewrite length_drop; lia).
    split; [exact H1|]. split; [exact H2|].
    unfold vicReg_loss. fold b.
    unfold mse_loss. rewrite decide_True by congruence. cbn [mbind result_bind].
    rewrite !off_diagonal_cov. cbn [mbind result_bind].
    rewrite (center_mean_centered dim (take b features)) by (apply Forall_take, Hrows).
    rewrite (center_mean_centered dim (drop b features)) by (apply Forall_drop, Hrows).
    unfold vicReg_value. fold b. unfold std_loss, cov_loss, sum_of_squares, std,
      mean_squared_error.
    rewrite <- !list_fmap_compose. reflexivity.
Qed.
End VicReg.

Module VicRegExamples.
Import Exact SimCLRSolver.

Example off_diagonal_3x3 :
    off_diagonal [[Rat 1; Rat 2; Rat 3]; [Rat 4; Rat 5; Rat 6]; [Rat 7; Rat 8; Rat 9]]
    = Ok [Rat 2; Rat 3; Rat 4; Rat 6; Rat 7; Rat 8].
Proof. reflexivity. Qed.

Example off_diagonal_not_square :
    off_diagonal [[Rat 1; Rat 2; Rat 3]; [Rat 4; Rat 5; Rat 6]] = Error AssertFailed.
Proof. reflexivity. Qed.

(** Four rows of two features: the halves differ by 1 in every entry. *)
Definition features : list (list xrat) :=
    [[Rat 1; Rat 0]; [Rat 3; Rat 2]; [Rat 2; Rat 1]; [Rat 4; Rat 3]].

Example halves_one_apart :
    mean_squared_error (take 2 features) (drop 2 features) = Rat 1.
Proof. reflexivity. Qed.

(** With three rows the halves have one and two rows, and the single
      row is compared with both. *)
Example odd_number_of_rows :
    mse_loss (take 1 features) (drop 1 (take 3 features)) = Ok (Rat (5 # 2)).
Proof. vm_compute. reflexivity. Qed.

(** Both columns of a centered half are (-1, 1): the covariance matrix
      has the entry 2 everywhere. *)
Example covariance_of_half :
    cov 2 (center 2 (take 2 features)) 1 = [[Rat 2; Rat 2]; [Rat 2; Rat 2]].
Proof. vm_compute. reflexivity. Qed.

(** The halves are one apart (25), both columns of a centered half
      are (-1, 1), with variance 2 and no variance loss, and the
      covariances off the diagonal are 2: 4 for each half. *)
Example loss_of_four_rows :
    vicReg_loss InfoNCEExamples.args 2 features = Ok (Rat 33).
Proof. vm_compute. reflexivity. Qed.

Example centered_half :
    mean_centered 2 (take 2 features) = [[Rat (-1); Rat (-1)]; [Rat 1; Rat 1]].
Proof. vm_compute. reflexivity. Qed.

Lemma vicReg_loss_spec_witness :
    (length (take 2 features) = 2 ∧ length (drop 2 features) = 2 ∧
     vicReg_loss InfoNCEExamples.args 2 features
     = Ok (vicReg_value InfoNCEExamples.args 2 features)) ∧
    vicReg_value InfoNCEExamples.args 2 features = Rat 33.
Proof.
    split; [|vm_compute; reflexivity].
    apply (vicReg_loss_spec InfoNCEExamples.args 2 features).
    - exists 2. reflexivity.
    - repeat constructor.
Defined.
End VicRegExamples.

(** ** training/OversampleSolver.py: the pseudo bias label *)

Section PseudoLabel.
Import OversampleSolver.
Context {T : Type} `{Backend T}.
Implicit Types (args : Args T) (files : Files T).

(** The scores in the file of [ld]. *)
Definition file_of args files (ld : T) : list T :=
    default [] (tensors files !! score_file_name args ld).

(** The arithmetic mean as the code accumulates it: the first summand,
      then the others in order, over the number of summands. *)
Definition running_mean (xs : list T) : T :=
    match xs with
    | [] => div zero (of_nat 0)
    | x :: rest => div (fold_left add rest x) (of_nat (length xs))
    end.

(** The pseudo label of the claim: 1 exactly when the mean of the scores
      of sample [i] over the files named by [lambda_list] exceeds the
      cutoff. *)
Definition claimed_pseudo_label args files (i : nat) : T :=
    of_bool (gtb (mean ((fun ld => nth i (file_of args files ld) zero) <$> lambda_list args))
                 (cutoff args)).

Definition nonzero (ld : T) : Prop := eqb ld zero = false.

Lemma iadd_same_length (a b : list T) :
    length a = length b → iadd a b = Ok (zip_with add a b).
Proof. intros Hl. unfold iadd. rewrite decide_True by exact Hl. reflexivity. Qed.

Lemma sum_scores args files (n : nat) (lds : list T) (score : list T) :
    length score = n →
    Forall (fun ld => nonzero ld →
                      ∃ f, tensors files !! score_file_name args ld = Some f ∧ length f = n)
           lds →
    foldM (fun score ld =>
             if eqb ld zero then Ok score
             else new_score ← torch_load files (score_file_name args ld);
                  iadd score new_score)
          score lds
    = Ok (fold_left (zip_with add) (file_of args files <$> filter nonzero lds) score).
Proof.
    intros Hs Hlds. revert score Hs.
    induction Hlds as [|ld lds Hld _ IH]; intros score Hs; [reflexivity|].
    cbn [foldM]. rewrite filter_cons.
    destruct (decide (nonzero ld)) as [E|E].
    - destruct (Hld E) as (f & Hf & Hlen). unfold nonzero in E. rewrite E.
      assert (torch_load files (score_file_name args ld) = Ok f) as ->
        by (unfold torch_load; rewrite Hf; reflexivity).
      cbn [mbind result_bind].
      rewrite iadd_same_length by congruence. cbn [mbind result_bind].
      rewrite fmap_cons. cbn [fold_left].
      assert (file_of args files ld = f) as ->
        by (unfold file_of; rewrite Hf; reflexivity).
      apply IH. rewrite length_zip_with_l_eq; congruence.
    - unfold nonzero in E. apply not_false_iff_true in E. rewrite E.
      cbn [mbind result_bind]. apply IH, Hs.
Qed.

Lemma fold_zip_with_add_lookup (fs : list (list T)) (score : list T) (i : nat) :
    Forall (fun f => length f = length score) fs → i < length score →
    fold_left (zip_with add) fs score !! i
    = Some (fold_left add ((fun f => nth i f zero) <$> fs) (nth i score zero)).
Proof.
    intros Hfs. revert score Hfs. induction fs as [|f fs IH]; intros score Hfs Hi.
    - cbn. destruct (lookup_lt_is_Some_2 score i Hi) as [x Hx]. rewrite Hx.
      f_equal. symmetry. apply nth_lookup_Some with (d := zero) in Hx. exact Hx.
    - inversion Hfs as [|? ? Hf Hrest]; subst. cbn [fold_left fmap list_fmap].
      rewrite IH.
      + f_equal. f_equal.
        destruct (lookup_lt_is_Some_2 score i Hi) as [x Hx].
        destruct (lookup_lt_is_Some_2 f i ltac:(lia)) as [y Hy].
        assert (zip_with add score f !! i = Some (add x y)) as Hz
          by (rewrite lookup_zip_with, Hx; cbn; rewrite Hy; reflexivity).
        apply nth_lookup_Some with (d := zero) in Hx, Hy, Hz. congruence.
      + rewrite length_zip_with_l_eq by congruence.
        eapply Forall_impl; [exact Hrest|]. cbn. intros; congruence.
      + rewrite length_zip_with_l_eq by congruence. exact Hi.
Qed.

Lemma length_fold_zip_with_add (fs : list (list T)) (score : list T) :
    Forall (fun f => length f = length score) fs →
    length (fold_left (zip_with add) fs score) = length score.
Proof.
    revert score. induction fs as [|f fs IH]; intros score Hfs; [reflexivity|].
    inversion Hfs as [|? ? Hf Hrest]; subst. cbn [fold_left].
    rewrite IH; rewrite length_zip_with_l_eq by congruence; [reflexivity|].
    eapply Forall_impl; [exact Hrest|]. cbn. intros; congruence.
Qed.

Lemma nonzero_of_split (pre post : list T) :
    Forall nonzero (pre ++ post) → eqb zero zero = true →
    filter nonzero (pre ++ zero :: post) = pre ++ post.
Proof.
    intros Hnz Hz. apply Forall_app in Hnz as [Hpre Hpost].
    rewrite filter_app, filter_cons, (filter_all _ pre), (filter_all _ post) by assumption.
    rewrite decide_False; [reflexivity|]. unfold nonzero. rewrite Hz. discriminate.
Qed.

(** C2, amended.  When [lambda_list] names 0 exactly once,
      [make_pseudo_label] saves, for every sample index, the label 1
      exactly when the arithmetic mean of the sample's scores over the
      files named by [lambda_list] -- the file of 0 first, then the files
      of the other lambdas in their order, over the length of
      [lambda_list] -- is strictly greater than the cutoff, and 0
      otherwise. *)
Theorem make_pseudo_label_mean args files (pre post : list T) (n : nat) :
    lambda_list args = pre ++ zero :: post →
    Forall nonzero (pre ++ post) →
    eqb zero zero = true →
    (∀ ld, ld ∈ lambda_list args →
           ∃ f, tensors files !! score_file_name args ld = Some f ∧ length f = n) →
    (data args ≠ "imagenet" →
     is_Some (tensors files !! ospj (checkpoint_dir args) "debias_idx.pth")) →
    ∃ files' labels,
      make_pseudo_label args files = Ok files' ∧
      tensors files' !! wrong_index_final args = Some labels ∧
      length labels = n ∧
      zero :: pre ++ post ≡ₚ lambda_list args ∧
      ∀ i, i < n →
        labels !! i
        = Some (of_bool (gtb (running_mean ((fun ld => nth i (file_of args files ld) zero)
                                              <$> (zero :: pre ++ post)))
                             (cutoff args))).
Proof.
    intros Hlist Hnz Hz Hfiles Hdebias.
    destruct (Hfiles zero) as (f0 & Hf0 & Hlen0).
    { rewrite Hlist. apply elem_of_app. right. apply list_elem_of_here. }
    unfold make_pseudo_label.
    assert (torch_load files (score_file_name args zero) = Ok f0) as ->
      by (unfold torch_load; rewrite Hf0; reflexivity).
    cbn [mbind result_bind].
    rewrite (sum_scores args files n); [|exact Hlen0|].
    2:{ apply Forall_forall. intros ld Hld _. apply Hfiles, Hld. }
    cbn [mbind result_bind]. rewrite Hlist, (nonzero_of_split pre post Hnz Hz).
    set (total := fold_left (zip_with add) (file_of args files <$> pre ++ post) f0).
    set (labels := (fun x => of_bool (gtb x (cutoff args)))
                     <$> ((fun x => div x (of_nat (length (pre ++ zero :: post)))) <$> total)).
    assert (Forall (fun f => length f = length f0) (file_of args files <$> pre ++ post))
      as Hall.
    { apply Forall_fmap, Forall_forall. intros ld Hld. cbn.
      destruct (Hfiles ld) as (f & Hf & Hlen).
      { rewrite Hlist. apply elem_of_app in Hld as [Hld|Hld]; apply elem_of_app;
          [left | right; apply list_elem_of_further]; exact Hld. }
      unfold file_of. rewrite Hf. cbn. congruence. }
    assert (∀ i, i < n →
              total !! i = Some (fold_left add ((fun f => nth i f zero)
                                                  <$> (file_of args files <$> pre ++ post))
                                           (nth i f0 zero))) as Htotal.
    { intros i Hi. apply fold_zip_with_add_lookup; [exact Hall | lia]. }
    assert (length total = n) as Hlt.
    { subst total. rewrite length_fold_zip_with_add; assumption. }
    assert (∃ files', (if bool_decide (data args ≠ "imagenet")
                       then _ ← torch_load (torch_save files (wrong_index_final args) labels)
                                    (ospj (checkpoint_dir args) "debias_idx.pth");
                            Ok (torch_save files (wrong_index_final args) labels)
                       else Ok (torch_save files (wrong_index_final args) labels))
                      = Ok files' ∧ files' = torch_save files (wrong_index_final args) labels)
      as (files' & -> & ->).
    { destruct (bool_decide (data args ≠ "imagenet")) eqn:Ed; [|eauto].
      apply bool_decide_eq_true in Ed. destruct (Hdebias Ed) as [d Hd].
      unfold torch_load, torch_save. cbn [tensors].
      destruct (decide (wrong_index_final args = ospj (checkpoint_dir args) "debias_idx.pth"))
        as [->|Hne].
      - rewrite lookup_insert_eq. cbn. eauto.
      - rewrite lookup_insert_ne by exact Hne. rewrite Hd. cbn. eauto. }
    exists (torch_save files (wrong_index_final args) labels), labels.
    split; [reflexivity|]. split; [apply lookup_insert_eq|]. split.
    { subst labels. rewrite !length_fmap. exact Hlt. }
    split.
    { apply Permutation_middle. }
    intros i Hi. subst labels. rewrite !list_lookup_fmap, (Htotal i Hi). cbn.
    assert (file_of args files zero = f0) as -> by (unfold file_of; rewrite Hf0; reflexivity).
    rewrite <- list_fmap_compose, length_fmap.
    replace (S (length (pre ++ post))) with (length (pre ++ zero :: post))
      by (rewrite !length_app; cbn; lia).
    reflexivity.
Qed.
End PseudoLabel.

Module PseudoLabelExamples.
Import Exact OversampleSolver.

Definition template (ld : xrat) : string :=
    match ld with
    | Rat q => if Qeq_bool q 0 then "scores/lambda_0.0"
               else if Qeq_bool q 1 then "scores/lambda_1.0" else "scores/lambda_x"
    | NaN => "scores/lambda_nan"
    end.

Definition args (lambdas : list xrat) (upweight : xrat) (given : option string)
      : Args xrat :=
    {| score_file_template := template; lambda_list := lambdas; cutoff := Rat (1 # 2);
       checkpoint_dir := "ckpt"; data := "celebA"; oversample_pth := given;
       simclr_epochs := 100; finetune := true; finetune_ratio := "0.1";
       lambda_upweight := upweight |}.

(** Score files of three samples for lambda 0 and lambda 1. *)
Definition files : Files xrat :=
    {| tensors := {[ "scores/lambda_0.0/score_idx.pth" := [Rat (1 # 2); Rat 1; Rat 0];
                     "scores/lambda_1.0/score_idx.pth" := [Rat (1 # 2); Rat (1 # 2); Rat (1 # 2)];
                     "ckpt/debias_idx.pth" := [Rat 0; Rat 1; Rat 0] ]};
       arrays := {[ "ckpt/subset_indices_0.1.npy" := [0] ]} |}.

(** The means are 1/2, 3/4 and 1/4: only the second exceeds the cutoff
      1/2. *)
Example ensemble_of_two :
    (fun fs => tensors fs !! "ckpt/wrong_index_final.pth")
      <$> make_pseudo_label (args [Rat 0; Rat 1] (Rat 5) None) files
    = Ok (Some [Rat 0; Rat 1; Rat 0]).
Proof. vm_compute. reflexivity. Qed.

Lemma make_pseudo_label_mean_witness :
    ∃ files' labels,
      make_pseudo_label (args [Rat 0; Rat 1] (Rat 5) None) files = Ok files' ∧
      tensors files' !! wrong_index_final (args [Rat 0; Rat 1] (Rat 5) None) = Some labels ∧
      length labels = 3 ∧
      zero :: [] ++ [Rat 1] ≡ₚ lambda_list (args [Rat 0; Rat 1] (Rat 5) None) ∧
      ∀ i, i < 3 →
        labels !! i
        = Some (of_bool
                  (gtb (running_mean
                          ((fun ld => nth i (file_of (args [Rat 0; Rat 1] (Rat 5) None)
                                                     files ld) zero)
                             <$> (zero :: [] ++ [Rat 1])))
                       (cutoff (args [Rat 0; Rat 1] (Rat 5) None)))).
Proof.
    apply (make_pseudo_label_mean (args [Rat 0; Rat 1] (Rat 5) None) files [] [Rat 1] 3).
    - reflexivity.
    - repeat constructor.
    - reflexivity.
    - intros ld Hld. cbn in Hld.
      apply elem_of_cons in Hld as [-> | Hld]; [eexists; split; [reflexivity | reflexivity]|].
      apply elem_of_cons in Hld as [-> | Hld]; [eexists; split; [reflexivity | reflexivity]|].
      inversion Hld.
    - intros _. eexists. reflexivity.
Defined.

(** C2 as stated fails when [lambda_list] does not name 0: the file of
      lambda 0 is added all the same, and the sum of two files is divided
      by one.  The scores of the files named by [lambda_list] are 1/2
      for every sample, which is not above the cutoff. *)
Lemma pseudo_label_without_lambda_0 :
    (∃ files',
       make_pseudo_label (args [Rat 1] (Rat 5) None) files = Ok files' ∧
       tensors files' !! wrong_index_final (args [Rat 1] (Rat 5) None)
       = Some [Rat 1; Rat 1; Rat 0]) ∧
    claimed_pseudo_label (args [Rat 1] (Rat 5) None) files <$> [0; 1; 2]
    = [Rat 0; Rat 0; Rat 0].
Proof.
    split.
    - eexists. split; [vm_compute; reflexivity|]. vm_compute. reflexivity.
    - vm_compute. reflexivity.
Qed.
End PseudoLabelExamples.

(** ** training/OversampleSolver.py: what [make_pseudo_label] leaves *)

Section PseudoLabelSaved.
Import OversampleSolver.
Context {T : Type} `{Backend T}.
Implicit Types (args : Args T) (files : Files T).

Lemma iadd_length (score new_score total : list T) :
    iadd score new_score = Ok total → length total = length score.
Proof.
    unfold iadd. destruct (decide (length score = length new_score)) as [E|E].
    - intros [= <-]. apply length_zip_with_l_eq, E.
    - destruct new_score as [|y [|y' rest]]; try discriminate.
      intros [= <-]. apply length_fmap.
Qed.

Lemma score_loop_length args files (lds : list T) (score total : list T) :
    foldM (fun score ld =>
             if eqb ld zero then Ok score
             else new_score ← torch_load files (score_file_name args ld);
                  iadd score new_score)
          score lds = Ok total →
    length total = length score.
Proof.
    revert score. induction lds as [|ld lds IH]; intros score Hf.
    - injection Hf as <-. reflexivity.
    - cbn [foldM] in Hf. apply bind_Ok_inv in Hf as (s1 & H1 & Hf).
      rewrite (IH _ Hf). destruct (eqb ld zero).
      + injection H1 as <-. reflexivity.
      + apply bind_Ok_inv in H1 as (new_score & _ & H1). apply (iadd_length _ _ _ H1).
Qed.

Lemma debias_is_not_final args :
    ospj (checkpoint_dir args) "debias_idx.pth" ≠ wrong_index_final args.
Proof.
    unfold wrong_index_final, ospj. intros Heq.
    apply (inj (String.app (checkpoint_dir args))) in Heq. discriminate.
Qed.

Lemma make_pseudo_label_inv args files files' :
    make_pseudo_label args files = Ok files' →
    arrays files' = arrays files ∧
    ∃ score pseudo_label,
      tensors files !! score_file_name args zero = Some score ∧
      tensors files' = <[wrong_index_final args := pseudo_label]> (tensors files) ∧
      length pseudo_label = length score ∧
      Forall (fun x => x = zero ∨ x = one) pseudo_label ∧
      (data args ≠ "imagenet" →
       is_Some (tensors files !! ospj (checkpoint_dir args) "debias_idx.pth")).
Proof.
    intros Hm. unfold make_pseudo_label in Hm.
    apply bind_Ok_inv in Hm as (score & Hload & Hm).
    apply bind_Ok_inv in Hm as (total & Hloop & Hm).
    apply score_loop_length in Hloop.
    unfold torch_load in Hload.
    destruct (tensors files !! score_file_name args zero) as [score0|] eqn:Hscore;
      [|discriminate].
    injection Hload as ->.
    set (pseudo_label := (fun x => of_bool (gtb x (cutoff args)))
                           <$> ((fun x => div x (of_nat (length (lambda_list args))))
                                  <$> total)) in Hm.
    assert (files' = torch_save files (wrong_index_final args) pseudo_label
            ∧ (data args ≠ "imagenet" →
               is_Some (tensors files !! ospj (checkpoint_dir args) "debias_idx.pth")))
      as [-> Hdebias].
    { destruct (bool_decide (data args ≠ "imagenet")) eqn:Hd.
      - apply bind_Ok_inv in Hm as (debias & Hl & Hm). injection Hm as <-.
        split; [reflexivity|]. intros _.
        unfold torch_load, torch_save in Hl. cbn [tensors] in Hl.
        rewrite lookup_insert_ne in Hl by (apply not_eq_sym, debias_is_not_final).
        destruct (tensors files !! ospj (checkpoint_dir args) "debias_idx.pth") as [d|];
          [eauto | discriminate].
      - injection Hm as <-. split; [reflexivity|]. intros Hne.
        apply bool_decide_eq_false_1 in Hd. contradiction. }
    split; [reflexivity|]. exists score, pseudo_label.
    split; [reflexivity|]. split; [reflexivity|]. split; [|split; [|exact Hdebias]].
    - subst pseudo_label. rewrite !length_fmap. exact Hloop.
    - subst pseudo_label. apply Forall_fmap, Forall_forall. intros x _. cbn.
      unfold of_bool. destruct (gtb _ _); auto.
Qed.

Lemma tensor_exists files (pth : string) :
    is_Some (tensors files !! pth) → path_exists files pth = true.
Proof.
    intros Hp. unfold path_exists. rewrite bool_decide_eq_true_2 by exact Hp. reflexivity.
Qed.
End PseudoLabelSaved.

(** ** The sampling weights with finetune *)

Section Upweights.
Context {T : Type} `{Backend T}.

(** What the claim says of the weights [u] computed from [wrong_label]
      and the finetune subset. *)
Definition weights_as_claimed (lambda_upweight : T) (subset : list nat)
      (wrong_label u : list T) : Prop :=
    length u = length wrong_label ∧
    ∀ i w, wrong_label !! i = Some w →
      (eqb w one = true → u !! i = Some lambda_upweight) ∧
      (u !! i = Some zero ↔ (i ∉ subset) ∧ eqb w one = false).

Lemma upweight_of_finetune (files : Files T) (path : string) (subset : list nat)
      (lambda_upweight : T) (wrong_label : list T) :
    arrays files !! path = Some subset →
    upweight_of files true path lambda_upweight wrong_label
    = Ok (imap (fun i w => if eqb w one then lambda_upweight
                           else if decide (i ∈ subset) then one else zero)
               wrong_label).
Proof.
    intros Hsub. unfold upweight_of, np_load. rewrite Hsub. cbn [of_option mbind result_bind].
    f_equal. apply list_eq. intros i.
    rewrite lookup_zip_with, !list_lookup_imap.
    destruct (wrong_label !! i) as [w|] eqn:E; [|reflexivity]. cbn.
    rewrite lookup_replicate_2 by (eapply lookup_lt_Some, E). cbn.
    destruct (eqb w one); [reflexivity|]. destruct (decide (i ∈ subset)); reflexivity.
Qed.

(** What the amended claim says of the weights: the first half without
      a condition, the second for a [lambda_upweight] other than 0. *)
Definition weights_as_amended (lambda_upweight : T) (subset : list nat)
      (wrong_label u : list T) : Prop :=
    length u = length wrong_label ∧
    (∀ i w, wrong_label !! i = Some w → eqb w one = true →
            u !! i = Some lambda_upweight) ∧
    (lambda_upweight ≠ zero → one ≠ zero →
     ∀ i w, wrong_label !! i = Some w →
            (u !! i = Some zero ↔ (i ∉ subset) ∧ eqb w one = false)).

Lemma imap_weights_as_amended (lambda_upweight : T) subset wrong_label :
    weights_as_amended lambda_upweight subset wrong_label
      (imap (fun i w => if eqb w one then lambda_upweight
                        else if decide (i ∈ subset) then one else zero)
            wrong_label).
Proof.
    split; [apply length_imap|]. split.
    - intros i w Hw E. rewrite list_lookup_imap, Hw. cbn. rewrite E. reflexivity.
    - intros Hl H1 i w Hw. rewrite list_lookup_imap, Hw. cbn.
      destruct (eqb w one) eqn:E.
      + split; [intros [= Heq]; contradiction | intros [_ ?]; discriminate].
      + destruct (decide (i ∈ subset)) as [Hin|Hin].
        * split; [intros [= Heq]; contradiction | intros [? _]; contradiction].
        * split; [auto | reflexivity].
Qed.

(** C10, amended.  With [finetune], both
      [OversampleSolver.train_with_oversampling] -- with a given label
      file, with the file 'wrong_index_final.pth' that is there, or with
      the one that [make_pseudo_label] makes first -- and the matching
      branch of [ERMSolver.__init__] give a sample whose [wrong_label] is
      1 the weight [lambda_upweight], inside the finetune subset or not,
      because that assignment comes after the zeroing; and,
      [lambda_upweight] being non-zero, the weight 0 goes exactly to the
      samples outside the subset whose [wrong_label] is not 1. *)
Theorem upweight_after_zeroing :
    (∀ (args : OversampleSolver.Args T) loads files files1 pth wrong_label subset,
       OversampleSolver.finetune args = true →
       ((OversampleSolver.oversample_pth args = Some pth ∧ files1 = files) ∨
        (OversampleSolver.oversample_pth args = None ∧
         pth = OversampleSolver.wrong_index_final args ∧ files1 = files) ∨
        (OversampleSolver.oversample_pth args = None ∧
         pth = OversampleSolver.wrong_index_final args ∧
         path_exists files pth = false ∧
         OversampleSolver.make_pseudo_label args files = Ok files1)) →
       tensors files1 !! pth = Some wrong_label →
       loads (OversampleSolver.simclr_epochs args) "biased_simclr" = true →
       arrays files1 !! subset_path (OversampleSolver.checkpoint_dir args)
                                    (OversampleSolver.finetune_ratio args) = Some subset →
       ∃ u, OversampleSolver.train_with_oversampling args loads files
            = Ok (u, "debiased_finetune", true) ∧
            weights_as_amended (OversampleSolver.lambda_upweight args) subset wrong_label u) ∧
    (∀ (args : ERMSolver.Args T) files pth wrong_label subset,
       ERMSolver.finetune args = true →
       ERMSolver.oversample_pth args = Some pth →
       eqb (ERMSolver.lambda_upweight args) one = false →
       tensors files !! pth = Some wrong_label →
       arrays files !! subset_path (ERMSolver.checkpoint_dir args)
                                   (ERMSolver.finetune_ratio args) = Some subset →
       ∃ u, ERMSolver.init_upweight args files = Ok (Some u) ∧
            weights_as_amended (ERMSolver.lambda_upweight args) subset wrong_label u).
Proof.
    split.
    - intros args loads files files1 pth wrong subset Hft Hsrc Hw Hload Hsub.
      assert (path_exists files1 pth = true) as Hex by (apply tensor_exists; eauto).
      assert ((match OversampleSolver.oversample_pth args with
               | Some pth =>
                   if negb (path_exists files pth)
                   then Error (Raised "ValueError" (pth +:+ " does not exists"))
                   else Ok (pth, files)
               | None =>
                   files ← (if path_exists files (OversampleSolver.wrong_index_final args)
                            then Ok files
                            else OversampleSolver.make_pseudo_label args files);
                   Ok (OversampleSolver.wrong_index_final args, files)
               end) = Ok (pth, files1)) as Hfirst.
      { destruct Hsrc as [[-> ->] | [(-> & -> & ->) | (-> & -> & Hno & Hmake)]].
        - rewrite Hex. reflexivity.
        - rewrite Hex. reflexivity.
        - rewrite Hno, Hmake. reflexivity. }
      unfold OversampleSolver.train_with_oversampling. rewrite Hfirst.
      cbn [mbind result_bind]. rewrite Hload, Hex. cbn [andb mbind result_bind].
      unfold torch_load. rewrite Hw. cbn [of_option mbind result_bind].
      rewrite Hft, (upweight_of_finetune _ _ subset) by exact Hsub.
      cbn [negb mbind result_bind].
      eexists. split; [reflexivity|]. apply imap_weights_as_amended.
    - intros args files pth wrong subset Hft Hpth Hne Hw Hsub.
      unfold ERMSolver.init_upweight. rewrite Hpth, Hne. cbn [negb].
      unfold torch_load. rewrite Hw. cbn [of_option mbind result_bind].
      rewrite Hft, (upweight_of_finetune _ _ subset) by exact Hsub.
      cbn [mbind result_bind].
      eexists. split; [reflexivity|]. apply imap_weights_as_amended.
Qed.
End Upweights.

Module UpweightExamples.
Import Exact.

(** Pseudo labels of four samples; the finetune subset is {0, 1}. *)
Definition files : Files xrat :=
    {| tensors := {[ "ckpt/wrong.pth" := [Rat 1; Rat 0; Rat 1; Rat 0] ]};
       arrays := {[ "ckpt/subset_indices_0.1.npy" := [0; 1] ]} |}.

Definition args (upweight : xrat) : OversampleSolver.Args xrat :=
    PseudoLabelExamples.args [Rat 0] upweight (Some "ckpt/wrong.pth").

Definition erm_args (upweight : xrat) : ERMSolver.Args xrat :=
    {| ERMSolver.finetune := true; ERMSolver.data := "celebA";
       ERMSolver.bias_ratio := ""; ERMSolver.checkpoint_dir := "ckpt";
       ERMSolver.ERM_epochs := 1; ERMSolver.log_every_n_steps := 1;
       ERMSolver.oversample_pth := Some "ckpt/wrong.pth";
       ERMSolver.lambda_upweight := upweight; ERMSolver.finetune_ratio := "0.1" |}.

(** Sample 2 is outside the subset and still gets the weight 5. *)
Example weights_of_four :
    OversampleSolver.train_with_oversampling (args (Rat 5)) (fun _ _ => true) files
    = Ok ([Rat 5; Rat 1; Rat 5; Rat 0], "debiased_finetune", true) ∧
    ERMSolver.init_upweight (erm_args (Rat 5)) files
    = Ok (Some [Rat 5; Rat 1; Rat 5; Rat 0]).
Proof. split; vm_compute; reflexivity. Qed.

(** The files after [make_pseudo_label] on the score files of
      [PseudoLabelExamples]: the means are 1/2, 3/4 and 1/4. *)
Definition labelled_files : Files xrat :=
    torch_save PseudoLabelExamples.files "ckpt/wrong_index_final.pth"
               [Rat 0; Rat 1; Rat 0].

(** Without a given label file the labels are made first; sample 1 is
      outside the subset [0] and gets the weight 5. *)
Example weights_of_made_labels :
    OversampleSolver.train_with_oversampling
      (PseudoLabelExamples.args [Rat 0; Rat 1] (Rat 5) None) (fun _ _ => true)
      PseudoLabelExamples.files
    = Ok ([Rat 1; Rat 5; Rat 0], "debiased_finetune", true).
Proof. vm_compute. reflexivity. Qed.

Lemma upweight_after_zeroing_witness :
    (∃ u, OversampleSolver.train_with_oversampling
            (PseudoLabelExamples.args [Rat 0; Rat 1] (Rat 5) None) (fun _ _ => true)
            PseudoLabelExamples.files
          = Ok (u, "debiased_finetune", true) ∧
          weights_as_amended (Rat 5) [0] [Rat 0; Rat 1; Rat 0] u) ∧
    (∃ u, ERMSolver.init_upweight (erm_args (Rat 5)) files = Ok (Some u) ∧
          weights_as_amended (Rat 5) [0; 1] [Rat 1; Rat 0; Rat 1; Rat 0] u).
Proof.
    split.
    - apply (proj1 upweight_after_zeroing
               (PseudoLabelExamples.args [Rat 0; Rat 1] (Rat 5) None) (fun _ _ => true)
               PseudoLabelExamples.files labelled_files "ckpt/wrong_index_final.pth"
               [Rat 0; Rat 1; Rat 0] [0]).
      + reflexivity.
      + right. right. split; [reflexivity|]. split; [reflexivity|].
        split; vm_compute; reflexivity.
      + reflexivity.
      + reflexivity.
      + reflexivity.
    - apply (proj2 upweight_after_zeroing (erm_args (Rat 5)) files
               "ckpt/wrong.pth" [Rat 1; Rat 0; Rat 1; Rat 0] [0; 1]);
        solve [reflexivity | discriminate].
Defined.

(** C10 as stated fails for [lambda_upweight = 0]: sample 0 is inside
      the subset and its [wrong_label] is 1, yet its weight is 0. *)
Lemma zero_upweight_gives_weight_0_inside_subset :
    OversampleSolver.train_with_oversampling (args (Rat 0)) (fun _ _ => true) files
    = Ok ([Rat 0; Rat 1; Rat 0; Rat 0], "debiased_finetune", true) ∧
    ¬ weights_as_claimed (Rat 0) [0; 1] [Rat 1; Rat 0; Rat 1; Rat 0]
        [Rat 0; Rat 1; Rat 0; Rat 0].
Proof.
    split; [vm_compute; reflexivity|].
    intros [_ Hw]. destruct (Hw 0 (Rat 1) eq_refl) as [_ [Hzero _]].
    destruct (Hzero eq_refl) as [Hout _]. apply Hout. apply list_elem_of_here.
Qed.
End UpweightExamples.

(** ** Where the program raises *)

Lemma Ok_no_raise {A : Type} (a : A) : ¬ raises_explicitly (Ok a).
Proof. intros (c & m & E). discriminate. Qed.

Lemma library_no_raise {A : Type} (cls : string) :
  ¬ raises_explicitly (Error (A := A) (LibraryError cls)).
Proof. intros (c & m & E). discriminate. Qed.

Lemma assert_no_raise {A : Type} : ¬ raises_explicitly (Error (A := A) AssertFailed).
Proof. intros (c & m & E). discriminate. Qed.

Lemma bind_no_raise {A B : Type} (r : result A) (k : A → result B) :
  ¬ raises_explicitly r → (∀ a, ¬ raises_explicitly (k a)) → ¬ raises_explicitly (r ≫= k).
Proof.
  intros Hr Hk. destruct r as [a|e]; cbn; [apply Hk|].
  intros (c & m & E). apply Hr. exists c, m. congruence.
Qed.

Lemma fmap_no_raise {A B : Type} (f : A → B) (r : result A) :
  ¬ raises_explicitly r → ¬ raises_explicitly (f <$> r).
Proof.
  intros Hr. destruct r as [a|e]; cbn; [apply Ok_no_raise|].
  intros (c & m & E). apply Hr. exists c, m. congruence.
Qed.

Lemma foldM_no_raise {A S : Type} (f : S → A → result S) (s : S) (xs : list A) :
  (∀ s x, ¬ raises_explicitly (f s x)) → ¬ raises_explicitly (foldM f s xs).
Proof.
  intros Hf. revert s. induction xs as [|x xs IH]; intros s; cbn [foldM].
  - apply Ok_no_raise.
  - apply bind_no_raise; [apply Hf | exact IH].
Qed.

Lemma of_option_no_raise {A : Type} (cls : string) (o : option A) :
  ¬ raises_explicitly (of_option cls o).
Proof. destruct o; [apply Ok_no_raise | apply library_no_raise]. Qed.

Create HintDb model.
#[local] Hint Unfold getitem setitem py_assert py_index index_select torch_load np_load
  upweight_of
  CelebA.CelebA CelebA.load CelebA.dump CelebA.mkdir
  CelebA.attr_column CelebA.build_blonde CelebA.get_confusion_matrix
  ERMSolver.gather ERMSolver.cross_entropy_none
  OversampleSolver.iadd OversampleSolver.make_pseudo_label : model.

(** A computation built from library calls, assertions and returns does
    not run a [raise] statement. *)
Ltac no_raise :=
  repeat first
    [ progress intros
    | progress autounfold with model
    | apply Ok_no_raise
    | apply library_no_raise
    | apply assert_no_raise
    | apply of_option_no_raise
    | apply bind_no_raise
    | apply fmap_no_raise
    | apply foldM_no_raise
    | apply mapM_raises_explicitly
    | match goal with
      | |- ¬ raises_explicitly (if ?b then _ else _) => destruct b
      | |- ¬ raises_explicitly (match ?x with _ => _ end) => destruct x
      | |- ¬ raises_explicitly (let _ := _ in _) => cbv zeta
      end ].

Lemma raised_raises {A : Type} (r : result A) cls msg :
  r = Error (Raised cls msg) → raises_explicitly r.
Proof. intros E. exists cls, msg. exact E. Qed.

Lemma bind_raised_inv {A B : Type} (r : result A) (k : A → result B) cls msg :
  r ≫= k = Error (Raised cls msg) →
  r = Error (Raised cls msg) ∨ ∃ a, r = Ok a ∧ k a = Error (Raised cls msg).
Proof. destruct r as [a|e]; cbn; [eauto | intros [= ->]; auto]. Qed.

(** *** The constructor of the dataset *)

Lemma celeba_init_no_raise (w : CelebA.World) (root split target_attr : string) :
  target_attr = "blonde" ∨ target_attr = "makeup" →
  ¬ raises_explicitly (CelebA.init w root split target_attr).
Proof.
  intros [-> | ->]; unfold CelebA.init.
  - rewrite (bool_decide_eq_true_2 ("blonde" = "blonde")) by reflexivity. no_raise.
  - rewrite (bool_decide_eq_false_2 ("makeup" = "blonde")) by discriminate.
    rewrite (bool_decide_eq_true_2 ("makeup" = "makeup")) by reflexivity. no_raise.
Qed.

Lemma celeba_init_raised (w : CelebA.World) (root split target_attr cls msg : string) :
  CelebA.init w root split target_attr = Error (Raised cls msg)
  ↔ cls = "AttributeError" ∧ msg = "" ∧
    CelebA.celeba_error w root (if bool_decide (split = "valid") then "train" else split)
    = None ∧
    target_attr ≠ "blonde" ∧ target_attr ≠ "makeup".
Proof.
  split.
  - intros Hr.
    destruct (decide (target_attr = "blonde")) as [Hb|Hb];
      [destruct (celeba_init_no_raise w root split target_attr (or_introl Hb)
                   (raised_raises _ _ _ Hr))|].
    destruct (decide (target_attr = "makeup")) as [Hm|Hm];
      [destruct (celeba_init_no_raise w root split target_attr (or_intror Hm)
                   (raised_raises _ _ _ Hr))|].
    unfold CelebA.init, CelebA.CelebA in Hr.
    destruct (CelebA.celeba_error w root _) as [e|]; [discriminate|].
    cbn [mbind result_bind] in Hr.
    rewrite (bool_decide_eq_false_2 _ Hb), (bool_decide_eq_false_2 _ Hm) in Hr.
    injection Hr as <- <-. auto.
  - intros (-> & -> & Hdata & Hb & Hm). unfold CelebA.init, CelebA.CelebA.
    rewrite Hdata. cbn [mbind result_bind].
    rewrite (bool_decide_eq_false_2 _ Hb), (bool_decide_eq_false_2 _ Hm). reflexivity.
Qed.

Section Raises.
Context {T : Type} `{Backend T}.

Lemma make_pseudo_label_no_raise (args : OversampleSolver.Args T) files :
    ¬ raises_explicitly (OversampleSolver.make_pseudo_label args files).
Proof. no_raise. Qed.

(** *** The generalized cross-entropy loss *)

Lemma gce_raised (q : T) logits targets (cls msg : string) :
    ERMSolver.GeneralizedCELoss_forward q logits targets = Error (Raised cls msg)
    ↔ cls = "NameError" ∧
      ((msg = "GCE_p" ∧ isnan (mean (concat (softmax <$> logits))) = true) ∨
       (msg = "GCE_Yg" ∧ isnan (mean (concat (softmax <$> logits))) = false ∧
        ∃ Yg, ERMSolver.gather (softmax <$> logits) targets = Ok Yg ∧
              isnan (mean Yg) = true)).
Proof.
    unfold ERMSolver.GeneralizedCELoss_forward.
    destruct (isnan (mean (concat (softmax <$> logits)))) eqn:Ep.
    { split.
      - intros [= <- <-]. auto.
      - intros (-> & [[-> _] | (_ & Hf & _)]); [reflexivity | discriminate]. }
    assert (¬ raises_explicitly (ERMSolver.gather (softmax <$> logits) targets))
      as Hgather by no_raise.
    assert (¬ raises_explicitly (ERMSolver.cross_entropy_none logits targets))
      as Hce by no_raise.
    destruct (ERMSolver.gather (softmax <$> logits) targets) as [Yg|e] eqn:Eg.
    - cbn [mbind result_bind]. destruct (isnan (mean Yg)) eqn:Ey.
      + split.
        * intros [= <- <-]. split; [reflexivity|]. right. eauto.
        * intros (-> & [[_ ?] | (-> & _)]); [discriminate | reflexivity].
      + split.
        * intros Hr. exfalso.
          apply bind_raised_inv in Hr as [Hr | (ce & _ & Hr)]; [|discriminate].
          apply Hce. eauto using raised_raises.
        * intros (_ & [[_ ?] | (_ & _ & Yg' & [= <-] & Hn)]); [discriminate|].
          rewrite Hn in Ey. discriminate.
    - cbn [mbind result_bind]. split.
      + intros Hr. exfalso. apply Hgather. eauto using raised_raises.
      + intros (_ & [[_ ?] | (_ & _ & Yg' & ? & _)]); discriminate.
Qed.

(** *** The oversampling solver *)

Lemma label_file_exists (args : OversampleSolver.Args T) files files' :
    OversampleSolver.make_pseudo_label args files = Ok files' →
    path_exists files' (OversampleSolver.wrong_index_final args) = true.
Proof.
    intros Hm. destruct (make_pseudo_label_inv args files files' Hm)
      as (_ & _ & labels & _ & Ht & _).
    apply tensor_exists. rewrite Ht, lookup_insert_eq. eauto.
Qed.

(** What [train_with_oversampling] does once the label file [pth] is
      known to exist in [files]. *)
Definition after_label_file (args : OversampleSolver.Args T)
      (loads : nat → string → bool) (files : Files T) (pth : string)
      : result (list T * string * bool) :=
    _ ← (if loads (OversampleSolver.simclr_epochs args) "biased_simclr"
            && path_exists files pth
         then Ok tt
         else Error (Raised "ValueError"
                       "Either pretrained SimCLR or pseudo bias label does not exist"));
    wrong_label ← torch_load files pth;
    upweight ← upweight_of files (OversampleSolver.finetune args)
                  (subset_path (OversampleSolver.checkpoint_dir args)
                               (OversampleSolver.finetune_ratio args))
                  (OversampleSolver.lambda_upweight args) wrong_label;
    if negb (OversampleSolver.finetune args) then Ok (upweight, "debiased_linear", false)
    else Ok (upweight, "debiased_finetune", true).

Lemma after_label_file_raised args loads files pth (cls msg : string) :
    path_exists files pth = true →
    (after_label_file args loads files pth = Error (Raised cls msg)
     ↔ cls = "ValueError" ∧
       msg = "Either pretrained SimCLR or pseudo bias label does not exist" ∧
       loads (OversampleSolver.simclr_epochs args) "biased_simclr" = false).
Proof.
    intros Hex. unfold after_label_file. rewrite Hex, andb_true_r.
    destruct (loads _ _).
    - cbn [mbind result_bind]. split; [|intros (_ & _ & ?); discriminate].
      intros Hr. exfalso. revert Hr.
      match goal with |- ?r = _ → False =>
        assert (¬ raises_explicitly r) as Hno by no_raise end.
      intros Hr. apply Hno. eauto using raised_raises.
    - cbn [mbind result_bind]. split; [intros [= <- <-]; auto|].
      intros (-> & -> & _). reflexivity.
Qed.

Lemma oversampling_raised (args : OversampleSolver.Args T) loads files (cls msg : string) :
    OversampleSolver.train_with_oversampling args loads files = Error (Raised cls msg)
    ↔ cls = "ValueError" ∧
      ((∃ pth, OversampleSolver.oversample_pth args = Some pth ∧
               path_exists files pth = false ∧ msg = pth +:+ " does not exists") ∨
       (msg = "Either pretrained SimCLR or pseudo bias label does not exist" ∧
        loads (OversampleSolver.simclr_epochs args) "biased_simclr" = false ∧
        ((∃ pth, OversampleSolver.oversample_pth args = Some pth ∧
                 path_exists files pth = true) ∨
         (OversampleSolver.oversample_pth args = None ∧
          (path_exists files (OversampleSolver.wrong_index_final args) = true ∨
           ∃ files', OversampleSolver.make_pseudo_label args files = Ok files'))))).
Proof.
    change (OversampleSolver.train_with_oversampling args loads files)
      with ('(pth, files) ←
              match OversampleSolver.oversample_pth args with
              | Some pth =>
                  if negb (path_exists files pth)
                  then Error (Raised "ValueError" (pth +:+ " does not exists"))
                  else Ok (pth, files)
              | None =>
                  files ← (if path_exists files (OversampleSolver.wrong_index_final args)
                           then Ok files
                           else OversampleSolver.make_pseudo_label args files);
                  Ok (OversampleSolver.wrong_index_final args, files)
              end;
            after_label_file args loads files pth).
    destruct (OversampleSolver.oversample_pth args) as [pth|].
    - destruct (path_exists files pth) eqn:Hex; cbn [negb mbind result_bind].
      + rewrite (after_label_file_raised args loads files pth cls msg Hex). split.
        * intros (-> & -> & Hl). split; [reflexivity|]. right. eauto 10.
        * intros (-> & [(p & [= <-] & Hno & _) | (-> & Hl & _)]); [congruence | auto].
      + split.
        * intros [= <- <-]. split; [reflexivity|]. left. eauto.
        * intros (-> & [(p & [= <-] & _ & ->) | (_ & _ & [(p & [= <-] & Hyes) | [? _]])]);
            [reflexivity | congruence | discriminate].
    - destruct (path_exists files (OversampleSolver.wrong_index_final args)) eqn:Hex;
        cbn [mbind result_bind].
      + rewrite (after_label_file_raised args loads files _ cls msg Hex). split.
        * intros (-> & -> & Hl). split; [reflexivity|]. right. auto 10.
        * intros (-> & [(p & ? & _) | (-> & Hl & _)]); [discriminate | auto].
      + destruct (OversampleSolver.make_pseudo_label args files) as [files'|e] eqn:Hm;
          cbn [mbind result_bind].
        * rewrite (after_label_file_raised args loads files' _ cls msg
                     (label_file_exists args files files' Hm)). split.
          -- intros (-> & -> & Hl). split; [reflexivity|]. right.
             split; [reflexivity|]. split; [exact Hl|]. right. split; [reflexivity|].
             right. exists files'. reflexivity.
          -- intros (-> & [(p & ? & _) | (-> & Hl & _)]); [discriminate | auto].
        * split.
          -- intros Hr. exfalso. injection Hr as ->.
             apply (make_pseudo_label_no_raise args files). rewrite Hm.
             eexists _, _. reflexivity.
          -- intros (_ & [(p & ? & _) | (_ & _ & [(p & ? & _) | (_ & [? | [f ?]])])]);
               discriminate.
Qed.
End Raises.


Module RaiseExamples.
Import Exact.


(** Without a checkpoint of the pretraining the solver raises too. *)
Example no_pretrained_checkpoint :
    OversampleSolver.train_with_oversampling
      (UpweightExamples.args (Rat 5)) (fun _ _ => false) UpweightExamples.files
    = Error (Raised "ValueError"
               "Either pretrained SimCLR or pseudo bias label does not exist").
Proof. vm_compute. reflexivity. Qed.

(** Where the library cannot open the dataset the constructor does
      not get to its own [raise]. *)
Example no_dataset :
    CelebA.init
      {| CelebA.celeba_attr := fun _ => [];
         CelebA.celeba_error := fun _ _ => Some "RuntimeError";
         CelebA.dirs := ∅; CelebA.mkdir_error := fun _ => None; CelebA.pickles := ∅;
         CelebA.shuffle := fun l => l; CelebA.randperm := fun n => seq 0 n |}
      "data" "train" "young"
    = Error (LibraryError "RuntimeError").
Proof. reflexivity. Qed.

End RaiseExamples.

(** * Further properties of the code *)

(** ** data_aug/celebA.py: the confusion matrix *)

Section ConfusionMatrix.
Import CelebA.

(** A value that indexes a table of [n] classes, from the front or, when
      negative, from the end; and the class it indexes. *)
Definition is_class (n : nat) (v : Z) : Prop := (- Z.of_nat n ≤ v < Z.of_nat n)%Z.
Definition class_of (n : nat) (v : Z) : nat := Z.to_nat (v `mod` Z.of_nat n).

(** The entry of a table at row [p] and column [t]. *)
Definition cell (m : list (list nat)) (p t : nat) : nat := nth t (nth p m []) 0.

(** How many (target, bias) pairs fall into the classes [t] and [p]. *)
Definition pairs_in (n : nat) (p t : nat) (l : list (Z * Z)) : nat :=
    length (filter (fun tb => class_of n tb.2 = p ∧ class_of n tb.1 = t) l).

Lemma py_index_class n v :
    is_class n v → py_index n v = Ok (class_of n v) ∧ class_of n v < n.
Proof.
    unfold is_class, py_index, class_of. intros Hv.
    destruct (decide (0 ≤ v < Z.of_nat n)%Z) as [H0|H0].
    - rewrite Z.mod_small by exact H0. split; [reflexivity | lia].
    - rewrite decide_True by lia.
      replace (v `mod` Z.of_nat n)%Z with (Z.of_nat n + v)%Z; [split; [reflexivity | lia]|].
      apply (Z.mod_unique_pos v (Z.of_nat n) (-1)); lia.
Qed.

Lemma py_index_outside n v :
    ¬ is_class n v → py_index n v = Error (LibraryError "IndexError").
Proof.
    unfold is_class, py_index. intros Hv.
    rewrite !decide_False by lia. reflexivity.
Qed.

(** The table holds float32 counts: adding 1 to a count leaves it as it is
      once it has reached 2^24. *)
Definition float32_cap : nat := N.to_nat 16777216.

Lemma add_one_float32_below (c : nat) : c < float32_cap → add_one_float32 c = S c.
Proof.
    unfold add_one_float32, float32_cap. intros Hc.
    destruct (N.ltb_spec (N.of_nat c) 16777216); [reflexivity | lia].
Qed.

Lemma add_one_float32_reached (c : nat) : float32_cap ≤ c → add_one_float32 c = c.
Proof.
    unfold add_one_float32, float32_cap. intros Hc.
    destruct (N.ltb_spec (N.of_nat c) 16777216); [lia | reflexivity].
Qed.

Lemma add_one_float32_iter (k : nat) :
    Nat.iter k add_one_float32 0 = k `min` float32_cap.
Proof.
    induction k as [|k IH]; [reflexivity|].
    rewrite Nat.iter_succ, IH.
    destruct (decide (k < float32_cap)) as [Hk|Hk].
    - rewrite Nat.min_l by lia. rewrite add_one_float32_below by exact Hk. lia.
    - rewrite Nat.min_r by lia. rewrite add_one_float32_reached by lia. lia.
Qed.

Lemma cell_alter (f : nat → nat) (m : list (list nat)) (p0 t0 p t : nat) :
    p0 < length m → t0 < length (nth p0 m []) →
    cell (alter (alter f t0) p0 m) p t
    = if decide (p0 = p ∧ t0 = t) then f (cell m p t) else cell m p t.
Proof.
    intros Hp Ht. unfold cell.
    destruct (lookup_lt_is_Some_2 m p0 Hp) as [row Hrow].
    pose proof (nth_lookup_Some _ _ [] _ Hrow) as Hn. rewrite Hn in Ht.
    destruct (lookup_lt_is_Some_2 row t0 Ht) as [v Hv].
    destruct (decide (p0 = p)) as [<-|Hne].
    - assert (alter (alter f t0) p0 m !! p0 = Some (alter f t0 row)) as Ha
        by (rewrite list_lookup_alter_eq, Hrow; reflexivity).
      rewrite (nth_lookup_Some _ _ [] _ Ha), Hn.
      destruct (decide (t0 = t)) as [<-|Hne'].
      + assert (alter f t0 row !! t0 = Some (f v)) as Hb
          by (rewrite list_lookup_alter_eq, Hv; reflexivity).
        rewrite (nth_lookup_Some _ _ 0 _ Hb), (nth_lookup_Some _ _ 0 _ Hv).
        rewrite decide_True by auto. reflexivity.
      + rewrite decide_False by tauto.
        rewrite !nth_lookup. rewrite list_lookup_alter_ne by exact Hne'. reflexivity.
    - rewrite decide_False by tauto.
      rewrite (nth_lookup (alter _ _ _)), (nth_lookup m).
      rewrite list_lookup_alter_ne by exact Hne. reflexivity.
Qed.

Lemma sum_list_alter_add_one (row : list nat) (t0 : nat) :
    t0 < length row → sum_list row < float32_cap →
    sum_list (alter add_one_float32 t0 row) = S (sum_list row).
Proof.
    revert t0. induction row as [|x row IH]; intros [|t0] Ht Hs; cbn in *; try lia.
    - rewrite add_one_float32_below by lia. lia.
    - rewrite IH by lia. lia.
Qed.

Lemma sum_table_alter (m : list (list nat)) (p0 t0 : nat) :
    p0 < length m → t0 < length (nth p0 m []) → sum_list (concat m) < float32_cap →
    sum_list (concat (alter (alter add_one_float32 t0) p0 m)) = S (sum_list (concat m)).
Proof.
    revert p0. induction m as [|row m IH]; intros [|p0] Hp Ht Hs; cbn in *; try lia.
    - rewrite sum_list_with_app in Hs.
      rewrite !sum_list_with_app, sum_list_alter_add_one by (exact Ht || lia). lia.
    - rewrite sum_list_with_app in Hs.
      rewrite !sum_list_with_app, IH by (lia || exact Ht). lia.
Qed.

Definition square (n : nat) (m : list (list nat)) : Prop :=
    length m = n ∧ Forall (fun row => length row = n) m.

Lemma square_alter (f : nat → nat) n m p0 t0 :
    square n m → square n (alter (alter f t0) p0 m).
Proof.
    intros [Hl Hr]. split; [rewrite length_alter; exact Hl|].
    apply Forall_forall. intros row Hin.
    apply list_elem_of_lookup in Hin as [i Hi].
    rewrite Forall_forall in Hr.
    destruct (decide (p0 = i)) as [<-|Hne].
    - rewrite list_lookup_alter_eq in Hi.
      destruct (m !! p0) as [r|] eqn:E; [|discriminate]. injection Hi as <-.
      rewrite length_alter. apply Hr. eapply list_elem_of_lookup_2, E.
    - rewrite list_lookup_alter_ne in Hi by exact Hne.
      apply Hr. eapply list_elem_of_lookup_2, Hi.
Qed.

Lemma square_row n m p : square n m → p < n → length (nth p m []) = n.
Proof.
    intros [Hl Hr] Hp. rewrite Forall_forall in Hr. apply Hr.
    destruct (lookup_lt_is_Some_2 m p ltac:(lia)) as [row Hrow].
    rewrite (nth_lookup_Some _ _ [] _ Hrow). eapply list_elem_of_lookup_2, Hrow.
Qed.

(** The loop of [get_confusion_matrix] from a table [m]. *)
Lemma confusion_fold n (l : list (Z * Z)) (m : list (list nat)) :
    Forall (fun tb => is_class n tb.1 ∧ is_class n tb.2) l → square n m →
    ∃ m', foldM (fun m tp =>
                   p ← py_index n tp.2;
                   t ← py_index n tp.1;
                   Ok (alter (alter add_one_float32 t) p m)) m l = Ok m' ∧
          square n m' ∧
          (∀ p t, cell m' p t = Nat.iter (pairs_in n p t l) add_one_float32 (cell m p t)) ∧
          (sum_list (concat m) + length l ≤ float32_cap →
           sum_list (concat m') = sum_list (concat m) + length l).
Proof.
    intros Hl. revert m. induction Hl as [|[tv bv] l [Ht Hb] _ IH]; intros m Hsq.
    - exists m. unfold pairs_in. cbn. repeat split; try apply Hsq; intros; lia.
    - cbn [foldM fst snd] in *.
      destruct (py_index_class n bv Hb) as [-> Hp].
      destruct (py_index_class n tv Ht) as [-> Hq]. cbn [mbind result_bind].
      destruct (IH (alter (alter add_one_float32 (class_of n tv)) (class_of n bv) m))
        as (m' & Hm' & Hsq' & Hcell & Hsum); [apply square_alter, Hsq|].
      exists m'. split; [exact Hm'|]. split; [exact Hsq'|].
      assert (class_of n bv < length m) as Hp' by (destruct Hsq as [-> _]; exact Hp).
      assert (class_of n tv < length (nth (class_of n bv) m [])) as Hq'
        by (rewrite (square_row n) by assumption; exact Hq).
      split.
      + intros p t. rewrite Hcell, cell_alter by assumption.
        unfold pairs_in. rewrite filter_cons. cbn [fst snd].
        destruct (decide (class_of n bv = p ∧ class_of n tv = t)); cbn [length];
          [rewrite Nat.iter_succ_r|]; reflexivity.
      + cbn [length]. intros Hcap.
        rewrite Hsum; rewrite sum_table_alter by (assumption || lia); lia.
Qed.

Lemma confusion_fold_error n (l : list (Z * Z)) (m : list (list nat)) :
    Exists (fun tb => ¬ (is_class n tb.1 ∧ is_class n tb.2)) l →
    foldM (fun m tp =>
             p ← py_index n tp.2;
             t ← py_index n tp.1;
             Ok (alter (alter add_one_float32 t) p m)) m l
    = Error (LibraryError "IndexError").
Proof.
    intros Hex. revert m. induction l as [|[tv bv] l IH]; intros m.
    - inversion Hex.
    - cbn [foldM fst snd].
      destruct (decide (is_class n bv)) as [Hb|Hb].
      + destruct (py_index_class n bv Hb) as [-> _]. cbn [mbind result_bind].
        destruct (decide (is_class n tv)) as [Ht|Ht].
        * destruct (py_index_class n tv Ht) as [-> _]. cbn [mbind result_bind].
          apply IH. inversion Hex as [? ? Hbad|? ? Hrest]; subst; [|exact Hrest].
          cbn in Hbad. tauto.
        * rewrite (py_index_outside n tv Ht). reflexivity.
      + rewrite (py_index_outside n bv Hb). reflexivity.
Qed.

Lemma square_zeros n : square n (replicate n (replicate n 0)).
Proof.
    split; [apply length_replicate|].
    apply Forall_forall. intros row Hin. apply elem_of_replicate in Hin as [-> _].
    apply length_replicate.
Qed.

Lemma cell_zeros n p t : cell (replicate n (replicate n 0)) p t = 0.
Proof.
    unfold cell. destruct (decide (p < n)) as [Hp|Hp].
    - rewrite (nth_lookup_Some _ _ [] (replicate n 0)) by (apply lookup_replicate_2, Hp).
      destruct (decide (t < n)) as [Ht|Ht].
      + apply nth_lookup_Some. apply lookup_replicate_2, Ht.
      + apply nth_overflow. rewrite length_replicate. lia.
    - rewrite (nth_overflow (replicate _ _)) by (rewrite length_replicate; lia).
      destruct t; reflexivity.
Qed.

Lemma sum_zeros n : sum_list (concat (replicate n (replicate n 0))) = 0.
Proof.
    assert (∀ k, sum_list (concat (replicate k (replicate n 0))) = 0) as Hk.
    { induction k as [|k IH]; [reflexivity|]. cbn. rewrite sum_list_with_app, IH.
      rewrite sum_list_replicate. lia. }
    apply Hk.
Qed.

Lemma pairs_in_le n p t (l : list (Z * Z)) : pairs_in n p t l ≤ length l.
Proof. apply length_filter. Qed.

(** X1.  For targets and biases that index the [num_classes] classes,
      [get_confusion_matrix] returns a [num_classes] x [num_classes] table
      of float32 counts.  Its entry at row [p] and column [t] is the number
      of (target, bias) pairs with bias class [p] and target class [t], up
      to 2^24, where a float32 count stops growing; the pairs are those of
      [zip], so the longer of the two sequences is cut.  With at most 2^24
      pairs every entry is the exact number and the entries add up to the
      number of pairs. *)
Theorem get_confusion_matrix_counts (num_classes : nat) (targets biases : list Z) :
    Forall (is_class num_classes) targets → Forall (is_class num_classes) biases →
    ∃ cm, get_confusion_matrix num_classes targets biases = Ok cm ∧
          length cm = num_classes ∧
          Forall (fun row => length row = num_classes) cm ∧
          (∀ p t, cell cm p t
                  = pairs_in num_classes p t (zip targets biases) `min` float32_cap) ∧
          (length targets `min` length biases ≤ float32_cap →
           (∀ p t, cell cm p t = pairs_in num_classes p t (zip targets biases)) ∧
           sum_list (concat cm) = length targets `min` length biases).
Proof.
    intros Ht Hb.
    destruct (confusion_fold num_classes (zip targets biases)
                (replicate num_classes (replicate num_classes 0)))
      as (cm & Hcm & [Hlen Hrows] & Hcell & Hsum).
    - apply Forall_forall. intros [t b] Hin. cbn.
      rewrite Forall_forall in Ht, Hb. split.
      + apply Ht. eapply elem_of_zip_l, Hin.
      + apply Hb. eapply elem_of_zip_r, Hin.
    - apply square_zeros.
    - assert (∀ p t, cell cm p t
                     = pairs_in num_classes p t (zip targets biases) `min` float32_cap)
        as Hcells.
      { intros p t. rewrite Hcell, cell_zeros. apply add_one_float32_iter. }
      exists cm. split; [exact Hcm|]. split; [exact Hlen|]. split; [exact Hrows|].
      split; [exact Hcells|]. intros Hcap. split.
      + intros p t. rewrite Hcells. apply Nat.min_l.
        pose proof (pairs_in_le num_classes p t (zip targets biases)) as Hle.
        rewrite length_zip in Hle. lia.
      + rewrite sum_zeros, length_zip in Hsum. rewrite Hsum by exact Hcap.
        reflexivity.
Qed.

(** X2.  [get_confusion_matrix] returns exactly when every (target,
      bias) pair of [zip] indexes the table, from the front or from the
      end; otherwise the first pair that does not makes the update of the
      table fail with IndexError. *)
Theorem get_confusion_matrix_index_error (num_classes : nat) (targets biases : list Z) :
    let indexes tb := is_class num_classes tb.1 ∧ is_class num_classes tb.2 in
    ((∃ cm, get_confusion_matrix num_classes targets biases = Ok cm)
     ↔ Forall indexes (zip targets biases)) ∧
    (¬ Forall indexes (zip targets biases) →
     get_confusion_matrix num_classes targets biases = Error (LibraryError "IndexError")).
Proof.
    intros indexes.
    assert (¬ Forall indexes (zip targets biases) →
            get_confusion_matrix num_classes targets biases
            = Error (LibraryError "IndexError")) as Herr.
    { intros Hn. apply not_Forall_Exists in Hn; [|intros tb; unfold indexes; apply _].
      apply confusion_fold_error. exact Hn. }
    split; [|exact Herr]. split.
    - intros [cm Hcm].
      destruct (decide (Forall indexes (zip targets biases))) as [Hall|Hn]; [exact Hall|].
      rewrite (Herr Hn) in Hcm. discriminate.
    - intros Hall.
      destruct (confusion_fold num_classes (zip targets biases)
                  (replicate num_classes (replicate num_classes 0)) Hall
                  (square_zeros num_classes)) as (cm & Hcm & _).
      exists cm. exact Hcm.
Qed.
End ConfusionMatrix.

Example confusion_matrix_of_four :
  CelebA.get_confusion_matrix 2 [0; 1; 1; -1]%Z [0; 0; 1; 1; 1]%Z = Ok [[1; 1]; [0; 2]].
Proof. reflexivity. Qed.

Lemma get_confusion_matrix_counts_witness :
  ∃ cm, CelebA.get_confusion_matrix 2 [0; 1; 1; -1]%Z [0; 0; 1; 1; 1]%Z = Ok cm ∧
        length cm = 2 ∧
        Forall (fun row => length row = 2) cm ∧
        (∀ p t, cell cm p t
                = pairs_in 2 p t (zip [0; 1; 1; -1]%Z [0; 0; 1; 1; 1]%Z) `min` float32_cap) ∧
        (4 `min` 5 ≤ float32_cap →
         (∀ p t, cell cm p t = pairs_in 2 p t (zip [0; 1; 1; -1]%Z [0; 0; 1; 1; 1]%Z)) ∧
         sum_list (concat cm) = 4 `min` 5).
Proof.
  apply (get_confusion_matrix_counts 2 [0; 1; 1; -1]%Z [0; 0; 1; 1; 1]%Z);
    repeat (apply List.Forall_cons || apply List.Forall_nil); unfold is_class; lia.
Defined.

(** A count that has reached 2^24 stays there. *)
Example float32_count_stops :
  CelebA.add_one_float32 (N.to_nat 16777215) = N.to_nat 16777216 ∧
  CelebA.add_one_float32 float32_cap = float32_cap.
Proof.
  split.
  - rewrite add_one_float32_below by (unfold float32_cap; lia). lia.
  - apply add_one_float32_reached. lia.
Qed.

Lemma get_confusion_matrix_index_error_witness :
  CelebA.get_confusion_matrix 2 [0; 2]%Z [0; 1]%Z = Error (LibraryError "IndexError").
Proof.
  apply (proj2 (get_confusion_matrix_index_error 2 [0; 2]%Z [0; 1]%Z)).
  intros Hall. apply Forall_cons in Hall as [_ Hall]. apply Forall_cons in Hall as [[Hbad _] _].
  unfold is_class in Hbad. cbn in Hbad. lia.
Defined.

(** ** data_aug/celebA.py: the blonde subset, the items and the pickles *)

Lemma attr_column_inv rows j col :
  CelebA.attr_column rows j = Ok col → Forall2 (fun row v => row !! j = Some v) rows col.
Proof.
  unfold CelebA.attr_column. revert col.
  induction rows as [|row rows IH]; cbn [mapM]; intros col.
  - intros [= <-]. constructor.
  - intros Hc. apply bind_Ok_inv in Hc as (v & Hv & Hc).
    apply bind_Ok_inv in Hc as (vs & Hvs & [= <-]).
    constructor; [|apply IH, Hvs].
    unfold getitem in Hv. destruct (row !! j); [|discriminate]. cbn in Hv. congruence.
Qed.

Lemma index_select_inv {A : Type} (t : list A) idx sel :
  index_select t idx = Ok sel → Forall2 (fun i x => t !! i = Some x) idx sel.
Proof.
  unfold index_select. revert sel.
  induction idx as [|i idx IH]; cbn [mapM]; intros sel.
  - intros [= <-]. constructor.
  - intros Hc. apply bind_Ok_inv in Hc as (x & Hx & Hc).
    apply bind_Ok_inv in Hc as (xs & Hxs & [= <-]).
    constructor; [|apply IH, Hxs].
    unfold getitem in Hx. destruct (t !! i); [|discriminate]. cbn in Hx. congruence.
Qed.

Lemma filter_none {A : Type} (P : A → Prop) `{∀ x, Decision (P x)} (l : list A) :
  Forall (fun x => ¬ P x) l → filter P l = [].
Proof.
  induction 1 as [|x l Hx _ IH]; [reflexivity|].
  rewrite filter_cons, decide_False by exact Hx. exact IH.
Qed.

Section Blonde.
Import CelebA.

(** X3.  On an attribute table that has the bias column [b] and the
      target column [t], [build_blonde] returns indices among which every
      image that is not in the group (bias 0, target 0) occurs, and at
      most 2000 entries of the group -- however the shuffle orders it. *)
Theorem build_blonde_keeps_the_others (w : World) (rows : list (list Z)) (b t : nat) :
    Forall (fun row => is_Some (row !! b) ∧ is_Some (row !! t)) rows →
    ∃ l, build_blonde w rows b t = Ok l ∧
         (∀ i row, rows !! i = Some row →
                   ¬ (row !! b = Some 0%Z ∧ row !! t = Some 0%Z) → i ∈ l) ∧
         length (filter (fun i => both_zero rows b t i = true) l) ≤ 2000 ∧
         length l ≤ 2000 + length (filter (fun i => both_zero rows b t i ≠ true)
                                          (seq 0 (length rows))).
Proof.
    intros Hrows. unfold build_blonde.
    destruct (attr_column_total rows b) as (cb & -> & _).
    { eapply Forall_impl; [exact Hrows|]. cbn. tauto. }
    destruct (attr_column_total rows t) as (ct & -> & _).
    { eapply Forall_impl; [exact Hrows|]. cbn. tauto. }
    cbn [mbind result_bind]. eexists. split; [reflexivity|]. split; [|split].
    - intros i row Hi Hnot. apply elem_of_app. right.
      apply list_elem_of_filter. split.
      + unfold both_zero. rewrite Hi. intros Hb. apply bool_decide_eq_true in Hb. tauto.
      + apply elem_of_seq. apply lookup_lt_Some in Hi. lia.
    - rewrite filter_app, length_app.
      rewrite (filter_none _ (filter _ _)).
      + cbn [length]. rewrite Nat.add_0_r.
        etransitivity; [apply length_filter|]. rewrite length_take. lia.
      + apply Forall_forall. intros i Hi. apply list_elem_of_filter in Hi as [Hi _].
        exact Hi.
    - rewrite length_app, length_take. lia.
Qed.
End Blonde.

(** Three images of the group (bias 0, target 0) and two others. *)
Definition blonde_table : list (list Z) :=
  [replicate 40 0%Z; replicate 40 1%Z; replicate 40 0%Z; replicate 40 1%Z;
   replicate 40 0%Z].

Lemma build_blonde_keeps_the_others_witness :
  ∃ l, CelebA.build_blonde five_images blonde_table 20 9 = Ok l ∧
       (∀ i row, blonde_table !! i = Some row →
                 ¬ (row !! 20 = Some 0%Z ∧ row !! 9 = Some 0%Z) → i ∈ l) ∧
       length (filter (fun i => CelebA.both_zero blonde_table 20 9 i = true) l) ≤ 2000 ∧
       length l ≤ 2000 + length (filter (fun i => CelebA.both_zero blonde_table 20 9 i ≠ true)
                                        (seq 0 (length blonde_table))).
Proof.
  apply (build_blonde_keeps_the_others five_images blonde_table 20 9).
  repeat (apply List.Forall_cons; [split; eexists; reflexivity|]). apply List.Forall_nil.
Defined.

Section Items.
Import CelebA.

(** What the constructor establishes between the fields of the object:
      row [k] of [attr] is the row of the image at position [indices[k]],
      and [targets] and [biases] are two columns of [attr]. *)
Definition consistent (celeba : list (list Z)) (self : BiasedCelebASplit) : Prop :=
    bias_idx self = 20 ∧
    Forall2 (fun i row => celeba !! i = Some row) (indices self) (attr self) ∧
    Forall2 (fun row v => row !! target_idx self = Some v) (attr self) (targets self) ∧
    Forall2 (fun row v => row !! bias_idx self = Some v) (attr self) (biases self).

Lemma Forall2_seq_self {A : Type} (l : list A) :
    Forall2 (fun i x => l !! i = Some x) (seq 0 (length l)) l.
Proof.
    apply Forall2_same_length_lookup. split; [apply length_seq|].
    intros i j x Hj Hx. apply lookup_seq in Hj as [-> _]. exact Hx.
Qed.

Lemma Forall2_index_select {A B : Type} (R : A → B → Prop) (l : list A) (k : list B)
      idx l' k' :
    Forall2 R l k → index_select l idx = Ok l' → index_select k idx = Ok k' →
    Forall2 R l' k'.
Proof.
    intros HR Hl Hk. apply index_select_inv in Hl, Hk.
    apply Forall2_same_length_lookup. split.
    - rewrite <- (Forall2_length _ _ _ Hl). apply (Forall2_length _ _ _ Hk).
    - intros i x y Hx Hy.
      destruct (Forall2_lookup_r _ _ _ _ _ Hl Hx) as (j & Hj & Hlj).
      destruct (Forall2_lookup_r _ _ _ _ _ Hk Hy) as (j' & Hj' & Hkj).
      assert (j' = j) as -> by congruence.
      eapply Forall2_lookup_lr; eassumption.
Qed.

Lemma load_inv w p l : load w p = Ok l → pickles w !! p = Some l.
Proof. unfold load. destruct (pickles w !! p); [congruence | discriminate]. Qed.

Lemma mkdir_inv w p w' : mkdir w p = Ok w' → w' = set_dirs w ({[ p ]} ∪ dirs w).
Proof. unfold mkdir. destruct (mkdir_error w p); [discriminate | congruence]. Qed.

Lemma dump_inv w dir p l w' :
    dump w dir p l = Ok w' → w' = set_pickles w (<[p := l]> (pickles w)).
Proof.
    unfold dump. destruct (is_dir w p); [discriminate|].
    destruct (is_dir w dir); [congruence | discriminate].
Qed.

Lemma no_dir_no_pickle w (d name : string) :
    is_dir w d = false → pickles w !! ospj d name = None.
Proof.
    intros Hd. destruct (pickles w !! ospj d name) as [l|] eqn:E; [|reflexivity].
    rewrite (is_dir_of_pickle w d name) in Hd by eauto. discriminate.
Qed.

Lemma not_exists_no_pickle w p : exists_path w p = false → pickles w !! p = None.
Proof.
    unfold exists_path. intros He. apply orb_false_iff in He as [He _].
    apply bool_decide_eq_false in He. destruct (pickles w !! p); [|reflexivity].
    exfalso. apply He. eauto.
Qed.

(** Two worlds with the same dataset and the same random draws. *)
Definition same_sources (w1 w : World) : Prop :=
    celeba_attr w1 = celeba_attr w ∧ celeba_error w1 = celeba_error w ∧
    shuffle w1 = shuffle w ∧ randperm w1 = randperm w.

Lemma same_sources_refl w : same_sources w w.
Proof. repeat split. Qed.

Lemma same_sources_trans w1 w2 w3 :
    same_sources w1 w2 → same_sources w2 w3 → same_sources w1 w3.
Proof.
    intros (a1 & a2 & a3 & a4) (b1 & b2 & b3 & b4). repeat split; congruence.
Qed.

(** The first part of the constructor, after the torchvision dataset has
      been opened: the dataset indices and their attribute rows. *)
Definition select_attr (w : World) (root split target_attr : string)
      (celeba : list (list Z)) : result (nat * list nat * list (list Z) * World) :=
    if bool_decide (target_attr = "blonde") then
      if train_or_valid split then
        '(indices, w) ←
          (if is_dir w (blonde_dir root) then
             saved ← load w (blonde_path root);
             Ok (saved, w)
           else
             built ← build_blonde w celeba 20 9;
             w ← mkdir w (blonde_dir root);
             w ← dump w (blonde_dir root) (blonde_path root) built;
             Ok (built, w));
        attr ← index_select celeba indices;
        Ok (9, indices, attr, w)
      else Ok (9, seq 0 (length celeba), celeba, w)
    else if bool_decide (target_attr = "makeup") then
      Ok (18, seq 0 (length celeba), celeba, w)
    else Error (Raised "AttributeError" "").

(** The second part: the random split of train and valid. *)
Definition select_split (split target_attr : string)
      (iaw : list nat * list (list Z) * World)
      : result (list nat * list (list Z) * World) :=
    let '(indices, attr, w) := iaw in
    if train_or_valid split then
      '(rand_indices, w) ←
        (if negb (exists_path w (rand_path target_attr)) then
           let rand_indices := randperm w (length indices) in
           w ← dump w "clusters" (rand_path target_attr) rand_indices;
           Ok (rand_indices, w)
         else
           rand_indices ← load w (rand_path target_attr);
           Ok (rand_indices, w));
      let num_total := length rand_indices in
      let num_train := int_0_8 num_total in
      let chosen :=
        if bool_decide (split = "train") then take num_train rand_indices
        else drop num_train rand_indices in
      indices' ← index_select indices chosen;
      attr' ← index_select attr chosen;
      Ok (indices', attr', w)
    else Ok (indices, attr, w).

Lemma init_parts w root split target_attr :
    init w root split target_attr
    = celeba ← CelebA w root (if bool_decide (split = "valid") then "train" else split);
      '(target_idx, indices, attr, w1) ← select_attr w root split target_attr celeba;
      '(indices, attr, w2) ← select_split split target_attr (indices, attr, w1);
      targets ← attr_column attr target_idx;
      biases ← attr_column attr 20;
      cm ← get_confusion_matrix 2 targets biases;
      Ok ({| target_idx := target_idx; bias_idx := 20; indices := indices;
             attr := attr; targets := targets; biases := biases;
             confusion_matrix_org := cm |}, w2).
Proof. reflexivity. Qed.

Lemma CelebA_inv w root split celeba :
    CelebA w root split = Ok celeba →
    celeba_error w root split = None ∧ celeba = celeba_attr w split.
Proof.
    unfold CelebA. destruct (celeba_error w root split); [discriminate|].
    intros [= <-]. auto.
Qed.

Lemma select_attr_inv w root split target_attr celeba tidx ind att w1 :
    select_attr w root split target_attr celeba = Ok (tidx, ind, att, w1) →
    Forall2 (fun i row => celeba !! i = Some row) ind att ∧
    same_sources w1 w ∧
    pickles w ⊆ pickles w1 ∧
    (target_attr = "blonde" → train_or_valid split = true →
     pickles w1 !! blonde_path root = Some ind) ∧
    ∀ w3, (target_attr = "blonde" → train_or_valid split = true →
           pickles w3 !! blonde_path root = Some ind) →
          select_attr w3 root split target_attr celeba = Ok (tidx, ind, att, w3).
Proof.
    intros Hs. unfold select_attr in Hs.
    assert (∀ tidx', Ok (tidx', seq 0 (length celeba), celeba, w) = Ok (tidx, ind, att, w1) →
              Forall2 (fun i row => celeba !! i = Some row) ind att ∧
              same_sources w1 w ∧ pickles w ⊆ pickles w1) as Hplain.
    { intros tidx' [= <- <- <- <-]. split; [apply Forall2_seq_self|].
      split; [apply same_sources_refl | reflexivity]. }
    destruct (bool_decide (target_attr = "blonde")) eqn:Eb.
    - destruct (train_or_valid split) eqn:Etv.
      + apply bind_Ok_inv in Hs as ([ind0 w0] & H0 & Hs).
        apply bind_Ok_inv in Hs as (att0 & Hatt & [= <- <- <- <-]).
        apply bool_decide_eq_true in Eb.
        assert (∀ w3, (target_attr = "blonde" → true = true →
                       pickles w3 !! blonde_path root = Some ind0) →
                  select_attr w3 root split target_attr celeba = Ok (9, ind0, att0, w3))
          as Hreplay.
        { intros w3 Hp. unfold select_attr.
          rewrite bool_decide_eq_true_2, Etv by exact Eb.
          rewrite (is_dir_of_pickle w3 (blonde_dir root) "indices.pkl")
            by (exists ind0; exact (Hp Eb eq_refl)).
          rewrite (load_Some _ _ _ (Hp Eb eq_refl)).
          cbn [mbind result_bind]. rewrite Hatt. reflexivity. }
        destruct (is_dir w (blonde_dir root)) eqn:Ed.
        * apply bind_Ok_inv in H0 as (saved & Hl & [= <- <-]).
          apply load_inv in Hl.
          split; [apply index_select_inv, Hatt|].
          split; [apply same_sources_refl|]. split; [reflexivity|].
          split; [intros _ _; exact Hl | exact Hreplay].
        * apply bind_Ok_inv in H0 as (built & Hb & H0).
          apply bind_Ok_inv in H0 as (wm & Hm & H0).
          apply bind_Ok_inv in H0 as (wd & Hd & [= <- <-]).
          apply mkdir_inv in Hm. apply dump_inv in Hd. subst wm wd.
          split; [apply index_select_inv, Hatt|].
          split; [repeat split|].
          cbn [pickles set_pickles set_dirs].
          split; [apply insert_subseteq, (no_dir_no_pickle w _ "indices.pkl" Ed)|].
          split; [intros _ _; apply lookup_insert_eq | exact Hreplay].
      + destruct (Hplain 9 Hs) as (h1 & h2 & h3).
        injection Hs as <- <- <- <-. repeat (split; [assumption|]).
        split; [discriminate|].
        intros w3 _. unfold select_attr. rewrite Eb, Etv. reflexivity.
    - destruct (bool_decide (target_attr = "makeup")) eqn:Em; [|discriminate].
      destruct (Hplain 18 Hs) as (h1 & h2 & h3).
      injection Hs as <- <- <- <-. repeat (split; [assumption|]).
      apply bool_decide_eq_false in Eb.
      split; [intros; contradiction|].
      intros w3 _. unfold select_attr.
      rewrite (bool_decide_eq_false_2 _ Eb), Em. reflexivity.
Qed.

Lemma select_split_inv split target_attr ind att w1 ind' att' w2
      (celeba : list (list Z)) :
    select_split split target_attr (ind, att, w1) = Ok (ind', att', w2) →
    Forall2 (fun i row => celeba !! i = Some row) ind att →
    Forall2 (fun i row => celeba !! i = Some row) ind' att' ∧
    same_sources w2 w1 ∧
    pickles w1 ⊆ pickles w2 ∧
    (pickles w2 = pickles w1 ∨
     (pickles w1 !! rand_path target_attr = None ∧
      pickles w2 = <[rand_path target_attr := randperm w1 (length ind)]> (pickles w1))) ∧
    (train_or_valid split = true → is_Some (pickles w2 !! rand_path target_attr)) ∧
    ∀ w3, pickles w3 = pickles w2 →
          select_split split target_attr (ind, att, w3) = Ok (ind', att', w3).
Proof.
    intros Hs Hrows. unfold select_split in Hs.
    destruct (train_or_valid split) eqn:Etv.
    - apply bind_Ok_inv in Hs as ([rand wr] & Hr & Hs).
      apply bind_Ok_inv in Hs as (i1 & Hi & Hs).
      apply bind_Ok_inv in Hs as (a1 & Ha & [= <- <- <-]).
      assert (∀ w3, pickles w3 !! rand_path target_attr = Some rand →
                select_split split target_attr (ind, att, w3) = Ok (i1, a1, w3)) as Hreplay.
      { intros w3 Hp. unfold select_split. rewrite Etv.
        rewrite exists_path_of_pickle by eauto. cbn [negb].
        rewrite (load_Some _ _ _ Hp). cbn [mbind result_bind].
        rewrite Hi. cbn [mbind result_bind]. rewrite Ha. reflexivity. }
      split; [eapply Forall2_index_select; eassumption|].
      destruct (exists_path w1 (rand_path target_attr)) eqn:Ex; cbn [negb] in Hr.
      + apply bind_Ok_inv in Hr as (saved & Hl & [= <- <-]). apply load_inv in Hl.
        split; [apply same_sources_refl|]. split; [reflexivity|].
        split; [left; reflexivity|]. split; [intros _; eauto|].
        intros w3 Hp. apply Hreplay. rewrite Hp. exact Hl.
      + apply bind_Ok_inv in Hr as (wd & Hd & [= <- <-]). apply dump_inv in Hd. subst wd.
        apply not_exists_no_pickle in Ex.
        split; [repeat split|]. cbn [pickles set_pickles].
        split; [apply insert_subseteq, Ex|].
        split; [right; auto|].
        split; [intros _; rewrite lookup_insert_eq; eauto|].
        intros w3 Hp. apply Hreplay. rewrite Hp. apply lookup_insert_eq.
    - injection Hs as <- <- <-. split; [exact Hrows|].
      split; [apply same_sources_refl|]. split; [reflexivity|].
      split; [left; reflexivity|].
      split; [discriminate|].
      intros w3 _. unfold select_split. rewrite Etv. reflexivity.
Qed.

Lemma init_consistent w root split target_attr obj w' :
    init w root split target_attr = Ok (obj, w') →
    consistent (celeba_attr w (if bool_decide (split = "valid") then "train" else split)) obj.
Proof.
    rewrite init_parts. intros Hi.
    apply bind_Ok_inv in Hi as (celeba & Hc & Hi).
    apply CelebA_inv in Hc as [_ ->].
    apply bind_Ok_inv in Hi as ([[[tidx ind] att] w1] & H1 & Hi).
    apply bind_Ok_inv in Hi as ([[ind' att'] w2] & H2 & Hi).
    apply bind_Ok_inv in Hi as (ts & Hts & Hi).
    apply bind_Ok_inv in Hi as (bs & Hbs & Hi).
    apply bind_Ok_inv in Hi as (cm & Hcm & [= <- <-]).
    apply select_attr_inv in H1 as (Hrows & _).
    eapply select_split_inv in H2 as (Hrows' & _); [|exact Hrows].
    split; [reflexivity|]. cbn [indices attr targets biases target_idx bias_idx].
    split; [exact Hrows'|]. split; apply attr_column_inv; assumption.
Qed.

Lemma py_index_in_range len (z : Z) :
    (- Z.of_nat len ≤ z < Z.of_nat len)%Z → ∃ i, py_index len z = Ok i ∧ i < len.
Proof.
    intros Hz. destruct (py_index_class len z Hz) as [-> Hlt]. eauto.
Qed.

(** X4.  On an object that the constructor returned, [__len__] is the
      number of dataset indices, and [__getitem__] at an index inside the
      length (negative indices count from the end) returns the position of
      an image of the dataset together with the target and the bias
      attribute of that same image, and the index as given; an index
      outside raises IndexError. *)
Theorem getitem_returns_attributes_of_the_image
      (w : World) (root split target_attr : string) obj w' :
    init w root split target_attr = Ok (obj, w') →
    let celeba := celeba_attr w (if bool_decide (split = "valid") then "train" else split) in
    __len__ obj = length (indices obj) ∧
    (∀ index, (- Z.of_nat (__len__ obj) ≤ index < Z.of_nat (__len__ obj))%Z →
       ∃ position row target bias,
         __getitem__ celeba obj index = Ok (position, target, bias, index) ∧
         celeba !! position = Some row ∧
         row !! target_idx obj = Some target ∧ row !! 20 = Some bias) ∧
    (∀ index, ¬ (- Z.of_nat (__len__ obj) ≤ index < Z.of_nat (__len__ obj))%Z →
       __getitem__ celeba obj index = Error (LibraryError "IndexError")).
Proof.
    intros Hinit celeba.
    destruct (init_consistent _ _ _ _ _ _ Hinit) as (Hb & Hrows & Hts & Hbs).
    fold celeba in Hrows. rewrite Hb in Hbs.
    pose proof (Forall2_length _ _ _ Hrows) as L1.
    pose proof (Forall2_length _ _ _ Hts) as L2.
    pose proof (Forall2_length _ _ _ Hbs) as L3.
    unfold __len__. split; [congruence|]. split.
    - intros index Hin. unfold __getitem__.
      destruct (py_index_in_range (length (targets obj)) index Hin) as (i & Hi & Hlt).
      replace (length (indices obj)) with (length (targets obj)) by congruence.
      replace (length (biases obj)) with (length (targets obj)) by congruence.
      rewrite Hi. cbn [mbind result_bind].
      destruct (lookup_lt_is_Some_2 (indices obj) i ltac:(lia)) as [position Hp].
      destruct (Forall2_lookup_l _ _ _ _ _ Hrows Hp) as (row & Hrow & Hcel).
      destruct (Forall2_lookup_l _ _ _ _ _ Hts Hrow) as (target & Ht & Hrt).
      destruct (Forall2_lookup_l _ _ _ _ _ Hbs Hrow) as (bias & Hbi & Hrb).
      rewrite (getitem_Some _ _ _ Hp). cbn [mbind result_bind].
      rewrite (getitem_Some _ _ _ Hcel). cbn [mbind result_bind].
      rewrite (getitem_Some _ _ _ Ht). cbn [mbind result_bind].
      rewrite (getitem_Some _ _ _ Hbi). cbn [mbind result_bind].
      exists position, row, target, bias. auto.
    - intros index Hout. unfold __getitem__.
      replace (length (indices obj)) with (length (targets obj)) by congruence.
      rewrite (py_index_outside _ _ Hout). reflexivity.
Qed.
End Items.

(** The valid split of [five_images]: the last entry of the saved
    permutation. *)
Definition valid_of_five : CelebA.BiasedCelebASplit :=
  {| CelebA.target_idx := 18; CelebA.bias_idx := 20; CelebA.indices := [2];
     CelebA.attr := [replicate 40 0%Z]; CelebA.targets := [0%Z]; CelebA.biases := [0%Z];
     CelebA.confusion_matrix_org := [[1; 0]; [0; 0]] |}.

Example init_valid_of_five :
  CelebA.init five_images "data" "valid" "makeup" = Ok (valid_of_five, five_images).
Proof. vm_compute. reflexivity. Qed.

Lemma getitem_returns_attributes_of_the_image_witness :
  CelebA.__len__ valid_of_five = length (CelebA.indices valid_of_five) ∧
  (∀ index, (- Z.of_nat (CelebA.__len__ valid_of_five) ≤ index
             < Z.of_nat (CelebA.__len__ valid_of_five))%Z →
     ∃ position row target bias,
       CelebA.__getitem__ (CelebA.celeba_attr five_images "train") valid_of_five index
       = Ok (position, target, bias, index) ∧
       CelebA.celeba_attr five_images "train" !! position = Some row ∧
       row !! CelebA.target_idx valid_of_five = Some target ∧ row !! 20 = Some bias) ∧
  (∀ index, ¬ (- Z.of_nat (CelebA.__len__ valid_of_five) ≤ index
               < Z.of_nat (CelebA.__len__ valid_of_five))%Z →
     CelebA.__getitem__ (CelebA.celeba_attr five_images "train") valid_of_five index
     = Error (LibraryError "IndexError")).
Proof.
  apply (getitem_returns_attributes_of_the_image five_images "data" "valid" "makeup"
           valid_of_five five_images).
  vm_compute. reflexivity.
Defined.

Example item_of_the_valid_split :
  (obj ← fst <$> CelebA.init five_images "data" "valid" "makeup";
   CelebA.__getitem__ (CelebA.celeba_attr five_images "train") obj (-1))
  = Ok (2, 0%Z, 0%Z, (-1)%Z).
Proof. vm_compute. reflexivity. Qed.

(** The two pickles of the blonde target are different files. *)
Lemma blonde_path_is_not_rand_path (root : string) :
  CelebA.blonde_path root ≠ CelebA.rand_path "blonde".
Proof.
  unfold CelebA.blonde_path, CelebA.rand_path, ospj.
  rewrite !string_app_assoc.
  change ("/" +:+ "pickles" +:+ "/" +:+ "blonde" +:+ "/" +:+ "indices.pkl")
    with "/pickles/blonde/indices.pkl".
  change ("clusters/celeba_rand_indices_" +:+ "blonde" +:+ ".pkl")
    with "clusters/celeba_rand_indices_blonde.pkl".
  intros Heq. pose proof (f_equal String.length Heq) as Hlen.
  rewrite string_length_app in Hlen.
  change (String.length "/pickles/blonde/indices.pkl") with 27 in Hlen.
  change (String.length "clusters/celeba_rand_indices_blonde.pkl") with 39 in Hlen.
  do 12 (destruct root as [|? root]; [cbn in Hlen; lia|]).
  destruct root; [|cbn in Hlen; lia].
  cbn in Heq. discriminate.
Qed.

Section Pickles.
Import CelebA.

(** X5.  A construction that returned has left behind the pickles that
      a later construction reads instead of drawing again: built once more
      for the same split and target in the world it left, the constructor
      returns the same object and changes nothing.  It never overwrites a
      pickle that was there, and after a train or valid construction the
      random permutation is saved. *)
Theorem init_reuses_its_pickles (w : World) (root split target_attr : string) obj w1 :
    init w root split target_attr = Ok (obj, w1) →
    init w1 root split target_attr = Ok (obj, w1) ∧
    pickles w ⊆ pickles w1 ∧
    (train_or_valid split = true → is_Some (pickles w1 !! rand_path target_attr)).
Proof.
    rewrite init_parts. intros Hi.
    apply bind_Ok_inv in Hi as (celeba & Hc & Hi).
    apply bind_Ok_inv in Hi as ([[[tidx ind] att] wa] & H1 & Hi).
    apply bind_Ok_inv in Hi as ([[ind' att'] wb] & H2 & Hi).
    apply bind_Ok_inv in Hi as (ts & Hts & Hi).
    apply bind_Ok_inv in Hi as (bs & Hbs & Hi).
    apply bind_Ok_inv in Hi as (cm & Hcm & [= <- <-]).
    apply select_attr_inv in H1 as (Hrows & Hsrc1 & Hsub1 & Hbp & Hreplay1).
    pose proof H2 as H2'.
    eapply select_split_inv in H2' as (_ & Hsrc2 & Hsub2 & Hpk & Hsaved & Hreplay2);
      [|exact Hrows].
    split; [|split; [etransitivity; eassumption | exact Hsaved]].
    rewrite init_parts.
    assert (CelebA wb root (if bool_decide (split = "valid") then "train" else split)
            = Ok celeba) as ->.
    { destruct (same_sources_trans _ _ _ Hsrc2 Hsrc1) as (Ha & He & _).
      unfold CelebA in Hc |- *. rewrite Ha, He. exact Hc. }
    cbn [mbind result_bind].
    rewrite (Hreplay1 wb).
    - cbn [mbind result_bind]. rewrite (Hreplay2 wb eq_refl). cbn [mbind result_bind].
      rewrite Hts. cbn [mbind result_bind]. rewrite Hbs. cbn [mbind result_bind].
      rewrite Hcm. reflexivity.
    - intros -> Htv.
      destruct Hpk as [-> | [_ ->]]; [apply Hbp; auto|].
      rewrite lookup_insert_ne by (apply not_eq_sym, blonde_path_is_not_rand_path).
      apply Hbp; auto.
Qed.
End Pickles.

(** Five images and the directory of the permutations, no pickle yet; the
    shuffle reverses and the permutation is the identity. *)
Definition fresh_images : CelebA.World :=
  {| CelebA.celeba_attr := fun _ => blonde_table;
     CelebA.celeba_error := fun _ _ => None;
     CelebA.dirs := {[ "clusters" ]};
     CelebA.mkdir_error := fun _ => None;
     CelebA.pickles := ∅;
     CelebA.shuffle := fun l => reverse l;
     CelebA.randperm := fun n => seq 0 n |}.

Example first_construction_saves_both_pickles :
  (fun ow => CelebA.pickles ow.2) <$> CelebA.init fresh_images "data" "train" "blonde"
  = Ok (<[CelebA.rand_path "blonde" := [0; 1; 2; 3; 4]]>
          (<[CelebA.blonde_path "data" := [4; 2; 0; 1; 3]]> ∅)).
Proof. vm_compute. reflexivity. Qed.

Lemma init_reuses_its_pickles_witness :
  ∃ obj w1,
    CelebA.init fresh_images "data" "train" "blonde" = Ok (obj, w1) ∧
    CelebA.init w1 "data" "train" "blonde" = Ok (obj, w1) ∧
    CelebA.pickles fresh_images ⊆ CelebA.pickles w1 ∧
    (CelebA.train_or_valid "train" = true →
     is_Some (CelebA.pickles w1 !! CelebA.rand_path "blonde")).
Proof.
  destruct (CelebA.init fresh_images "data" "train" "blonde") as [[obj w1]|e] eqn:E;
    [|vm_compute in E; discriminate].
  exists obj, w1. split; [reflexivity|].
  apply (init_reuses_its_pickles fresh_images "data" "train" "blonde" obj w1 E).
Defined.

(** ** training/ERMSolver.py: more on [save_score_idx] *)

Section ScoreFiles.
Import ERMSolver.
Context {T : Type} `{Backend T}.
Context {Image Feat : Type}.
Implicit Types (nets : Nets T Image Feat) (batch : list (sample Image)).
Implicit Types (st : scores T) (s : sample Image) (args : Args T).

(** The tensors after the loop, as writes into tensors of zeros. *)
Definition scored nets (num_data : nat) (loader : list (list (sample Image))) : scores T :=
    {| score_idx := apply_writes (all_writes bias_score_of nets loader)
                                 (replicate num_data zero);
       wrong_idx := apply_writes (all_writes wrong_of nets loader) (replicate num_data zero);
       debias_idx := apply_writes (all_writes (fun _ s => debiased_of s) nets loader)
                                  (replicate num_data zero) |}.

(** The file name of a tensor: the bias ratio for 'stl10mnist', the
      epoch otherwise. *)
Definition suffix args (epoch : nat) : string :=
    if bool_decide (data args = "stl10mnist") then "_" +:+ bias_ratio args +:+ ".pth"
    else pretty epoch +:+ ".pth".

Definition file_name args (name : string) (epoch : nat) : string :=
    ospj (checkpoint_dir args) (name +:+ suffix args epoch).

Lemma tensor_path_Some args name e :
    tensor_path args name (Some e) = Ok (file_name args name e).
Proof.
    unfold tensor_path, file_name, suffix.
    destruct (bool_decide (data args = "stl10mnist")); reflexivity.
Qed.

Lemma tensor_path_stl args name epoch e :
    data args = "stl10mnist" → tensor_path args name epoch = Ok (file_name args name e).
Proof.
    intros Hd. unfold tensor_path, file_name, suffix.
    rewrite bool_decide_eq_true_2 by exact Hd. reflexivity.
Qed.

Lemma save_score_idx_loop args nets num_data files loader epoch :
    Forall (batch_ok num_data nets) loader →
    save_score_idx args nets num_data files loader epoch
    = (_ ← (if negb (finetune args)
            then py_assert (bool_decide (length (concat loader) = num_data))
            else Ok tt);
       score_idx_path ← tensor_path args "score_idx" epoch;
       wrong_idx_path ← tensor_path args "wrong_idx" epoch;
       debias_idx_path ← tensor_path args "debias_idx" epoch;
       Ok (scored nets num_data loader,
           <[debias_idx_path := debias_idx (scored nets num_data loader)]>
             (<[wrong_idx_path := wrong_idx (scored nets num_data loader)]>
                (<[score_idx_path := score_idx (scored nets num_data loader)]> files)))).
Proof.
    intros Hok. unfold save_score_idx.
    rewrite (loader_fold num_data) by (try assumption; cbn; apply length_replicate).
    cbn [mbind result_bind score_idx wrong_idx debias_idx].
    rewrite length_apply_writes, length_replicate. reflexivity.
Qed.

Lemma last_write (val : list T → sample Image → T) nets num_data pre bpre s bpost post :
    batch_ok num_data nets (bpre ++ s :: bpost) →
    Forall (fun s' => idx s' ≠ idx s) (bpost ++ concat post) →
    ∃ row,
      logits_of nets (bpre ++ s :: bpost) !! length bpre = Some row ∧
      apply_writes (all_writes val nets (pre ++ (bpre ++ s :: bpost) :: post))
                   (replicate num_data zero) !! idx s
      = Some (val row s).
Proof.
    intros [Hwf Hidx] Hlater.
    pose proof (Forall2_length _ _ _ Hwf) as Hlen.
    assert (idx s < num_data) as Hs.
    { rewrite Forall_forall in Hidx. apply Hidx. apply elem_of_app. right.
      apply list_elem_of_here. }
    apply Forall_app in Hlater as [Hl1 Hl2].
    destruct (writes_of_split val nets bpre s bpost Hlen) as (row & w1 & w2 & Hr & Hw & Hk).
    exists row. split; [exact Hr|].
    unfold all_writes. rewrite fmap_app, concat_app, fmap_cons. cbn [concat].
    rewrite Hw, <- !app_assoc. cbn [app].
    rewrite (app_assoc (concat _) w1).
    apply apply_writes_last; [rewrite length_replicate; exact Hs|].
    apply Forall_app. split.
    - eapply Forall_impl; [exact Hk|]. intros x Hx Heq. cbn in Hx.
      rewrite Heq in Hx. apply list_elem_of_fmap in Hx as (s' & He & Hin).
      rewrite Forall_forall in Hl1. apply (Hl1 s' Hin). congruence.
    - eapply Forall_impl; [apply (all_writes_keys val nets post)|]. intros x Hx Heq.
      cbn in Hx. rewrite Heq in Hx. apply list_elem_of_fmap in Hx as (s' & He & Hin).
      rewrite Forall_forall in Hl2. apply (Hl2 s' Hin). congruence.
Qed.

Lemma never_written (val : list T → sample Image → T) nets num_data loader (v : nat) :
    v < num_data → v ∉ idx <$> concat loader →
    apply_writes (all_writes val nets loader) (replicate num_data zero) !! v = Some zero.
Proof.
    intros Hv Hnot. rewrite apply_writes_untouched.
    - apply lookup_replicate_2, Hv.
    - eapply Forall_impl; [apply all_writes_keys|]. intros x Hx Heq. cbn in Hx.
      apply Hnot. rewrite <- Heq. exact Hx.
Qed.

(** X6.  Whenever the loop can run, the three tensors that
      [save_score_idx] returns have one entry per item of the dataset; at
      the index of a processed sample that is not processed again later,
      [debias_idx] holds 1 if the label differs from the bias label and 0
      otherwise; and at an index that the loader never yields all three
      tensors keep their initial 0. *)
Theorem save_score_idx_debias_and_untouched args nets num_data files loader epoch :
    Forall (batch_ok num_data nets) loader →
    (finetune args = false → length (concat loader) = num_data) →
    (data args = "stl10mnist" ∨ is_Some epoch) →
    ∃ st files',
      save_score_idx args nets num_data files loader epoch = Ok (st, files') ∧
      length (score_idx st) = num_data ∧ length (wrong_idx st) = num_data ∧
      length (debias_idx st) = num_data ∧
      (∀ pre bpre s bpost post,
         loader = pre ++ (bpre ++ s :: bpost) :: post →
         Forall (fun s' => idx s' ≠ idx s) (bpost ++ concat post) →
         debias_idx st !! idx s
         = Some (if decide (label s = bias_label s) then zero else one)) ∧
      (∀ v, v < num_data → v ∉ idx <$> concat loader →
         score_idx st !! v = Some zero ∧ wrong_idx st !! v = Some zero ∧
         debias_idx st !! v = Some zero).
Proof.
    intros Hok Hassert Hpath.
    rewrite save_score_idx_loop by exact Hok.
    assert ((if negb (finetune args)
             then py_assert (bool_decide (length (concat loader) = num_data))
             else Ok tt) = Ok tt) as ->.
    { destruct (finetune args); [reflexivity|]. cbn.
      rewrite bool_decide_eq_true_2 by (apply Hassert; reflexivity). reflexivity. }
    assert (∃ e, ∀ name, tensor_path args name epoch = Ok (file_name args name e))
      as [e Hnames].
    { destruct Hpath as [Hd | [e ->]].
      - exists 0. intros name. apply tensor_path_stl, Hd.
      - exists e. intros name. apply tensor_path_Some. }
    cbn [mbind result_bind]. rewrite !Hnames. cbn [mbind result_bind].
    eexists _, _. split; [reflexivity|].
    cbn [scored score_idx wrong_idx debias_idx].
    rewrite !length_apply_writes, !length_replicate.
    split; [reflexivity|]. split; [reflexivity|]. split; [reflexivity|]. split.
    - intros pre bpre s bpost post -> Hlater.
      apply Forall_app in Hok as [_ Hok]. apply Forall_cons in Hok as [Hb _].
      destruct (last_write (fun _ s => debiased_of s) nets num_data pre bpre s bpost post
                  Hb Hlater) as (row & _ & ->).
      unfold debiased_of, of_bool. destruct (decide (label s = bias_label s)) as [E|E].
      + rewrite bool_decide_eq_true_2 by exact E. reflexivity.
      + rewrite bool_decide_eq_false_2 by exact E. reflexivity.
    - intros v Hv Hnot. repeat split; apply never_written; assumption.
Qed.

(** X7.  Without [finetune], [save_score_idx] asserts that the loader
      yielded as many samples as the dataset has items: after a loop that
      ran over another number of samples the assertion fails and nothing
      is saved.  With [finetune] the number is not compared. *)
Theorem save_score_idx_size_assertion args nets num_data files loader epoch :
    Forall (batch_ok num_data nets) loader →
    (finetune args = false → length (concat loader) ≠ num_data →
     save_score_idx args nets num_data files loader epoch = Error AssertFailed) ∧
    (finetune args = true → is_Some epoch →
     ∃ r, save_score_idx args nets num_data files loader epoch = Ok r).
Proof.
    intros Hok. rewrite save_score_idx_loop by exact Hok. split.
    - intros -> Hne. cbn [negb]. rewrite bool_decide_eq_false_2 by exact Hne. reflexivity.
    - intros -> [e ->]. cbn [negb mbind result_bind]. rewrite !tensor_path_Some.
      cbn [mbind result_bind]. eauto.
Qed.

Lemma file_name_inj args (n1 n2 : string) e :
    file_name args n1 e = file_name args n2 e →
    n1 +:+ suffix args e = n2 +:+ suffix args e.
Proof.
    unfold file_name, ospj. intros Heq.
    apply (inj (String.app (checkpoint_dir args))) in Heq.
    apply (inj (String.app "/")) in Heq. exact Heq.
Qed.

(** X8.  The three tensors go to three different files of the
      checkpoint directory, named 'score_idx', 'wrong_idx' and
      'debias_idx' followed by the bias ratio (for 'stl10mnist') or by the
      epoch: after the call each of these files holds its tensor, and
      every other file is as it was.  For other data than 'stl10mnist' and
      without an epoch there is no file name, and the call fails once the
      loop is over. *)
Theorem save_score_idx_writes_three_files args nets num_data files loader epoch :
    Forall (batch_ok num_data nets) loader →
    (finetune args = false → length (concat loader) = num_data) →
    ((data args = "stl10mnist" ∨ is_Some epoch) →
     ∃ st files' e,
       save_score_idx args nets num_data files loader epoch = Ok (st, files') ∧
       (epoch = None ∨ epoch = Some e) ∧
       files' !! file_name args "score_idx" e = Some (score_idx st) ∧
       files' !! file_name args "wrong_idx" e = Some (wrong_idx st) ∧
       files' !! file_name args "debias_idx" e = Some (debias_idx st) ∧
       (∀ path, path ≠ file_name args "score_idx" e → path ≠ file_name args "wrong_idx" e →
                path ≠ file_name args "debias_idx" e → files' !! path = files !! path)) ∧
    (data args ≠ "stl10mnist" → epoch = None →
     save_score_idx args nets num_data files loader epoch
     = Error (LibraryError "AttributeError")).
Proof.
    intros Hok Hassert.
    rewrite save_score_idx_loop by exact Hok.
    assert ((if negb (finetune args)
             then py_assert (bool_decide (length (concat loader) = num_data))
             else Ok tt) = Ok tt) as ->.
    { destruct (finetune args); [reflexivity|]. cbn.
      rewrite bool_decide_eq_true_2 by (apply Hassert; reflexivity). reflexivity. }
    cbn [mbind result_bind]. split.
    - intros Hpath.
      assert (∃ e, (epoch = None ∨ epoch = Some e) ∧
                   ∀ name, tensor_path args name epoch = Ok (file_name args name e))
        as (e & He & Hnames).
      { destruct epoch as [e|].
        - exists e. split; [auto|]. intros name. apply tensor_path_Some.
        - destruct Hpath as [Hd | [e [=]]].
          exists 0. split; [auto|]. intros name. apply tensor_path_stl, Hd. }
      rewrite !Hnames. cbn [mbind result_bind].
      assert (file_name args "score_idx" e ≠ file_name args "wrong_idx" e) as H12.
      { intros Heq. apply file_name_inj in Heq. discriminate. }
      assert (file_name args "score_idx" e ≠ file_name args "debias_idx" e) as H13.
      { intros Heq. apply file_name_inj in Heq. discriminate. }
      assert (file_name args "wrong_idx" e ≠ file_name args "debias_idx" e) as H23.
      { intros Heq. apply file_name_inj in Heq. discriminate. }
      eexists _, _, e. split; [reflexivity|]. split; [exact He|].
      split; [|split; [|split]].
      + rewrite !lookup_insert_ne by auto. apply lookup_insert_eq.
      + rewrite lookup_insert_ne by auto. apply lookup_insert_eq.
      + apply lookup_insert_eq.
      + intros path N1 N2 N3. rewrite !lookup_insert_ne by auto. reflexivity.
    - intros Hd ->. unfold tensor_path.
      rewrite bool_decide_eq_false_2 by exact Hd. reflexivity.
Qed.
End ScoreFiles.

Module ScoreFileExamples.
Import Exact ERMSolver BiasScoreExamples.

Example untouched_index_keeps_zero :
    fst <$> save_score_idx
              {| finetune := true; data := "celebA"; bias_ratio := ""; checkpoint_dir := "ckpt";
                 ERM_epochs := 1; log_every_n_steps := 1; oversample_pth := None;
                 lambda_upweight := Rat 1; finetune_ratio := "0.1" |}
              nets 3 ∅ [[item 1 0 2]] (Some 0)
    = Ok {| score_idx := [Rat 0; Rat 0; Rat (1 # 2)];
            wrong_idx := [Rat 0; Rat 0; Rat 1];
            debias_idx := [Rat 0; Rat 0; Rat 1] |}.
Proof. vm_compute. reflexivity. Qed.

Example files_of_epoch_7 :
    dom <$> (snd <$> save_score_idx args nets 3 ∅ loader (Some 7))
    = Ok {[ "ckpt/score_idx7.pth"; "ckpt/wrong_idx7.pth"; "ckpt/debias_idx7.pth" ]}.
Proof. vm_compute. reflexivity. Qed.

Lemma save_score_idx_debias_and_untouched_witness :
    ∃ st files',
      save_score_idx args nets 3 ∅ loader (Some 0) = Ok (st, files') ∧
      length (score_idx st) = 3 ∧ length (wrong_idx st) = 3 ∧
      length (debias_idx st) = 3 ∧
      (∀ pre bpre s bpost post,
         loader = pre ++ (bpre ++ s :: bpost) :: post →
         Forall (fun s' => idx s' ≠ idx s) (bpost ++ concat post) →
         debias_idx st !! idx s
         = Some (if decide (label s = bias_label s) then zero else one)) ∧
      (∀ v, v < 3 → v ∉ idx <$> concat loader →
         score_idx st !! v = Some zero ∧ wrong_idx st !! v = Some zero ∧
         debias_idx st !! v = Some zero).
Proof.
    apply (save_score_idx_debias_and_untouched args nets 3 ∅ loader (Some 0)).
    - repeat (apply List.Forall_cons || apply List.Forall_nil || split
              || apply List.Forall2_cons || apply List.Forall2_nil || (cbn; lia)).
    - reflexivity.
    - right. eexists. reflexivity.
Defined.

Lemma save_score_idx_size_assertion_witness :
    save_score_idx args nets 3 ∅ [[item 0 0 0; item 0 0 1]] (Some 0) = Error AssertFailed.
Proof.
    apply (proj1 (save_score_idx_size_assertion args nets 3 ∅ [[item 0 0 0; item 0 0 1]]
                    (Some 0)
                    ltac:(repeat (apply List.Forall_cons || apply List.Forall_nil || split
                                  || apply List.Forall2_cons || apply List.Forall2_nil
                                  || (cbn; lia))))).
    - reflexivity.
    - cbn. lia.
Defined.

Lemma save_score_idx_writes_three_files_witness :
    ∃ st files' e,
      save_score_idx args nets 3 ∅ loader (Some 7) = Ok (st, files') ∧
      (Some 7 = None ∨ Some 7 = Some e) ∧
      files' !! file_name args "score_idx" e = Some (score_idx st) ∧
      files' !! file_name args "wrong_idx" e = Some (wrong_idx st) ∧
      files' !! file_name args "debias_idx" e = Some (debias_idx st) ∧
      (∀ path, path ≠ file_name args "score_idx" e → path ≠ file_name args "wrong_idx" e →
               path ≠ file_name args "debias_idx" e →
               files' !! path = (∅ : gmap string (list xrat)) !! path).
Proof.
    apply (proj1 (save_score_idx_writes_three_files args nets 3 ∅ loader (Some 7)
                    ltac:(repeat (apply List.Forall_cons || apply List.Forall_nil || split
                                  || apply List.Forall2_cons || apply List.Forall2_nil
                                  || (cbn; lia)))
                    ltac:(reflexivity))).
    right. eexists. reflexivity.
Defined.
End ScoreFileExamples.

(** ** The training loops: what a run that returns needs, and what it logs *)

Definition zero_division {A : Type} : result A := Error (LibraryError "ZeroDivisionError").

Lemma first_batch_logs k n : k ≠ 0 → 0 < n →
  existsb (fun j => bool_decide (j `mod` k = 0)) (seq 0 n) = true.
Proof.
  intros Hk Hn. destruct n as [|n]; [lia|]. cbn [seq existsb].
  rewrite bool_decide_eq_true_2 by (apply Nat.Div0.mod_0_l). reflexivity.
Qed.


Section ContrastiveOutcome.
Import SimCLRSolver.
Context {T : Type} `{Backend T}.

Lemma contrastive_step_unknown (args : Args T) epoch st i :
    known_mode (mode_CL args) = false → contrastive_step args epoch st i = unbound.
Proof. intros Hm. unfold contrastive_step. rewrite Hm. reflexivity. Qed.

Lemma contrastive_step_known (args : Args T) epoch st i :
    known_mode (mode_CL args) = true →
    contrastive_step args epoch st i = batch_step (log_every_n_steps args) epoch st i.
Proof. intros Hm. unfold contrastive_step. rewrite Hm. reflexivity. Qed.

End ContrastiveOutcome.

(** The iterations that a trace trains on, with their epoch; the
    iterations it logs; the epochs after which the scheduler steps. *)
Definition train_steps (tr : list event) : list (nat * nat) :=
  omap (fun e => match e with TrainStep epoch j => Some (epoch, j) | _ => None end) tr.
Definition logged (tr : list event) : list nat :=
  omap (fun e => match e with Logged j => Some j | _ => None end) tr.
Definition scheduler_steps (tr : list event) : list nat :=
  omap (fun e => match e with SchedulerStep epoch => Some epoch | _ => None end) tr.

Lemma train_steps_batch_events k epoch n0 n :
  train_steps (batch_events k epoch n0 n) = (fun j => (epoch, j)) <$> seq n0 n.
Proof.
  unfold batch_events, train_steps. revert n0. induction n as [|n IH]; intros n0; [reflexivity|].
  cbn [seq flat_map fmap list_fmap]. rewrite omap_app, IH.
  destruct (bool_decide (n0 `mod` k = 0)); reflexivity.
Qed.

Lemma logged_batch_events k epoch n0 n :
  logged (batch_events k epoch n0 n) = filter (fun j => j `mod` k = 0) (seq n0 n).
Proof.
  unfold batch_events, logged. revert n0. induction n as [|n IH]; intros n0; [reflexivity|].
  cbn [seq flat_map]. rewrite omap_app, IH, filter_cons.
  destruct (decide (n0 `mod` k = 0)) as [E|E].
  - rewrite bool_decide_eq_true_2 by exact E. reflexivity.
  - rewrite bool_decide_eq_false_2 by exact E. reflexivity.
Qed.

Lemma scheduler_steps_batch_events k epoch n0 n :
  scheduler_steps (batch_events k epoch n0 n) = [].
Proof.
  unfold batch_events, scheduler_steps. revert n0.
  induction n as [|n IH]; intros n0; [reflexivity|].
  cbn [seq flat_map]. rewrite omap_app, IH.
  destruct (bool_decide (n0 `mod` k = 0)); reflexivity.
Qed.

Lemma filter_ge_seq (a m w : nat) :
  filter (fun e => w ≤ e) (seq a m) = seq (a `max` w) (a + m - a `max` w).
Proof.
  revert a. induction m as [|m IH]; intros a.
  - replace (a + 0 - a `max` w) with 0 by lia. reflexivity.
  - cbn [seq]. rewrite filter_cons, IH. destruct (decide (w ≤ a)) as [Hw|Hw].
    + replace (a `max` w) with a by lia. replace (S a `max` w) with (S a) by lia.
      replace (a + S m - a) with (S m) by lia. replace (S a + m - S a) with m by lia.
      reflexivity.
    + replace (a `max` w) with w by lia. replace (S a `max` w) with w by lia.
      f_equal. lia.
Qed.

Section Iterations.
(** The iterations of any loop of epochs over [n] batches that logs
      every [k] steps and whose statements after the batches neither train
      nor log. *)
Variables (k n : nat).
Variable tail : nat → nat → list event.
Hypothesis loader_not_empty : 0 < n.
Hypothesis tail_trains_not : ∀ epoch j, train_steps (tail epoch j) = [].
Hypothesis tail_logs_not : ∀ epoch j, logged (tail epoch j) = [].

Lemma train_steps_epochs a m :
    train_steps (concat (epoch_events k n tail <$> seq a m))
    = (fun j => (j / n, j)) <$> seq (a * n) (m * n).
Proof.
    revert a. induction m as [|m IH]; intros a; [reflexivity|].
    cbn [seq]. rewrite fmap_cons. cbn [concat]. unfold train_steps at 1.
    rewrite omap_app. fold (train_steps (epoch_events k n tail a)).
    fold (train_steps (concat (epoch_events k n tail <$> seq (S a) m))).
    rewrite IH. unfold epoch_events at 1. unfold train_steps at 1. rewrite omap_app.
    fold (train_steps (batch_events k a (a * n) n)).
    fold (train_steps (tail a ((a + 1) * n))).
    rewrite tail_trains_not, app_nil_r, train_steps_batch_events.
    replace (S m * n) with (n + m * n) by lia. rewrite seq_app, fmap_app.
    replace (a * n + n) with (S a * n) by lia. f_equal.
    apply Forall_fmap_ext, Forall_forall. intros j Hj. apply elem_of_seq in Hj.
    f_equal. apply Nat.div_unique with (r := j - a * n); lia.
Qed.

Lemma logged_epochs a m :
    logged (concat (epoch_events k n tail <$> seq a m))
    = filter (fun j => j `mod` k = 0) (seq (a * n) (m * n)).
Proof.
    revert a. induction m as [|m IH]; intros a; [reflexivity|].
    cbn [seq]. rewrite fmap_cons. cbn [concat]. unfold logged at 1.
    rewrite omap_app. fold (logged (epoch_events k n tail a)).
    fold (logged (concat (epoch_events k n tail <$> seq (S a) m))).
    rewrite IH. unfold epoch_events at 1. unfold logged at 1. rewrite omap_app.
    fold (logged (batch_events k a (a * n) n)).
    fold (logged (tail a ((a + 1) * n))).
    rewrite tail_logs_not, app_nil_r, logged_batch_events.
    replace (S m * n) with (n + m * n) by lia. rewrite seq_app, filter_app.
    replace (a * n + n) with (S a * n) by lia. reflexivity.
Qed.
End Iterations.

Section Schedule.
Import SimCLRSolver.
Context {T : Type} `{Backend T}.

(** The number of warm-up epochs: [int(0.4 * simclr_epochs)], and
      [int(0.2 * simclr_epochs)] on 'imagenet'. *)
Definition warmup (args : Args T) : nat :=
    if bool_decide (data args ≠ "imagenet") then int_0_4 (simclr_epochs args)
    else int_0_2 (simclr_epochs args).

Lemma warmup_le (args : Args T) : warmup args ≤ simclr_epochs args.
Proof.
    unfold warmup, int_0_4, int_0_2. destruct (bool_decide _).
    - apply Nat.Div0.div_le_upper_bound. lia.
    - apply Nat.Div0.div_le_upper_bound. lia.
Qed.

Lemma scheduler_steps_epochs (args : Args T) k n a m :
    scheduler_steps (concat (epoch_events k n (simclr_tail args) <$> seq a m))
    = filter (fun e => warmup args ≤ e) (seq a m).
Proof.
    revert a. induction m as [|m IH]; intros a; [reflexivity|].
    cbn [seq]. rewrite fmap_cons. cbn [concat]. unfold scheduler_steps at 1.
    rewrite omap_app.
    fold (scheduler_steps (concat (epoch_events k n (simclr_tail args) <$> seq (S a) m))).
    rewrite IH. unfold epoch_events. rewrite omap_app.
    fold (scheduler_steps (batch_events k a (a * n) n)).
    rewrite scheduler_steps_batch_events. cbn [app].
    unfold simclr_tail. fold (warmup args). rewrite filter_cons.
    destruct (decide (warmup args ≤ a));
      destruct (decide ((a + 1) `mod` save_every args = 0)); reflexivity.
Qed.

(** X11.  A run of [contrastive_train] that returns has trained on the
      iterations 0, 1, ... up to the number of epochs times the number of
      batches, iteration [j] in epoch [j / n_batches]; it has logged at
      exactly the iterations that are multiples of [log_every_n_steps]; and
      the learning-rate scheduler has stepped after exactly the epochs from
      the warm-up on, that is [simclr_epochs] minus the warm-up times.  The
      warm-up is [int(0.4 * simclr_epochs)] epochs, and
      [int(0.2 * simclr_epochs)] when the data is 'imagenet'. *)
Theorem contrastive_train_iterations (args : Args T) (n_batches : nat) :
    0 < simclr_epochs args → 0 < n_batches →
    0 < log_every_n_steps args → 0 < save_every args →
    known_mode (mode_CL args) = true →
    ∃ st,
      contrastive_train args n_batches = Ok st ∧
      n_iter st = simclr_epochs args * n_batches ∧
      train_steps (trace st)
      = (fun j => (j / n_batches, j)) <$> seq 0 (simclr_epochs args * n_batches) ∧
      logged (trace st)
      = filter (fun j => j `mod` log_every_n_steps args = 0)
               (seq 0 (simclr_epochs args * n_batches)) ∧
      scheduler_steps (trace st)
      = seq (warmup args) (simclr_epochs args - warmup args).
Proof.
    intros HE Hn Hk Hs Hmode.
    assert (∀ epoch st i, contrastive_step args epoch st i
                          = batch_step (log_every_n_steps args) epoch st i) as Hstep.
    { intros epoch st i. apply contrastive_step_known, Hmode. }
    assert (∀ epoch st, loss_bound st = true → top1_bound st = true →
              after_epoch args epoch st
              = Ok (emit (simclr_tail args epoch (n_iter st)) st)) as Hafter.
    { intros epoch st. apply simclr_after_epoch. lia. }
    assert (∀ epoch j, train_steps (simclr_tail args epoch j) = []) as Ht.
    { intros epoch j. unfold simclr_tail.
      destruct (decide (_ ≤ epoch)); destruct (decide (_ = 0)); reflexivity. }
    assert (∀ epoch j, logged (simclr_tail args epoch j) = []) as Hl.
    { intros epoch j. unfold simclr_tail.
      destruct (decide (_ ≤ epoch)); destruct (decide (_ = 0)); reflexivity. }
    unfold contrastive_train.
    change (foldM _ initial_state (seq 0 (simclr_epochs args)))
      with (foldM (epoch_body n_batches (contrastive_step args) (after_epoch args))
                  initial_state (seq 0 (simclr_epochs args))).
    rewrite (epochs_run (log_every_n_steps args) n_batches _ _ (simclr_tail args)
               Hstep Hafter ltac:(lia) Hn _ 0 initial_state eq_refl
               (or_intror eq_refl) HE).
    cbn [mbind result_bind epoch_counter]. eexists. split; [reflexivity|].
    cbn [emit initial_state n_iter trace app]. split; [reflexivity|].
    split; [|split].
    - unfold train_steps. rewrite omap_app.
      fold (train_steps (concat (epoch_events (log_every_n_steps args) n_batches
                                   (simclr_tail args) <$> seq 0 (simclr_epochs args)))).
      rewrite (train_steps_epochs _ _ _ Hn Ht). cbn [omap]. rewrite app_nil_r.
      reflexivity.
    - unfold logged. rewrite omap_app.
      fold (logged (concat (epoch_events (log_every_n_steps args) n_batches
                              (simclr_tail args) <$> seq 0 (simclr_epochs args)))).
      rewrite (logged_epochs _ _ _ Hn Hl). cbn [omap]. rewrite app_nil_r. reflexivity.
    - unfold scheduler_steps. rewrite omap_app.
      fold (scheduler_steps (concat (epoch_events (log_every_n_steps args) n_batches
                                       (simclr_tail args) <$> seq 0 (simclr_epochs args)))).
      rewrite scheduler_steps_epochs, filter_ge_seq. cbn [omap]. rewrite app_nil_r.
      pose proof (warmup_le args). f_equal; lia.
Qed.
End Schedule.

Module IterationExamples.
Import Exact TrainingExamples.

(** Five epochs of two batches, logging every third step: the warm-up
      is [int(0.4 * 5) = 2] epochs. *)
Example five_epochs :
    (fun st => (logged (trace st), scheduler_steps (trace st)))
      <$> SimCLRSolver.contrastive_train (simclr_args 5 2) 2
    = Ok ([0; 3; 6; 9], [2; 3; 4]).
Proof. vm_compute. reflexivity. Qed.

Example unknown_mode :
    SimCLRSolver.contrastive_train
      {| SimCLRSolver.batch_size := 2; SimCLRSolver.n_views := 2;
         SimCLRSolver.temperature := Rat (7 # 100);
         SimCLRSolver.lambda_vicReg_pos := Rat 25; SimCLRSolver.lambda_vicReg_std := Rat 25;
         SimCLRSolver.lambda_vicReg_cov := Rat 1;
         SimCLRSolver.simclr_epochs := 2; SimCLRSolver.save_every := 1;
         SimCLRSolver.log_every_n_steps := 3; SimCLRSolver.data := "celebA";
         SimCLRSolver.mode_CL := "BYOL" |} 2
    = Error (LibraryError "UnboundLocalError").
Proof. vm_compute. reflexivity. Qed.

Lemma contrastive_train_iterations_witness :
    ∃ st,
      SimCLRSolver.contrastive_train (simclr_args 5 2) 2 = Ok st ∧
      n_iter st = 5 * 2 ∧
      train_steps (trace st) = (fun j => (j / 2, j)) <$> seq 0 (5 * 2) ∧
      logged (trace st) = filter (fun j => j `mod` 3 = 0) (seq 0 (5 * 2)) ∧
      scheduler_steps (trace st)
      = seq (warmup (simclr_args 5 2)) (5 - warmup (simclr_args 5 2)).
Proof.
    apply (contrastive_train_iterations (simclr_args 5 2) 2); cbn; solve [lia | reflexivity].
Defined.
End IterationExamples.

(** ** The off-diagonal entries, in both solvers *)

Section OffDiagonalEntries.
Context {T : Type} `{Backend T}.

(** The diagonal of a matrix, and the rows without their diagonal
      entry. *)
Definition diagonal (x : list (list T)) : list T :=
    imap (fun i row => nth i row zero) x.
Definition without_diagonal (x : list (list T)) : list T :=
    concat (imap (fun i row => delete i row) x).

Lemma diagonal_split (k : nat) (x : list (list T)) :
    (∀ i row, x !! i = Some row → k + i < length row) →
    imap (fun i row => nth (k + i) row zero) x
      ++ concat (imap (fun i row => delete (k + i) row) x)
    ≡ₚ concat x.
Proof.
    revert k. induction x as [|row x IH]; intros k Hx; [reflexivity|].
    cbn [imap concat]. rewrite Nat.add_0_r.
    assert (k < length row) as Hk by (specialize (Hx 0 row eq_refl); lia).
    destruct (lookup_lt_is_Some_2 row k Hk) as [v Hv].
    rewrite (nth_lookup_Some _ _ zero _ Hv).
    rewrite (delete_Permutation row k v Hv) at 2.
    cbn [app]. constructor.
    rewrite <- (IH (S k)).
    - assert (imap ((fun i row => nth (k + i) row zero) ∘ S) x
              = imap (fun i row => nth (S k + i) row zero) x) as ->
        by (apply imap_ext; intros; cbn; f_equal; lia).
      assert (imap ((fun i (row : list T) => delete (k + i) row) ∘ S) x
              = imap (fun i row => delete (S k + i) row) x) as ->
        by (apply imap_ext; intros; cbn; f_equal; lia).
      rewrite !app_assoc. apply Permutation_app_tail. apply Permutation_app_comm.
    - intros i r Hr. specialize (Hx (S i) r Hr). lia.
Qed.

Lemma length_without_diagonal (x : list (list T)) :
    Forall (fun row => length row = length x) x →
    length (without_diagonal x) = length x * (length x - 1).
Proof.
    intros Hsq.
    pose proof (diagonal_split 0 x) as Hp. cbn [Nat.add] in Hp.
    apply Permutation_length in Hp.
    - rewrite length_app, length_imap in Hp.
      rewrite (length_concat_uniform (length x) x) in Hp by exact Hsq.
      unfold without_diagonal. nia.
    - intros i row Hi. rewrite Forall_forall in Hsq.
      rewrite (Hsq row) by (eapply list_elem_of_lookup_2, Hi).
      apply lookup_lt_Some in Hi. exact Hi.
Qed.

(** X12.  [off_diagonal] is the same function in [ERMSolver] and in
      [SimCLRSolver].  On a square matrix it returns every row without its
      diagonal entry, in the order of the rows: [n * (n - 1)] entries that
      together with the diagonal are the entries of the matrix.  On a
      matrix whose number of rows differs from its number of columns the
      assertion fails. *)
Theorem off_diagonal_of_square_matrix (x : list (list T)) :
    ERMSolver.off_diagonal x = SimCLRSolver.off_diagonal x ∧
    (Forall (fun row => length row = length x) x →
     SimCLRSolver.off_diagonal x = Ok (without_diagonal x) ∧
     length (without_diagonal x) = length x * (length x - 1) ∧
     diagonal x ++ without_diagonal x ≡ₚ concat x) ∧
    (length x ≠ ncols x → SimCLRSolver.off_diagonal x = Error AssertFailed).
Proof.
    split; [reflexivity|]. split.
    - intros Hsq. split; [apply off_diagonal_square, Hsq|].
      split; [apply length_without_diagonal, Hsq|].
      apply (diagonal_split 0 x). intros i row Hi. rewrite Forall_forall in Hsq.
      rewrite (Hsq row) by (eapply list_elem_of_lookup_2, Hi).
      apply lookup_lt_Some in Hi. exact Hi.
    - intros Hne. unfold SimCLRSolver.off_diagonal.
      rewrite bool_decide_eq_false_2 by exact Hne. reflexivity.
Qed.
End OffDiagonalEntries.

Module OffDiagonalExamples.
Import Exact.

Definition three_by_three : list (list xrat) :=
    [[Rat 1; Rat 2; Rat 3]; [Rat 4; Rat 5; Rat 6]; [Rat 7; Rat 8; Rat 9]].

Example one_by_one : ERMSolver.off_diagonal [[Rat 1]] = Ok [].
Proof. reflexivity. Qed.

Example no_rows : ERMSolver.off_diagonal (T := xrat) [] = Ok [].
Proof. reflexivity. Qed.

Lemma off_diagonal_of_square_matrix_witness :
    SimCLRSolver.off_diagonal three_by_three = Ok (without_diagonal three_by_three) ∧
    length (without_diagonal three_by_three) = 3 * (3 - 1) ∧
    diagonal three_by_three ++ without_diagonal three_by_three ≡ₚ concat three_by_three.
Proof.
    apply (proj1 (proj2 (off_diagonal_of_square_matrix three_by_three))).
    repeat constructor.
Defined.
End OffDiagonalExamples.

(** ** training/SimCLRSolver.py: batches that the losses reject *)

Section RejectedBatches.
Import SimCLRSolver.
Context {T : Type} `{Backend T}.

Lemma mse_loss_rows (a b : list (list T)) :
    (∃ v, mse_loss a b = Ok v) ↔ length a = length b ∨ length a = 1 ∨ length b = 1.
Proof.
    unfold mse_loss. destruct (decide (length a = length b)) as [E|E].
    - split; [auto | intros _; cbn; eauto].
    - destruct a as [|r [|r' a]]; destruct b as [|s [|s' b]]; cbn in *;
        (split; [intros [v Hv]; try discriminate; lia | intros Hl; try lia; eauto]).
Qed.

Lemma mse_loss_error (a b : list (list T)) :
    (¬ ∃ v, mse_loss a b = Ok v) → mse_loss a b = Error (LibraryError "RuntimeError").
Proof.
    unfold mse_loss. destruct (decide (length a = length b)) as [E|E].
    - intros Hn. exfalso. apply Hn. cbn. eauto.
    - destruct a as [|r [|r' a]]; destruct b as [|s [|s' b]]; cbn in *;
        intros Hn; try reflexivity; exfalso; apply Hn; eauto.
Qed.

(** X13.  [vicReg_loss] returns exactly when the batch has an even
      number of rows, or one row, or three rows.  With an even number the
      two halves are equal; with one or three rows the mean squared error
      broadcasts the shorter half against the longer one; with any other
      odd number of rows the halves cannot be compared and the loss fails
      with RuntimeError. *)
Theorem vicReg_loss_returns_iff (args : Args T) (dim : nat) (features : list (list T)) :
    let n := length features in
    ((∃ v, vicReg_loss args dim features = Ok v) ↔ Nat.Even n ∨ n = 1 ∨ n = 3) ∧
    (Nat.Odd n → 5 ≤ n → vicReg_loss args dim features = Error (LibraryError "RuntimeError")).
Proof.
    intros n.
    assert (length (take (n / 2) features) = n / 2) as Ht.
    { rewrite length_take. pose proof (Nat.Div0.div_le_upper_bound n 2 n). fold n. lia. }
    assert (length (drop (n / 2) features) = n - n / 2) as Hd
      by (rewrite length_drop; reflexivity).
    assert (∀ v, mse_loss (take (n / 2) features) (drop (n / 2) features) = Ok v →
                 ∃ r, vicReg_loss args dim features = Ok r) as Hok.
    { intros v Hv. unfold vicReg_loss. fold n. rewrite Hv. cbn [mbind result_bind].
      rewrite !off_diagonal_cov. cbn [mbind result_bind]. eauto. }
    assert (Nat.Even n ∨ n = 1 ∨ n = 3 ↔
            n / 2 = n - n / 2 ∨ n / 2 = 1 ∨ n - n / 2 = 1) as Hshape.
    { pose proof (Nat.div_mod_eq n 2) as Hdm.
      pose proof (Nat.mod_upper_bound n 2 ltac:(lia)) as Hm.
      split.
      - intros [[h Hh] | [-> | ->]]; [left; lia | right; right; reflexivity | right; left; reflexivity].
      - intros [He | [He | He]].
        + left. exists (n / 2). lia.
        + destruct (decide (n `mod` 2 = 0)); [left; exists (n / 2); lia | right; right; lia].
        + destruct (decide (n `mod` 2 = 0)); [left; exists (n / 2); lia | right; left; lia]. }
    assert ((∃ v, vicReg_loss args dim features = Ok v) ↔ Nat.Even n ∨ n = 1 ∨ n = 3) as Hiff.
    { rewrite Hshape.
      assert (n / 2 = n - n / 2 ∨ n / 2 = 1 ∨ n - n / 2 = 1
              ↔ ∃ v, mse_loss (take (n / 2) features) (drop (n / 2) features) = Ok v) as ->
        by (rewrite mse_loss_rows, Ht, Hd; reflexivity).
      split.
      - intros [v Hv]. unfold vicReg_loss in Hv. fold n in Hv.
        apply bind_Ok_inv in Hv as (m & Hm & _). eauto.
      - intros [v Hv]. eapply Hok, Hv. }
    split; [exact Hiff|].
    intros Hodd H5. unfold vicReg_loss. fold n.
    rewrite mse_loss_error; [reflexivity|].
    rewrite mse_loss_rows, Ht, Hd, <- Hshape.
    intros [He | [-> | ->]]; [|lia..].
    destruct Hodd as [h Hh]. destruct He as [h' Hh']. lia.
Qed.

Lemma masked_select_rows {A : Type} (m : list (list A)) (mask : list (list bool)) :
    length m ≠ length mask → masked_select m mask = Error (LibraryError "IndexError").
Proof.
    intros Hne. unfold masked_select. rewrite decide_False; [reflexivity|].
    intros Heq. apply (f_equal length) in Heq. rewrite !length_fmap in Heq. exact (Hne Heq).
Qed.

(** X14.  [info_nce_loss] returns exactly when there is at least one
      view and one image and the feature matrix has [n_views * batch_size]
      rows.  A matrix with another number of rows does not fit the mask of
      the diagonal, and indexing it raises IndexError. *)
Theorem info_nce_loss_returns_iff (args : Args T) (features : list (list T)) :
    ((∃ r, info_nce_loss args features = Ok r)
     ↔ 0 < n_views args ∧ 0 < batch_size args
       ∧ length features = n_views args * batch_size args) ∧
    (0 < n_views args → 0 < batch_size args →
     length features ≠ n_views args * batch_size args →
     info_nce_loss args features = Error (LibraryError "IndexError")).
Proof.
    assert (n_views args = 0 →
            info_nce_loss args features = Error (LibraryError "RuntimeError")) as H0.
    { intros Hv. unfold info_nce_loss. rewrite decide_True by exact Hv. reflexivity. }
    assert (0 < n_views args → batch_size args = 0 →
            info_nce_loss args features = Error (LibraryError "RuntimeError")) as H1.
    { intros Hv Hb. unfold info_nce_loss. rewrite decide_False by lia.
      cbn [mbind result_bind]. rewrite Hb.
      assert (∀ m, concat (replicate m (seq 0 0)) = []) as ->
        by (intros m; induction m as [|m IH]; [reflexivity | exact IH]).
      reflexivity. }
    assert (0 < n_views args → 0 < batch_size args →
            length features ≠ n_views args * batch_size args →
            info_nce_loss args features = Error (LibraryError "IndexError")) as H2.
    { intros Hv Hb Hlen. set (N := n_views args * batch_size args) in *.
      assert (N ≠ 0) as HN by (subst N; nia).
      unfold info_nce_loss. rewrite decide_False by lia. cbn [mbind result_bind].
      rewrite label_matrix_rows. fold N.
      rewrite !length_fmap, !length_seq. unfold eye.
      rewrite (mask_not_rows (fun i j => bool_decide (i = j)) (fun _ => seq 0 N)).
      rewrite bind_assoc.
      rewrite (masked_select_view N (N - 1)
                 (fun i j => bool_decide (j `mod` batch_size args = i `mod` batch_size args))
                 (fun i j => negb (bool_decide (i = j)))
                 (fun _ => seq 0 N) HN).
      2:{ intros i Hi. apply count_not_diag; auto. }
      cbn [mbind result_bind].
      rewrite (masked_select_rows (matmul_cols _ _)); [reflexivity|].
      unfold matmul_cols. rewrite !length_fmap, length_seq. exact Hlen. }
    split; [|exact H2]. split.
    - intros [r Hr].
      destruct (decide (n_views args = 0)) as [Hv|Hv]; [rewrite (H0 Hv) in Hr; discriminate|].
      destruct (decide (batch_size args = 0)) as [Hb|Hb];
        [rewrite (H1 ltac:(lia) Hb) in Hr; discriminate|].
      destruct (decide (length features = n_views args * batch_size args)) as [Hl|Hl];
        [lia|].
      rewrite (H2 ltac:(lia) ltac:(lia) Hl) in Hr. discriminate.
    - intros (Hv & Hb & Hlen).
      assert (length features ≠ 0) as Hn by (rewrite Hlen; nia).
      assert (∀ i, i < length features → i < n_views args * batch_size args) as Hin
        by (intros i; rewrite Hlen; trivial).
      unfold info_nce_loss.
      rewrite decide_False by lia. cbn [mbind result_bind].
      rewrite label_matrix_rows, <- Hlen.
      rewrite similarity_matrix_rows.
      rewrite !length_fmap, !length_seq.
      unfold eye.
      rewrite (mask_not_rows (fun i j => bool_decide (i = j))
                 (fun _ => seq 0 (length features))).
      rewrite bind_assoc.
      rewrite (masked_select_view (length features) (length features - 1)
                 (fun i j => bool_decide (j `mod` batch_size args = i `mod` batch_size args))
                 (fun i j => negb (bool_decide (i = j)))
                 (fun _ => seq 0 (length features)) Hn).
      2:{ intros i Hi. rewrite Hlen. apply count_not_diag; auto. }
      cbn [mbind result_bind].
      rewrite bind_assoc.
      rewrite (masked_select_view (length features) (length features - 1)
                 (cosine_similarity features)
                 (fun i j => negb (bool_decide (i = j)))
                 (fun _ => seq 0 (length features)) Hn).
      2:{ intros i Hi. rewrite Hlen. apply count_not_diag; auto. }
      cbn [mbind result_bind]. rewrite !length_fmap, !length_seq.
      rewrite bind_assoc.
      rewrite (masked_select_view (length features) (n_views args - 1)
                 (cosine_similarity features)
                 (fun i j => bool_decide (j `mod` batch_size args = i `mod` batch_size args))
                 (fun i => filter (fun j => negb (bool_decide (i = j)) = true)
                                  (seq 0 (length features))) Hn).
      2:{ intros i Hi. rewrite Hlen. apply count_positives; auto. }
      cbn [mbind result_bind].
      rewrite (mask_not_rows
                 (fun i j => bool_decide (j `mod` batch_size args = i `mod` batch_size args))
                 (fun i => filter (fun j => negb (bool_decide (i = j)) = true)
                                  (seq 0 (length features)))).
      rewrite bind_assoc.
      rewrite (masked_select_view (length features) (length features - n_views args)
                 (cosine_similarity features)
                 (fun i j => negb (bool_decide (j `mod` batch_size args
                                                = i `mod` batch_size args)))
                 (fun i => filter (fun j => negb (bool_decide (i = j)) = true)
                                  (seq 0 (length features))) Hn).
      2:{ intros i Hi. rewrite Hlen. apply count_negatives; auto. }
      cbn [mbind result_bind].
      unfold cat_dim1. rewrite !length_fmap, !length_seq, decide_True by reflexivity.
      cbn [mbind result_bind]. eauto.
Qed.
End RejectedBatches.

Module RejectedBatchExamples.
Import Exact SimCLRSolver.

(** Five rows: halves of two and three rows. *)
Example five_rows :
    vicReg_loss InfoNCEExamples.args 2
      [[Rat 1; Rat 0]; [Rat 3; Rat 2]; [Rat 2; Rat 1]; [Rat 4; Rat 3]; [Rat 0; Rat 0]]
    = Error (LibraryError "RuntimeError").
Proof. vm_compute. reflexivity. Qed.

(** Three rows: the first is compared with both others, and the loss is
      a number. *)
Example three_rows :
    isnan <$> vicReg_loss InfoNCEExamples.args 2
                [[Rat 1; Rat 0]; [Rat 3; Rat 2]; [Rat 2; Rat 1]]
    = Ok true.
Proof. vm_compute. reflexivity. Qed.
End RejectedBatchExamples.

(** ** training/ERMSolver.py: the validation reports *)

Lemma zip_with_seq_imap {A B C : Type} (f : A → B → C) (g : nat → B) (k : nat) (l : list A) :
  zip_with f l (g <$> seq k (length l)) = imap (fun i x => f x (g (k + i))) l.
Proof.
  revert k. induction l as [|x l IH]; intros k; [reflexivity|].
  cbn [length seq fmap list_fmap zip_with imap]. rewrite Nat.add_0_r. f_equal.
  rewrite IH. apply imap_ext. intros i y _. cbn. f_equal. f_equal. lia.
Qed.

Lemma select_row_diagonal {A : Type} (d : A) (i k : nat) (row : list A) :
  select_row row ((fun j => bool_decide (i = j)) <$> seq k (length row))
  = if decide (k ≤ i < k + length row) then [nth (i - k) row d] else [].
Proof.
  revert k. induction row as [|x row IH]; intros k.
  - cbn. destruct (decide _); [lia | reflexivity].
  - cbn [length seq fmap list_fmap select_row]. rewrite IH.
    destruct (decide (i = k)) as [->|Hik].
    + rewrite bool_decide_eq_true_2 by reflexivity.
      rewrite decide_False by lia. rewrite decide_True by lia.
      rewrite Nat.sub_diag. reflexivity.
    + rewrite bool_decide_eq_false_2 by exact Hik.
      destruct (decide (S k ≤ i < S k + length row)) as [Hin|Hout].
      * rewrite decide_True by lia.
        replace (i - k) with (S (i - S k)) by lia. reflexivity.
      * rewrite decide_False by lia. reflexivity.
Qed.

Lemma select_row_off_diagonal {A : Type} (i k : nat) (row : list A) :
  select_row row ((fun j => negb (bool_decide (i = j))) <$> seq k (length row))
  = if decide (k ≤ i) then delete (i - k) row else row.
Proof.
  revert k. induction row as [|x row IH]; intros k.
  - cbn. destruct (decide _); reflexivity.
  - cbn [length seq fmap list_fmap select_row]. rewrite IH.
    destruct (decide (i = k)) as [->|Hik].
    + rewrite bool_decide_eq_true_2 by reflexivity. cbn [negb].
      rewrite decide_False by lia. rewrite decide_True by lia.
      rewrite Nat.sub_diag. reflexivity.
    + rewrite bool_decide_eq_false_2 by exact Hik. cbn [negb].
      destruct (decide (S k ≤ i)) as [Hin|Hout].
      * rewrite decide_True by lia.
        replace (i - k) with (S (i - S k)) by lia. reflexivity.
      * rewrite decide_False by lia. reflexivity.
Qed.

Lemma concat_imap_singleton {A B : Type} (f : nat → A → B) (l : list A) :
  concat (imap (fun i x => [f i x]) l) = imap f l.
Proof.
  revert f. induction l as [|x l IH]; intros f; [reflexivity|].
  cbn [imap concat app]. f_equal. apply (IH (f ∘ S)).
Qed.

Lemma eye_shape {A : Type} (n : nat) (x : list (list A)) :
  length <$> x = length <$> eye n
  ↔ length x = n ∧ Forall (fun row => length row = n) x.
Proof.
  unfold eye. rewrite <- list_fmap_compose.
  rewrite (list_fmap_ext _ (fun _ => n) (seq 0 n))
    by (intros; cbn; rewrite length_fmap, length_seq; reflexivity).
  split.
  - intros Heq. assert (length x = n) as Hl.
    { apply (f_equal length) in Heq. rewrite !length_fmap, length_seq in Heq. exact Heq. }
    split; [exact Hl|]. apply Forall_forall. intros row Hrow.
    apply list_elem_of_lookup in Hrow as [i Hi].
    apply (f_equal (fun l => l !! i)) in Heq.
    rewrite !list_lookup_fmap, Hi in Heq. cbn in Heq.
    destruct (seq 0 n !! i); cbn in Heq; congruence.
  - intros [Hl Hrows]. apply list_eq. intros i.
    rewrite !list_lookup_fmap.
    destruct (x !! i) as [row|] eqn:Hi; cbn.
    + rewrite Forall_forall in Hrows.
      rewrite (Hrows row) by (eapply list_elem_of_lookup_2, Hi).
      apply lookup_lt_Some in Hi.
      rewrite lookup_seq_lt by lia. reflexivity.
    + apply lookup_ge_None in Hi. rewrite lookup_seq_ge by lia. reflexivity.
Qed.

Section Reports.
Import ERMSolver.
Context {T : Type} `{Backend T}.

Lemma masked_select_eye (n : nat) (x : list (list T)) :
    length x = n → Forall (fun row => length row = n) x →
    masked_select x (eye n) = Ok (diagonal x) ∧
    masked_select x (mask_not (eye n)) = Ok (without_diagonal x).
Proof.
    intros <- Hrows.
    assert (length <$> x = length <$> eye (length x)) as Hshape by (apply eye_shape; auto).
    unfold masked_select. rewrite decide_True by exact Hshape.
    rewrite decide_True.
    2:{ rewrite Hshape. unfold mask_not. rewrite <- list_fmap_compose.
        apply list_fmap_ext. intros _ row _. cbn. rewrite length_fmap. reflexivity. }
    unfold eye.
    rewrite (mask_not_rows (fun i j => bool_decide (i = j)) (fun _ => seq 0 (length x))).
    rewrite !zip_with_seq_imap.
    rewrite Forall_forall in Hrows.
    split; f_equal.
    - unfold diagonal.
      rewrite (imap_ext _ (fun i row => [nth i row zero])).
      + apply concat_imap_singleton.
      + intros i row Hi. cbn.
        pose proof (Hrows row ltac:(eapply list_elem_of_lookup_2, Hi)) as Hr.
        apply lookup_lt_Some in Hi.
        rewrite <- Hr at 1. rewrite (select_row_diagonal zero).
        rewrite decide_True by lia. rewrite Nat.sub_0_r. reflexivity.
    - unfold without_diagonal. f_equal. apply imap_ext. intros i row Hi. cbn.
      pose proof (Hrows row ltac:(eapply list_elem_of_lookup_2, Hi)) as Hr.
      rewrite <- Hr at 1. rewrite select_row_off_diagonal.
      rewrite decide_True by lia. rewrite Nat.sub_0_r. reflexivity.
Qed.

(** X15.  On a square matrix of accuracies with [attr_dim] rows,
      [report_validation] reports the given total under 'Acc/total', the
      mean of the diagonal under 'Acc/align' and the mean of all the
      other entries under 'Acc/conflict', each with the given step.  On a
      matrix of another shape the mask of the diagonal does not fit, and
      the call raises IndexError. *)
Theorem report_validation_align_and_conflict (attr_dim : nat)
      (valid_attrwise_acc : list (list T)) (valid_acc : T) (step : nat) :
    let square := length valid_attrwise_acc = attr_dim
                  ∧ Forall (fun row => length row = attr_dim) valid_attrwise_acc in
    (square →
     report_validation attr_dim valid_attrwise_acc valid_acc step
     = Ok [("Acc/total", valid_acc, step);
           ("Acc/align", mean (diagonal valid_attrwise_acc), step);
           ("Acc/conflict", mean (without_diagonal valid_attrwise_acc), step)]) ∧
    (¬ square →
     report_validation attr_dim valid_attrwise_acc valid_acc step
     = Error (LibraryError "IndexError")).
Proof.
    intros square. split.
    - intros [Hl Hrows]. unfold report_validation.
      destruct (masked_select_eye attr_dim valid_attrwise_acc Hl Hrows) as [-> ->].
      reflexivity.
    - intros Hns. unfold report_validation.
      assert (masked_select valid_attrwise_acc (eye attr_dim)
              = Error (LibraryError "IndexError")) as ->; [|reflexivity].
      unfold masked_select. rewrite decide_False; [reflexivity|].
      intros Hshape. apply Hns. apply eye_shape, Hshape.
Qed.
End Reports.

Module ReportExamples.
Import Exact ERMSolver.

(** Two attributes: the accuracies of the aligned groups are on the
      diagonal. *)
Example two_attributes :
    report_validation 2 [[Rat 1; Rat (1 # 2)]; [Rat (1 # 4); Rat 1]] (Rat (3 # 4)) 5
    = Ok [("Acc/total", Rat (3 # 4), 5); ("Acc/align", Rat 1, 5);
          ("Acc/conflict", Rat (3 # 8), 5)].
Proof. vm_compute. reflexivity. Qed.
End ReportExamples.

(** ** training/ERMSolver.py: [validate_imagenet] *)

Lemma foldM_app {A S : Type} (f : S → A → result S) (s : S) (xs ys : list A) :
  foldM f s (xs ++ ys) = foldM f s xs ≫= (fun s' => foldM f s' ys).
Proof.
  revert s. induction xs as [|x xs IH]; intros s; [reflexivity|].
  cbn [app foldM]. destruct (f s x) as [s'|e]; [apply IH | reflexivity].
Qed.

Lemma foldM_total {A S : Type} (f : S → A → result S) (g : S → A → S) (P : A → Prop)
    (s : S) (xs : list A) :
  (∀ s x, P x → f s x = Ok (g s x)) → Forall P xs → foldM f s xs = Ok (fold_left g xs s).
Proof.
  intros Hf Hxs. revert s. induction Hxs as [|x xs Hx _ IH]; intros s; [reflexivity|].
  cbn [foldM fold_left]. rewrite (Hf s x Hx). apply IH.
Qed.

Lemma foldM_steps {A S : Type} (f : S → A → result S) (s s' : S) (xs : list A) (x : A) :
  foldM f s xs = Ok s' → x ∈ xs → ∃ a b, f a x = Ok b.
Proof.
  revert s. induction xs as [|y xs IH]; intros s Hs Hx; [inversion Hx|].
  cbn [foldM] in Hs. apply bind_Ok_inv in Hs as (b & Hb & Hs).
  apply elem_of_cons in Hx as [->|Hx]; [eauto | exact (IH b Hs Hx)].
Qed.

Ltac inv_binds H :=
  repeat match type of H with
         | _ ≫= _ = Ok _ =>
             let x := fresh "x" in let E := fresh "E" in
             apply bind_Ok_inv in H as (x & E & H)
         end.

Section ImagenetValidation.
Import ERMSolver.
Context {T : Type} `{Backend T} {Image Feat : Type}.
Implicit Types (nets : Nets T Image Feat) (batch : imagenet_batch Image).
Implicit Types (table : list (list nat)) (num_correct num_instance : list (list (list nat))).

(** The output of the classifier on a batch. *)
Definition outputs_of nets batch : list (list T) :=
    classifier nets (ResNet.penultimate_features (encoder nets) (images batch)).

(** The samples whose largest logit is at their label. *)
Definition hits (output : list (list T)) (labels : list nat) : nat :=
    length (filter (fun rl => argmax rl.1 = rl.2) (zip output labels)).

(** A batch with one label per row of logits and no empty row. *)
Definition labelled nets batch : Prop :=
    length (outputs_of nets batch) = length (labels batch)
    ∧ Forall (fun row => row ≠ []) (outputs_of nets batch).

Lemma hits_le output labels : hits output labels ≤ length labels.
Proof.
    unfold hits. etransitivity; [apply length_filter|].
    rewrite length_zip. lia.
Qed.

Lemma max_dim1_total (pred : list (list T)) :
    Forall (fun row => row ≠ []) pred → max_dim1 pred = Ok (argmax <$> pred).
Proof.
    intros Hne. unfold max_dim1. apply mapM_Ok_total.
    eapply Forall_impl; [exact Hne|]. intros [|x row] Hrow; [contradiction | reflexivity].
Qed.

Lemma n_correct_hits (pred : list (list T)) (labels : list nat) :
    length pred = length labels → Forall (fun row => row ≠ []) pred →
    n_correct pred labels = Ok (hits pred labels).
Proof.
    intros Hlen Hne. unfold n_correct. rewrite (max_dim1_total pred Hne).
    cbn [mbind result_bind]. unfold eq_labels.
    rewrite length_fmap, decide_True by exact Hlen. cbn [mbind result_bind]. f_equal.
    unfold hits. clear Hne. revert labels Hlen.
    induction pred as [|row pred IH]; intros [|l labels] Hlen; try discriminate;
      [reflexivity|].
    cbn [fmap list_fmap zip_with zip]. rewrite filter_cons. cbn [fst snd].
    change (sum_list (?x :: ?l)) with (x + sum_list l).
    rewrite (IH labels) by (cbn in Hlen; lia).
    destruct (decide (argmax row = l)) as [E|E].
    - rewrite bool_decide_eq_true_2 by exact E. reflexivity.
    - rewrite bool_decide_eq_false_2 by exact E. reflexivity.
Qed.

(** X16.  For another key than 'unbiased' and batches with one label
      per row of logits, [validate_imagenet] returns the number of samples
      whose largest logit is at their label over the number of samples,
      and no arrays; the number of hits is at most the number of samples.
      When the loader yields no sample the division fails with
      ZeroDivisionError. *)
Theorem validate_imagenet_accuracy nets (val_loader : list (imagenet_batch Image))
      (num_classes num_clusters num_cluster_repeat : nat) (key : option string) :
    key ≠ Some "unbiased" →
    Forall (labelled nets) val_loader →
    let total := sum_list ((fun batch => length (labels batch)) <$> val_loader) in
    let correct :=
      sum_list ((fun batch => hits (outputs_of nets batch) (labels batch)) <$> val_loader) in
    correct ≤ total ∧
    validate_imagenet nets val_loader num_classes num_clusters num_cluster_repeat key
    = if decide (total = 0) then Error (LibraryError "ZeroDivisionError")
      else Ok (div (of_nat correct) (of_nat total), None).
Proof.
    intros Hkey Hwf total correct. split.
    - subst total correct. clear Hwf. induction val_loader as [|batch l IH]; [reflexivity|].
      cbn [fmap list_fmap].
      change (sum_list (?x :: ?l)) with (x + sum_list l).
      pose proof (hits_le (outputs_of nets batch) (labels batch)). lia.
    - unfold validate_imagenet. cbv zeta.
      rewrite (bool_decide_eq_false_2 (key = Some "unbiased")) by exact Hkey.
      rewrite (foldM_total _
                 (fun acc batch =>
                    (acc.1.1.1 + length (labels batch),
                     acc.1.1.2 + hits (outputs_of nets batch) (labels batch),
                     acc.1.2, acc.2))
                 (labelled nets)); [| |exact Hwf].
      + assert (∀ l a,
                  fold_left
                    (fun (acc : nat * nat * list (list (list nat)) * list (list (list nat)))
                         batch =>
                       (acc.1.1.1 + length (labels batch),
                        acc.1.1.2 + hits (outputs_of nets batch) (labels batch),
                        acc.1.2, acc.2)) l a
                  = (a.1.1.1 + sum_list ((fun batch => length (labels batch)) <$> l),
                     a.1.1.2 + sum_list ((fun batch => hits (outputs_of nets batch)
                                                            (labels batch)) <$> l),
                     a.1.2, a.2)) as Hfold.
        { induction l as [|batch l IH]; intros [[[t f] c] i].
          - cbn [fold_left fmap list_fmap fst snd].
            change (sum_list []) with 0. rewrite !Nat.add_0_r. reflexivity.
          - cbn [fold_left fmap list_fmap]. rewrite IH. cbn [fst snd].
            change (sum_list (?x :: ?l)) with (x + sum_list l).
            rewrite !Nat.add_assoc. reflexivity. }
        rewrite Hfold. cbn [fst snd mbind result_bind Nat.add]. fold total correct.
        reflexivity.
      + intros [[[t f] c] i] batch [Hlen Hne]. cbn [fst snd].
        change (ResNet.forward (encoder nets) (images batch) true false false false false
                ≫= _)
          with (n_correct (outputs_of nets batch) (labels batch)
                ≫= fun n => Ok (t + length (labels batch), f + n, c, i)).
        rewrite (n_correct_hits _ _ Hlen Hne). reflexivity.
Qed.
(** *** The key 'unbiased' *)

(** The samples that a table counts, and the samples that the table of
      clustering [k] counts. *)
Definition samples table : nat := sum_list (concat table).
Definition counted num_instance (k : nat) : nat :=
    from_option samples 0 (num_instance !! k).

(** Every count of correct predictions is at most the count of
      instances of its cell. *)
Definition below num_correct num_instance : Prop :=
    Forall2 (Forall2 (Forall2 le)) num_correct num_instance.

Lemma getitem_Ok_inv {A : Type} (l : list A) (i : nat) (x : A) :
    getitem l i = Ok x → l !! i = Some x.
Proof. unfold getitem. destruct (l !! i); [intros [= ->]; reflexivity | discriminate]. Qed.

Lemma sum_list_insert_add (row : list nat) (i v x : nat) :
    row !! i = Some v → sum_list (<[i := v + x]> row) = sum_list row + x.
Proof.
    assert (∀ a l, sum_list (a :: l) = a + sum_list l) as Hcons by reflexivity.
    revert i. induction row as [|y row IH]; intros [|i] Hv; try discriminate.
    - injection Hv as ->. cbn [insert list_insert]. rewrite !Hcons. lia.
    - pose proof (IH i Hv) as Hi.
      change (<[S i := v + x]> (y :: row)) with (y :: <[i := v + x]> row).
      rewrite !Hcons, Hi. lia.
Qed.

Lemma samples_insert table (l x : nat) (row row' : list nat) :
    table !! l = Some row → sum_list row' = sum_list row + x →
    samples (<[l := row']> table) = samples table + x.
Proof.
    unfold samples. revert l. induction table as [|r table IH]; intros [|l] Hl Hrow;
      try discriminate.
    - injection Hl as ->.
      change (<[0 := row']> (row :: table)) with (row' :: table).
      cbn [concat]. rewrite !sum_list_with_app, Hrow. lia.
    - pose proof (IH l Hl Hrow) as Hi.
      change (<[S l := row']> (r :: table)) with (r :: <[l := row']> table).
      cbn [concat]. rewrite !sum_list_with_app, Hi. lia.
Qed.

Lemma bump_samples table (label cluster_label x : nat) table' :
    bump table label cluster_label x = Ok table' →
    samples table' = samples table + x ∧ length table' = length table.
Proof.
    unfold bump. intros Hb. inv_binds Hb. injection Hb as <-.
    apply getitem_Ok_inv in E, E0. split; [|apply length_insert].
    apply (samples_insert _ _ _ x0 _ E). apply sum_list_insert_add, E0.
Qed.

Lemma bump_below (tc ti : list (list nat)) (label cluster_label x y : nat) tc' ti' :
    x ≤ y → Forall2 (Forall2 le) tc ti →
    bump tc label cluster_label x = Ok tc' → bump ti label cluster_label y = Ok ti' →
    Forall2 (Forall2 le) tc' ti'.
Proof.
    unfold bump. intros Hxy Hle Hc Hi. inv_binds Hc. inv_binds Hi.
    injection Hc as <-. injection Hi as <-.
    apply getitem_Ok_inv in E, E0, E1, E2.
    pose proof (Forall2_lookup_lr _ _ _ _ _ _ Hle E E1) as Hrows.
    pose proof (Forall2_lookup_lr _ _ _ _ _ _ Hrows E0 E2) as Hcell.
    apply Forall2_insert; [exact Hle|]. apply Forall2_insert; [exact Hrows | lia].
Qed.

(** The body of the loops of [imagenet_unbiased_accuracy]. *)
Definition count_one (outputs : list (list T)) (labels : list nat)
      (cluster_labels : list (list nat)) (j : nat)
      (acc : list (list (list nat)) * list (list (list nat))) (i : nat)
      : result (list (list (list nat)) * list (list (list nat))) :=
    let '(num_correct, num_instance) := acc in
    output ← getitem outputs i;
    label ← getitem labels i;
    clusters ← getitem cluster_labels j;
    cluster_label ← getitem clusters i;
    pred ← top1 output;
    let correct := if bool_decide (pred = label) then 1 else 0 in
    table ← getitem num_correct j;
    table ← bump table label cluster_label correct;
    let num_correct := <[j := table]> num_correct in
    table ← getitem num_instance j;
    table ← bump table label cluster_label 1;
    Ok (num_correct, <[j := table]> num_instance).

Lemma imagenet_unbiased_accuracy_loops outputs labels cluster_labels num_correct
      num_instance (num_cluster_repeat : nat) :
    imagenet_unbiased_accuracy outputs labels cluster_labels num_correct num_instance
      num_cluster_repeat
    = foldM (fun acc j =>
               foldM (count_one outputs labels cluster_labels j) acc
                     (seq 0 (length outputs)))
            (num_correct, num_instance) (seq 0 num_cluster_repeat).
Proof. reflexivity. Qed.

(** What a run of the loops keeps and what it adds to the counts of
      clustering [k]. *)
Definition counts_grow (acc acc' : list (list (list nat)) * list (list (list nat)))
      (added : nat → nat) : Prop :=
    length acc'.1 = length acc.1 ∧ length acc'.2 = length acc.2 ∧
    (∀ k, counted acc'.2 k = counted acc.2 k + added k) ∧
    (below acc.1 acc.2 → below acc'.1 acc'.2).

Lemma count_one_grows outputs labels cluster_labels j acc i acc' :
    count_one outputs labels cluster_labels j acc i = Ok acc' →
    counts_grow acc acc' (fun k => if decide (k = j) then 1 else 0).
Proof.
    destruct acc as [nc ni]. unfold count_one. intros Hc. inv_binds Hc.
    injection Hc as <-. unfold counts_grow. cbn [fst snd].
    apply getitem_Ok_inv in E4, E6.
    destruct (bump_samples _ _ _ _ _ E7) as [Hs _].
    split; [apply length_insert|]. split; [apply length_insert|]. split.
    - intros k. unfold counted. destruct (decide (k = j)) as [->|Hk].
      + rewrite list_lookup_insert_eq by (eapply lookup_lt_Some, E6).
        rewrite E6. cbn. exact Hs.
      + rewrite list_lookup_insert_ne by congruence. lia.
    - intros Hle. apply Forall2_insert; [exact Hle|].
      refine (bump_below _ _ _ _ _ 1 _ _ _ (Forall2_lookup_lr _ _ _ _ _ _ Hle E4 E6) E5 E7).
      destruct (bool_decide _); lia.
Qed.

Lemma counts_grow_trans acc1 acc2 acc3 f g h :
    counts_grow acc1 acc2 f → counts_grow acc2 acc3 g → (∀ k, h k = f k + g k) →
    counts_grow acc1 acc3 h.
Proof.
    intros (L1 & L2 & C & B) (L1' & L2' & C' & B') Hh.
    split; [congruence|]. split; [congruence|]. split; [|auto].
    intros k. rewrite C', C, Hh. lia.
Qed.

Lemma counts_grow_refl acc f : (∀ k, f k = 0) → counts_grow acc acc f.
Proof.
    intros Hf. split; [reflexivity|]. split; [reflexivity|]. split; [|auto].
    intros k. rewrite Hf. lia.
Qed.

Lemma inner_loop_grows outputs labels cluster_labels j (l : list nat) acc acc' :
    foldM (count_one outputs labels cluster_labels j) acc l = Ok acc' →
    counts_grow acc acc' (fun k => if decide (k = j) then length l else 0).
Proof.
    revert acc. induction l as [|i l IH]; intros acc Hf.
    - injection Hf as <-. apply counts_grow_refl. intros k. destruct (decide _); reflexivity.
    - cbn [foldM] in Hf. apply bind_Ok_inv in Hf as (acc1 & H1 & Hf).
      eapply counts_grow_trans; [eapply count_one_grows, H1 | apply IH, Hf |].
      intros k. cbn [length]. destruct (decide (k = j)); lia.
Qed.

Lemma loops_grow outputs labels cluster_labels (r : nat) acc acc' :
    foldM (fun acc j =>
             foldM (count_one outputs labels cluster_labels j) acc (seq 0 (length outputs)))
          acc (seq 0 r) = Ok acc' →
    counts_grow acc acc' (fun k => if decide (k < r) then length outputs else 0).
Proof.
    revert acc'. induction r as [|r IH]; intros acc' Hf.
    - injection Hf as <-. apply counts_grow_refl. intros k. destruct (decide _); [lia|reflexivity].
    - rewrite seq_S, foldM_app in Hf. apply bind_Ok_inv in Hf as (acc1 & H1 & Hf).
      cbn [Nat.add foldM] in Hf. apply bind_Ok_inv in Hf as (acc2 & H2 & Hf).
      injection Hf as <-.
      eapply counts_grow_trans; [apply IH, H1 | eapply inner_loop_grows, H2 |].
      intros k. cbn beta. rewrite length_seq.
      destruct (decide (k < S r)), (decide (k < r)), (decide (k = r)); lia.
Qed.

(** X17.  Whenever [imagenet_unbiased_accuracy] returns, the arrays
      have as many tables as before, the table of every clustering below
      [num_cluster_repeat] counts as many more instances as the batch has
      rows while the other tables count what they counted, and if no count
      of correct predictions exceeded its count of instances before, none
      does after. *)
Theorem imagenet_unbiased_accuracy_counts (outputs : list (list T)) (labels : list nat)
      (cluster_labels : list (list nat)) num_correct num_instance (num_cluster_repeat : nat)
      num_correct' num_instance' :
    imagenet_unbiased_accuracy outputs labels cluster_labels num_correct num_instance
      num_cluster_repeat = Ok (num_correct', num_instance') →
    length num_correct' = length num_correct ∧ length num_instance' = length num_instance ∧
    (∀ k, counted num_instance' k
          = counted num_instance k
            + (if decide (k < num_cluster_repeat) then length outputs else 0)) ∧
    (below num_correct num_instance → below num_correct' num_instance').
Proof.
    rewrite imagenet_unbiased_accuracy_loops. intros Hf.
    exact (loops_grow _ _ _ _ _ _ Hf).
Qed.
End ImagenetValidation.

Section UnbiasedValidation.
Import ERMSolver.
Context {T : Type} `{Backend T} {Image Feat : Type}.
Implicit Types (nets : Nets T Image Feat) (batch : imagenet_batch Image).

Lemma zeros_entries (c k : nat) : Forall (eq 0) (concat (replicate c (replicate k 0))).
Proof.
    induction c as [|c IH]; [constructor|]. cbn [replicate concat].
    apply Forall_app. split; [|exact IH].
    apply Forall_forall. intros x Hx. apply elem_of_replicate in Hx as [-> _]. reflexivity.
Qed.

Lemma sum_list_zeros (l : list nat) : Forall (eq 0) l → sum_list l = 0.
Proof. induction 1 as [|x l <- _ IH]; [reflexivity | exact IH]. Qed.

Lemma counted_zeros (r c k j : nat) :
    counted (replicate r (replicate c (replicate k 0))) j = 0.
Proof.
    unfold counted. destruct (decide (j < r)) as [Hj|Hj].
    - rewrite (lookup_replicate_2 r _ j Hj). cbn. apply sum_list_zeros, zeros_entries.
    - rewrite (proj1 (lookup_replicate_None r _ j)) by lia. reflexivity.
Qed.

Lemma elem_le_sum_list (x : nat) (l : list nat) : x ∈ l → x ≤ sum_list l.
Proof.
    induction l as [|y l IH]; intros Hx; [inversion Hx|].
    change (sum_list (y :: l)) with (y + sum_list l).
    apply elem_of_cons in Hx as [->|Hx]; [lia | specialize (IH Hx); lia].
Qed.

Lemma unbiased_batches nets (r : nat)
      (body : nat * nat * list (list (list nat)) * list (list (list nat))
              → imagenet_batch Image
              → result (nat * nat * list (list (list nat)) * list (list (list nat))))
      (loader : list (imagenet_batch Image)) acc acc' :
    (∀ t f nc ni batch,
       body (t, f, nc, ni) batch
       = imagenet_unbiased_accuracy (outputs_of nets batch) (labels batch)
           (bias_labels batch) nc ni r
         ≫= fun '(nc', ni') => Ok (t + length (labels batch), f, nc', ni')) →
    foldM body acc loader = Ok acc' →
    counts_grow (acc.1.2, acc.2) (acc'.1.2, acc'.2)
      (fun k => if decide (k < r)
                then sum_list ((fun batch => length (outputs_of nets batch)) <$> loader)
                else 0).
Proof.
    intros Hbody. revert acc. induction loader as [|batch loader IH]; intros acc Hf.
    - injection Hf as <-. apply counts_grow_refl. intros k. destruct (decide _); reflexivity.
    - cbn [foldM] in Hf. apply bind_Ok_inv in Hf as (acc1 & H1 & Hf).
      destruct acc as [[[t f] nc] ni]. rewrite Hbody in H1.
      apply bind_Ok_inv in H1 as ([nc1 ni1] & Hu & H1). injection H1 as <-.
      rewrite imagenet_unbiased_accuracy_loops in Hu.
      eapply counts_grow_trans; [exact (loops_grow _ _ _ _ _ _ Hu) | exact (IH _ Hf) |].
      intros k. cbn [fmap list_fmap].
      change (sum_list (?x :: ?l)) with (x + sum_list l).
      destruct (decide (k < r)); lia.
Qed.

(** X18.  With the key 'unbiased', whenever [validate_imagenet]
      returns there is at least one clustering, the two saved arrays hold
      one table per clustering, no count of correct predictions exceeds the
      count of instances of its cell, and the table of every clustering has
      counted each sample of the loader once and has a cell with at least
      10 samples: a loader with fewer than 10 samples never gets an
      unbiased accuracy.  On a loader without batches the call fails with
      ZeroDivisionError. *)
Theorem validate_imagenet_unbiased nets (val_loader : list (imagenet_batch Image))
      (num_classes num_clusters num_cluster_repeat : nat) :
    let n := sum_list ((fun batch => length (outputs_of nets batch)) <$> val_loader) in
    let run := validate_imagenet nets val_loader num_classes num_clusters
                 num_cluster_repeat (Some "unbiased") in
    (∀ acc saved, run = Ok (acc, saved) →
       0 < num_cluster_repeat ∧ 10 ≤ n ∧
       ∃ num_correct num_instance,
         saved = Some (num_correct, num_instance) ∧
         length num_correct = num_cluster_repeat ∧
         length num_instance = num_cluster_repeat ∧
         below num_correct num_instance ∧
         Forall (fun table => samples table = n ∧ ∃ cell, cell ∈ concat table ∧ 10 ≤ cell)
                num_instance) ∧
    (val_loader = [] → run = Error (LibraryError "ZeroDivisionError")).
Proof.
    intros n run. subst run. unfold validate_imagenet. cbv zeta.
    rewrite (bool_decide_eq_true_2 (Some "unbiased" = Some "unbiased")) by reflexivity.
    set (zeros := replicate num_cluster_repeat
                    (replicate num_classes (replicate num_clusters 0))).
    split.
    - intros acc saved Hrun.
      apply bind_Ok_inv in Hrun as ([[[total f] nc] ni] & Hloop & Hrun).
      apply (unbiased_batches nets num_cluster_repeat) in Hloop;
        [|intros; reflexivity].
      cbn [fst snd] in Hloop. fold n in Hloop.
      destruct Hloop as (Lc & Li & Hcount & Hbelow). cbn [fst snd] in Lc, Li, Hcount, Hbelow.
      subst zeros. rewrite length_replicate in Lc, Li.
      apply bind_Ok_inv in Hrun as (fc & Hfold & Hrun).
      destruct (decide (num_cluster_repeat = 0)) as [|Hr]; [discriminate|].
      injection Hrun as <- <-.
      assert (Forall (fun table => samples table = n
                                   ∧ ∃ cell, cell ∈ concat table ∧ 10 ≤ cell) ni) as Hall.
      { apply Forall_lookup. intros k table Hk.
        pose proof (lookup_lt_Some _ _ _ Hk) as Hlt. rewrite Li in Hlt.
        split.
        - specialize (Hcount k). unfold counted at 1 in Hcount. rewrite Hk in Hcount.
          rewrite counted_zeros, decide_True in Hcount by exact Hlt. exact Hcount.
        - destruct (foldM_steps _ _ _ _ k Hfold) as (a & b & Hstep);
            [apply elem_of_seq; lia|].
          cbn beta in Hstep. inv_binds Hstep.
          apply getitem_Ok_inv in E, E0. rewrite Hk in E0. injection E0 as <-.
          destruct (decide (length _ = 0)) as [|Hne] in Hstep; [discriminate|].
          rewrite length_fmap in Hne.
          destruct (filter _ _) as [|ci cells] eqn:Hcells in Hne; [contradiction|].
          assert (ci ∈ filter (fun ci : nat * nat => 10 ≤ ci.2)
                              (zip (concat x) (concat table))) as Hci
            by (rewrite Hcells; apply list_elem_of_here).
          apply list_elem_of_filter in Hci as [H10 Hzip].
          exists ci.2. split; [|exact H10].
          destruct ci as [c i]. eapply elem_of_zip_r, Hzip. }
      split; [lia|]. split.
      + destruct ni as [|table ni]; [cbn in Li; lia|].
        apply Forall_cons in Hall as [(Hs & cell & Hcell & H10) _].
        rewrite <- Hs. unfold samples.
        pose proof (elem_le_sum_list _ _ Hcell). lia.
      + exists nc, ni. split; [reflexivity|]. split; [exact Lc|]. split; [exact Li|].
        split; [apply Hbelow; unfold below; reflexivity | exact Hall].
    - intros ->. cbn [foldM mbind result_bind].
      destruct num_cluster_repeat as [|r]; [reflexivity|].
      cbn [seq foldM]. subst zeros. cbn [replicate].
      assert (∀ (x : list (list nat)) l, getitem (x :: l) 0 = Ok x) as Hhead by reflexivity.
      rewrite !Hhead. cbn [mbind result_bind].
      rewrite (filter_none (fun ci : nat * nat => 10 ≤ ci.2)); [reflexivity|].
      apply Forall_forall. intros [c i] Hci. cbn.
      apply elem_of_zip_r in Hci.
      pose proof (zeros_entries num_classes num_clusters) as Hz.
      rewrite Forall_forall in Hz. rewrite <- (Hz i Hci). lia.
Qed.
End UnbiasedValidation.

Module ImagenetExamples.
Import Exact ERMSolver BiasScoreExamples.

(** Three one-pixel images; the logits of pixel [z] are [(z, 0)], so the
      first and the third are classified as 0 and the second as 1. *)
Definition three : imagenet_batch Z :=
    {| images := [1; -1; 1]%Z; labels := [0; 0; 1]; bias_labels := [[0; 0; 0]] |}.

(** Ten images of class 0 that one clustering puts into cluster 0. *)
Definition ten : imagenet_batch Z :=
    {| images := replicate 10 1%Z; labels := replicate 10 0;
       bias_labels := [replicate 10 0] |}.

Example one_hit_of_three :
    validate_imagenet nets [three] 2 1 1 None = Ok (Rat (1 # 3), None).
Proof. vm_compute. reflexivity. Qed.

Example unbiased_of_three :
    validate_imagenet nets [three] 2 1 1 (Some "unbiased")
    = Error (LibraryError "ZeroDivisionError").
Proof. vm_compute. reflexivity. Qed.

Example unbiased_of_ten :
    validate_imagenet nets [ten] 1 1 1 (Some "unbiased")
    = Ok (Rat 1, Some ([[[10]]], [[[10]]])).
Proof. vm_compute. reflexivity. Qed.

(** A label outside the classes of the tables. *)
Example unbiased_label_outside :
    validate_imagenet nets [three] 1 1 1 (Some "unbiased")
    = Error (LibraryError "IndexError").
Proof. vm_compute. reflexivity. Qed.

Lemma validate_imagenet_accuracy_witness :
    hits (outputs_of nets three) (labels three) + 0 ≤ 3 ∧
    validate_imagenet nets [three] 2 1 1 None
    = Ok (div (of_nat (hits (outputs_of nets three) (labels three) + 0)) (of_nat 3), None).
Proof.
    apply (validate_imagenet_accuracy nets [three] 2 1 1 None).
    - discriminate.
    - repeat constructor; discriminate.
Defined.

Lemma imagenet_unbiased_accuracy_counts_witness :
    length [[[1; 0]; [0; 0]]] = 1 ∧ length [[[1; 1]; [0; 0]]] = 1 ∧
    (∀ k, counted [[[1; 1]; [0; 0]]] k
          = counted [[[0; 0]; [0; 0]]] k + (if decide (k < 1) then 2 else 0)) ∧
    (below [[[0; 0]; [0; 0]]] [[[0; 0]; [0; 0]]]
     → below [[[1; 0]; [0; 0]]] [[[1; 1]; [0; 0]]]).
Proof.
    apply (imagenet_unbiased_accuracy_counts
             [[Rat 1; Rat 0]; [Rat 0; Rat 1]] [0; 0] [[0; 1]]
             [[[0; 0]; [0; 0]]] [[[0; 0]; [0; 0]]] 1).
    vm_compute. reflexivity.
Defined.

Lemma validate_imagenet_unbiased_witness :
    0 < 1 ∧ 10 ≤ 10 ∧
    ∃ num_correct num_instance,
      Some ([[[10]]], [[[10]]]) = Some (num_correct, num_instance) ∧
      length num_correct = 1 ∧ length num_instance = 1 ∧
      below num_correct num_instance ∧
      Forall (fun table => samples table = 10 ∧ ∃ cell, cell ∈ concat table ∧ 10 ≤ cell)
             num_instance.
Proof.
    apply (proj1 (validate_imagenet_unbiased nets [ten] 1 1 1) (Rat 1)
                 (Some ([[[10]]], [[[10]]]))).
    vm_compute. reflexivity.
Defined.
End ImagenetExamples.

(** ** training/OversampleSolver.py: the file of the pseudo labels *)

Section PseudoLabelFiles.
Import OversampleSolver.
Context {T : Type} `{Backend T}.
Implicit Types (args : Args T) (files : Files T).

(** X19.  Whenever [make_pseudo_label] returns, the score file of
      lambda 0 existed, and the files are as before but for
      'wrong_index_final.pth' in the checkpoint directory, which holds one
      label, 0 or 1, per entry of that score file; for other data than
      'imagenet' the file 'debias_idx.pth' of the checkpoint directory
      existed before the call.  Without the score file of lambda 0 the
      call fails with FileNotFoundError, whatever [lambda_list] names. *)
Theorem make_pseudo_label_writes_one_file args files :
    (∀ files', make_pseudo_label args files = Ok files' →
       arrays files' = arrays files ∧
       ∃ score pseudo_label,
         tensors files !! score_file_name args zero = Some score ∧
         tensors files' = <[wrong_index_final args := pseudo_label]> (tensors files) ∧
         length pseudo_label = length score ∧
         Forall (fun x => x = zero ∨ x = one) pseudo_label ∧
         (data args ≠ "imagenet" →
          is_Some (tensors files !! ospj (checkpoint_dir args) "debias_idx.pth"))) ∧
    (tensors files !! score_file_name args zero = None →
     make_pseudo_label args files = Error (LibraryError "FileNotFoundError")).
Proof.
    split; [intros files'; apply make_pseudo_label_inv|].
    intros Hnone. unfold make_pseudo_label, torch_load. rewrite Hnone. reflexivity.
Qed.

(** The sampling weights of a linear evaluation without finetuning. *)
Definition weights_of args (labels : list T) : list T :=
    (fun w => if eqb w one then lambda_upweight args else one) <$> labels.

Lemma upweight_of_plain files (path : string) args (labels : list T) :
    upweight_of files false path (lambda_upweight args) labels = Ok (weights_of args labels).
Proof.
    unfold upweight_of, weights_of. cbn [mbind result_bind]. f_equal.
    rewrite zip_with_replicate_r_eq by reflexivity. reflexivity.
Qed.

Lemma train_with_labels args loads files (labels : list T) :
    oversample_pth args = None → finetune args = false →
    loads (simclr_epochs args) "biased_simclr" = true →
    tensors files !! wrong_index_final args = Some labels →
    train_with_oversampling args loads files
    = Ok (weights_of args labels, "debiased_linear", false).
Proof.
    intros Hpth Hft Hload Hl. unfold train_with_oversampling. rewrite Hpth.
    assert (path_exists files (wrong_index_final args) = true) as Hex.
    { unfold path_exists. rewrite Hl, bool_decide_eq_true_2 by eauto. reflexivity. }
    rewrite Hex. cbn [mbind result_bind]. rewrite Hload, Hex. cbn [andb mbind result_bind].
    unfold torch_load at 1. rewrite Hl. cbn [of_option mbind result_bind].
    rewrite Hft, upweight_of_plain. reflexivity.
Qed.

(** X20.  Without a given label file and without finetuning, and
      with a pretrained checkpoint, [train_with_oversampling] uses the
      labels of 'wrong_index_final.pth' as they are when that file exists;
      when no such path exists it makes the pseudo labels first, and it
      returns what it returns on the files that [make_pseudo_label] leaves,
      so that a second run gives the same weights.  In both cases a sample
      gets the weight [lambda_upweight] when its label is 1 and the weight
      1 otherwise, and the evaluation is the linear one.  An error of
      [make_pseudo_label] is the error of the call. *)
Theorem train_with_oversampling_makes_labels_once args
      (loads : nat → string → bool) files :
    oversample_pth args = None → finetune args = false →
    loads (simclr_epochs args) "biased_simclr" = true →
    (∀ labels, tensors files !! wrong_index_final args = Some labels →
       train_with_oversampling args loads files
       = Ok (weights_of args labels, "debiased_linear", false)) ∧
    (path_exists files (wrong_index_final args) = false →
     (∀ files', make_pseudo_label args files = Ok files' →
        ∃ labels,
          tensors files' !! wrong_index_final args = Some labels ∧
          train_with_oversampling args loads files
          = Ok (weights_of args labels, "debiased_linear", false) ∧
          train_with_oversampling args loads files'
          = train_with_oversampling args loads files) ∧
     (∀ e, make_pseudo_label args files = Error e →
        train_with_oversampling args loads files = Error e)).
Proof.
    intros Hpth Hft Hload. split; [intros labels; apply train_with_labels; assumption|].
    intros Hno. split.
    - intros files' Hm.
      destruct (make_pseudo_label_inv args files files' Hm)
        as (_ & _ & pseudo_label & _ & Htensors & _).
      assert (tensors files' !! wrong_index_final args = Some pseudo_label) as Hl
        by (rewrite Htensors; apply lookup_insert_eq).
      exists pseudo_label. split; [exact Hl|].
      assert (train_with_oversampling args loads files
              = train_with_oversampling args loads files') as Hsame.
      { rewrite (train_with_labels args loads files' pseudo_label) by assumption.
        unfold train_with_oversampling. rewrite Hpth, Hno, Hm.
        assert (path_exists files' (wrong_index_final args) = true) as Hex.
        { unfold path_exists. rewrite Hl, bool_decide_eq_true_2 by eauto. reflexivity. }
        cbn [mbind result_bind]. rewrite Hload, Hex. cbn [andb mbind result_bind].
        unfold torch_load at 1. rewrite Hl. cbn [of_option mbind result_bind].
        rewrite Hft, upweight_of_plain. reflexivity. }
      split; [|symmetry; exact Hsame].
      rewrite Hsame. apply train_with_labels; assumption.
    - intros e He. unfold train_with_oversampling. rewrite Hpth, Hno, He. reflexivity.
Qed.
End PseudoLabelFiles.

Module OversampleExamples.
Import Exact OversampleSolver.

Definition args : Args xrat :=
    {| score_file_template := PseudoLabelExamples.template;
       lambda_list := [Rat 0; Rat 1]; cutoff := Rat (1 # 2);
       checkpoint_dir := "ckpt"; data := "celebA"; oversample_pth := None;
       simclr_epochs := 100; finetune := false; finetune_ratio := "0.1";
       lambda_upweight := Rat 5 |}.

(** The means of the two score files are 1/2, 3/4 and 1/4: the second
      sample gets the label 1 and the weight 5. *)
Example weights_after_making_labels :
    train_with_oversampling args (fun _ _ => true) PseudoLabelExamples.files
    = Ok ([Rat 1; Rat 5; Rat 1], "debiased_linear", false).
Proof. vm_compute. reflexivity. Qed.

(** Existing labels are used as they are, and the score files are not
      read. *)
Example weights_of_existing_labels :
    train_with_oversampling args (fun _ _ => true)
      {| tensors := {[ "ckpt/wrong_index_final.pth" := [Rat 1; Rat 0] ]}; arrays := ∅ |}
    = Ok ([Rat 5; Rat 1], "debiased_linear", false).
Proof. vm_compute. reflexivity. Qed.

Lemma train_with_oversampling_makes_labels_once_witness :
    (∀ labels,
       tensors PseudoLabelExamples.files !! wrong_index_final args = Some labels →
       train_with_oversampling args (fun _ _ => true) PseudoLabelExamples.files
       = Ok (weights_of args labels, "debiased_linear", false)) ∧
    (path_exists PseudoLabelExamples.files (wrong_index_final args) = false →
     (∀ files', make_pseudo_label args PseudoLabelExamples.files = Ok files' →
        ∃ labels,
          tensors files' !! wrong_index_final args = Some labels ∧
          train_with_oversampling args (fun _ _ => true) PseudoLabelExamples.files
          = Ok (weights_of args labels, "debiased_linear", false) ∧
          train_with_oversampling args (fun _ _ => true) files'
          = train_with_oversampling args (fun _ _ => true) PseudoLabelExamples.files) ∧
     (∀ e, make_pseudo_label args PseudoLabelExamples.files = Error e →
        train_with_oversampling args (fun _ _ => true) PseudoLabelExamples.files
        = Error e)).
Proof.
    apply (train_with_oversampling_makes_labels_once args (fun _ _ => true)
             PseudoLabelExamples.files); reflexivity.
Defined.
End OversampleExamples.

(** ** The two places that reweight the samples *)

Section Reweighting.
Context {T : Type} `{Backend T}.

(** X21.  [ERMSolver.__init__] and
      [OversampleSolver.train_with_oversampling] hold the same lines for
      the sampling weights.  Given the same label file, finetune flag,
      checkpoint directory, finetune ratio and [lambda_upweight], and a
      pretrained checkpoint that loads, they compute the same weights or
      fail with the same error -- unless [lambda_upweight] equals 1, where
      the constructor does not reweight at all, so that with finetune the
      samples outside the subset keep their place in its loader. *)
Theorem reweighting_agrees (erm : ERMSolver.Args T) (over : OversampleSolver.Args T)
      (loads : nat → string → bool) (files : Files T) (pth : string) :
    ERMSolver.oversample_pth erm = Some pth →
    OversampleSolver.oversample_pth over = Some pth →
    ERMSolver.finetune erm = OversampleSolver.finetune over →
    ERMSolver.checkpoint_dir erm = OversampleSolver.checkpoint_dir over →
    ERMSolver.finetune_ratio erm = OversampleSolver.finetune_ratio over →
    ERMSolver.lambda_upweight erm = OversampleSolver.lambda_upweight over →
    is_Some (tensors files !! pth) →
    loads (OversampleSolver.simclr_epochs over) "biased_simclr" = true →
    (eqb (ERMSolver.lambda_upweight erm) one = false →
     ERMSolver.init_upweight erm files
     = (fun r => Some r.1.1) <$> OversampleSolver.train_with_oversampling over loads files) ∧
    (eqb (ERMSolver.lambda_upweight erm) one = true →
     ERMSolver.init_upweight erm files = Ok None).
Proof.
    intros He Ho Hft Hdir Hratio Hl [labels Hlabels] Hload. split.
    - intros Hne. unfold ERMSolver.init_upweight, OversampleSolver.train_with_oversampling.
      rewrite He, Ho, Hne, Hft, Hdir, Hratio, Hl.
      assert (path_exists files pth = true) as Hex.
      { unfold path_exists. rewrite Hlabels, bool_decide_eq_true_2 by eauto. reflexivity. }
      rewrite Hex. cbn [negb mbind result_bind]. rewrite Hload, Hex.
      cbn [andb mbind result_bind].
      unfold torch_load. rewrite Hlabels. cbn [of_option mbind result_bind].
      destruct (upweight_of files _ _ _ labels) as [u|e]; [|reflexivity].
      cbn [mbind result_bind]. destruct (OversampleSolver.finetune over); reflexivity.
    - intros Heq. unfold ERMSolver.init_upweight. rewrite He, Heq. reflexivity.
Qed.
End Reweighting.

Module ReweightingExamples.
Import Exact UpweightExamples.

(** With [lambda_upweight] 1 and finetune, the constructor keeps its
      loader while the oversampling gives weight 0 outside the subset. *)
Example upweight_one :
    ERMSolver.init_upweight (erm_args (Rat 1)) files = Ok None ∧
    OversampleSolver.train_with_oversampling (args (Rat 1)) (fun _ _ => true) files
    = Ok ([Rat 1; Rat 1; Rat 1; Rat 0], "debiased_finetune", true).
Proof. split; vm_compute; reflexivity. Qed.

Lemma reweighting_agrees_witness :
    (eqb (ERMSolver.lambda_upweight (erm_args (Rat 5))) one = false →
     ERMSolver.init_upweight (erm_args (Rat 5)) files
     = (fun r => Some r.1.1)
         <$> OversampleSolver.train_with_oversampling (args (Rat 5)) (fun _ _ => true) files) ∧
    (eqb (ERMSolver.lambda_upweight (erm_args (Rat 5))) one = true →
     ERMSolver.init_upweight (erm_args (Rat 5)) files = Ok None).
Proof.
    apply (reweighting_agrees (erm_args (Rat 5)) (args (Rat 5)) (fun _ _ => true) files
             "ckpt/wrong.pth"); try reflexivity.
    eexists. reflexivity.
Defined.
End ReweightingExamples.

(** ** training/ERMSolver.py: what a run of [train] validates and saves *)

(** The validations that a trace reports, with their epoch and step; the
    imagenet validations, with their epoch and key; the epochs after which
    the bias scores are saved. *)
Definition validations (tr : list event) : list (nat * nat) :=
  omap (fun e => match e with Validation epoch step => Some (epoch, step) | _ => None end) tr.
Definition imagenet_validations (tr : list event) : list (nat * string) :=
  omap (fun e => match e with ValidateImagenet epoch key => Some (epoch, key) | _ => None end)
       tr.
Definition score_saves (tr : list event) : list nat :=
  omap (fun e => match e with SaveScoreIdx epoch => Some epoch | _ => None end) tr.

Lemma omap_batch_events {A : Type} (proj : event → option A) k epoch n0 n :
  (∀ e j, proj (TrainStep e j) = None) → (∀ j, proj (Logged j) = None) →
  omap proj (batch_events k epoch n0 n) = [].
Proof.
  intros Ht Hl. unfold batch_events. revert n0.
  induction n as [|n IH]; intros n0; [reflexivity|].
  cbn [seq flat_map]. rewrite omap_app, IH, app_nil_r.
  cbn [omap list_omap]. rewrite Ht.
  destruct (bool_decide _); cbn [omap list_omap]; rewrite ?Hl; reflexivity.
Qed.

Lemma omap_epochs {A : Type} (proj : event → option A) k n
    (tail : nat → nat → list event) a m :
  (∀ e j, proj (TrainStep e j) = None) → (∀ j, proj (Logged j) = None) →
  omap proj (concat (epoch_events k n tail <$> seq a m))
  = flat_map (fun e => omap proj (tail e ((e + 1) * n))) (seq a m).
Proof.
  intros Ht Hl. revert a. induction m as [|m IH]; intros a; [reflexivity|].
  cbn [seq flat_map]. rewrite fmap_cons. cbn [concat]. rewrite omap_app, IH.
  unfold epoch_events at 1. rewrite omap_app.
  rewrite (omap_batch_events proj) by assumption. reflexivity.
Qed.

Lemma flat_map_singleton {A B : Type} (f : A → B) (l : list A) :
  flat_map (fun x => [f x]) l = f <$> l.
Proof. induction l as [|x l IH]; [reflexivity|]. cbn [flat_map app]. rewrite IH. reflexivity. Qed.

Lemma flat_map_self {A : Type} (l : list A) : flat_map (fun x => [x]) l = l.
Proof. induction l as [|x l IH]; [reflexivity|]. cbn [flat_map app]. rewrite IH. reflexivity. Qed.

Lemma flat_map_nil {A B : Type} (l : list A) : flat_map (fun _ => @nil B) l = [].
Proof. induction l as [|x l IH]; [reflexivity | exact IH]. Qed.

(** X22.  A run of [ERMSolver.train] that returns has trained on the
    iterations 0, 1, ... up to the number of epochs times the number of
    batches and has logged at the multiples of [log_every_n_steps].  For
    other data than 'imagenet' it has reported one validation per epoch,
    that of epoch [e] at step [(e + 1) * n_batches + 1], one more than the
    iterations done; for 'imagenet' it has validated the keys 'biased',
    'unbiased' and 'ImageNetA' in every epoch.  It has called
    [save_score_idx] once after every epoch, with that epoch as the
    argument [epoch], when no pseudo label is given, and never otherwise;
    the files a call writes are named by [save_score_idx], by the bias
    ratio and not by the epoch for 'stl10mnist'. *)
Theorem train_validates_and_saves_scores {T : Type} (args : ERMSolver.Args T)
    (n_batches : nat) :
  0 < ERMSolver.ERM_epochs args → 0 < n_batches → 0 < ERMSolver.log_every_n_steps args →
  ∃ st,
    ERMSolver.train args n_batches = Ok st ∧
    n_iter st = ERMSolver.ERM_epochs args * n_batches ∧
    train_steps (trace st)
    = (fun j => (j / n_batches, j)) <$> seq 0 (ERMSolver.ERM_epochs args * n_batches) ∧
    logged (trace st)
    = filter (fun j => j `mod` ERMSolver.log_every_n_steps args = 0)
             (seq 0 (ERMSolver.ERM_epochs args * n_batches)) ∧
    validations (trace st)
    = (if bool_decide (ERMSolver.data args ≠ "imagenet")
       then (fun e => (e, (e + 1) * n_batches + 1)) <$> seq 0 (ERMSolver.ERM_epochs args)
       else []) ∧
    imagenet_validations (trace st)
    = (if bool_decide (ERMSolver.data args ≠ "imagenet") then []
       else flat_map (fun e => [(e, "biased"); (e, "unbiased"); (e, "ImageNetA")])
                     (seq 0 (ERMSolver.ERM_epochs args))) ∧
    score_saves (trace st)
    = match ERMSolver.oversample_pth args with
      | None => seq 0 (ERMSolver.ERM_epochs args)
      | Some _ => []
      end.
Proof.
  intros HE Hn Hk.
  assert (∀ epoch j, train_steps (erm_tail args epoch j) = []) as Ht.
  { intros epoch j. unfold erm_tail.
    destruct (bool_decide _); destruct (ERMSolver.oversample_pth args); reflexivity. }
  assert (∀ epoch j, logged (erm_tail args epoch j) = []) as Hl.
  { intros epoch j. unfold erm_tail.
    destruct (bool_decide _); destruct (ERMSolver.oversample_pth args); reflexivity. }
  unfold ERMSolver.train.
  change (foldM _ initial_state (seq 0 (ERMSolver.ERM_epochs args)))
    with (foldM (epoch_body n_batches (batch_step (ERMSolver.log_every_n_steps args))
                            (ERMSolver.after_epoch args))
                initial_state (seq 0 (ERMSolver.ERM_epochs args))).
  rewrite (epochs_run (ERMSolver.log_every_n_steps args) n_batches _ _ (erm_tail args)
             (fun _ _ _ => eq_refl) (erm_after_epoch args) ltac:(lia) Hn _ 0
             initial_state eq_refl (or_intror eq_refl) HE).
  cbn [mbind result_bind epoch_counter]. eexists. split; [reflexivity|].
  cbn [emit initial_state n_iter trace app]. split; [reflexivity|].
  split; [|split; [|split; [|split]]].
  - unfold train_steps. rewrite omap_app.
    fold (train_steps (concat (epoch_events (ERMSolver.log_every_n_steps args) n_batches
                                 (erm_tail args) <$> seq 0 (ERMSolver.ERM_epochs args)))).
    rewrite (train_steps_epochs _ _ _ Hn Ht). cbn [omap]. rewrite app_nil_r. reflexivity.
  - unfold logged. rewrite omap_app.
    fold (logged (concat (epoch_events (ERMSolver.log_every_n_steps args) n_batches
                            (erm_tail args) <$> seq 0 (ERMSolver.ERM_epochs args)))).
    rewrite (logged_epochs _ _ _ Hn Hl). cbn [omap]. rewrite app_nil_r. reflexivity.
  - unfold validations. rewrite omap_app, omap_epochs by reflexivity.
    cbn [omap]. rewrite app_nil_r. unfold erm_tail.
    destruct (bool_decide (ERMSolver.data args ≠ "imagenet")).
    + rewrite <- flat_map_singleton. apply flat_map_ext. intros e.
      destruct (ERMSolver.oversample_pth args); reflexivity.
    + etransitivity; [|apply (flat_map_nil (seq 0 (ERMSolver.ERM_epochs args)))].
      apply flat_map_ext. intros e.
      destruct (ERMSolver.oversample_pth args); reflexivity.
  - unfold imagenet_validations. rewrite omap_app, omap_epochs by reflexivity.
    cbn [omap]. rewrite app_nil_r. unfold erm_tail.
    destruct (bool_decide (ERMSolver.data args ≠ "imagenet")).
    + etransitivity; [|apply (flat_map_nil (seq 0 (ERMSolver.ERM_epochs args)))].
      apply flat_map_ext. intros e.
      destruct (ERMSolver.oversample_pth args); reflexivity.
    + apply flat_map_ext. intros e.
      destruct (ERMSolver.oversample_pth args); reflexivity.
  - unfold score_saves. rewrite omap_app, omap_epochs by reflexivity.
    cbn [omap]. rewrite app_nil_r. unfold erm_tail.
    destruct (ERMSolver.oversample_pth args).
    + etransitivity; [|apply (flat_map_nil (seq 0 (ERMSolver.ERM_epochs args)))].
      apply flat_map_ext. intros e. destruct (bool_decide _); reflexivity.
    + etransitivity; [|apply (flat_map_self (seq 0 (ERMSolver.ERM_epochs args)))].
      apply flat_map_ext. intros e. destruct (bool_decide _); reflexivity.
Qed.

Module ValidationExamples.
Import Exact TrainingExamples.

(** Two epochs of three batches on 'celebA': the validations are
      reported at the steps 4 and 7. *)
Example two_epochs :
    (fun st => (validations (trace st), score_saves (trace st)))
      <$> ERMSolver.train (erm_args 2) 3
    = Ok ([(0, 4); (1, 7)], [0; 1]).
Proof. vm_compute. reflexivity. Qed.

Lemma train_validates_and_saves_scores_witness :
    ∃ st,
      ERMSolver.train (erm_args 2) 3 = Ok st ∧
      n_iter st = 2 * 3 ∧
      train_steps (trace st) = (fun j => (j / 3, j)) <$> seq 0 (2 * 3) ∧
      logged (trace st)
      = filter (fun j => j `mod` ERMSolver.log_every_n_steps (erm_args 2) = 0)
               (seq 0 (2 * 3)) ∧
      validations (trace st)
      = (if bool_decide (ERMSolver.data (erm_args 2) ≠ "imagenet")
         then (fun e => (e, (e + 1) * 3 + 1)) <$> seq 0 2
         else []) ∧
      imagenet_validations (trace st)
      = (if bool_decide (ERMSolver.data (erm_args 2) ≠ "imagenet") then []
         else flat_map (fun e => [(e, "biased"); (e, "unbiased"); (e, "ImageNetA")])
                       (seq 0 2)) ∧
      score_saves (trace st)
      = match ERMSolver.oversample_pth (erm_args 2) with
        | None => seq 0 2
        | Some _ => []
        end.
Proof.
    apply (train_validates_and_saves_scores (erm_args 2) 3); cbn; lia.
Defined.
End ValidationExamples.
